(** * ProtoGen: enumeration resolver, structure validation, packet emitter, driver

    A shallow embedding of ProtoGen:

    - [EnumCreator::parse], [EnumCreator::computeNumberList],
      [EnumCreator::getMarkdown],
      [EnumCreator::replaceEnumerationNameWithValue] and [spacedString]
                                                (enumcreator.cpp)
    - [ProtocolStructure::parse], [ProtocolStructure::parseChildren],
      [ProtocolStructure::getNumberOfEncodes],
      [ProtocolStructure::getNumberOfNonConstEncodes],
      [ProtocolStructure::getDeclaration] and
      [ProtocolStructure::alignStructureData]   (protocolstructure.cpp)
    - [ProtocolPacket::parse] and the function generators it calls, and
      [ProtocolPacket::getTopLevelMarkdown]     (protocolpacket.cpp)
    - [main]                                    (main.cpp)

    C++ [int] is a [Z] with the 32-bit wrap-around written out, [QString] is
    [string] (the text is taken to be ASCII, so that a character is a byte),
    [QStringList] and [QList] are [list]; where a function indexes one list
    by the length of another, an [at(i)] outside its list makes it return
    [None].  The text written to the
    generated header and source file is kept as the ordered log of the calls
    made on the two [ProtocolFile] writers. *)

From Stdlib Require Import String Ascii ZArith Lia Bool DecimalString.
From stdpp Require Import base list strings.
Import ListNotations.

Local Open Scope string_scope.
Local Open Scope list_scope.
Local Open Scope Z_scope.

(* ================================================================== *)
(** * QString operations used by the sources *)
(* ================================================================== *)

Module QString.

(** [QString::isEmpty]. *)
Definition isEmpty (s : string) : bool :=
  match s with
  | EmptyString => true
  | String _ _ => false
  end.

(** The characters [QChar::isSpace] accepts in the ASCII range. *)
Definition isSpace (c : ascii) : bool :=
  let n := nat_of_ascii c in
  (Nat.eqb n 32 || (Nat.leb 9 n && Nat.leb n 13))%bool.

Fixpoint dropSpaces (l : list ascii) : list ascii :=
  match l with
  | c :: r => if isSpace c then dropSpaces r else l
  | [] => []
  end.

(** [QString::trimmed]: white space removed from both ends. *)
Definition trimmed (s : string) : string :=
  string_of_list_ascii
    (rev (dropSpaces (rev (dropSpaces (list_ascii_of_string s))))).

(** [QString::startsWith]. *)
Definition startsWith (s p : string) : bool := String.prefix p s.

(** [QString::setNum(int)] / [QString::number]: decimal rendering. *)
Definition setNum (z : Z) : string := NilZero.string_of_int (Z.to_int z).

Definition lowerChar (c : ascii) : ascii :=
  let n := nat_of_ascii c in
  if (Nat.leb 65 n && Nat.leb n 90)%bool then ascii_of_nat (n + 32) else c.

Definition upperChar (c : ascii) : ascii :=
  let n := nat_of_ascii c in
  if (Nat.leb 97 n && Nat.leb n 122)%bool then ascii_of_nat (n - 32) else c.

Fixpoint mapChars (f : ascii -> ascii) (s : string) : string :=
  match s with
  | EmptyString => EmptyString
  | String c r => String (f c) (mapChars f r)
  end.

(** [QString::toUpper] on ASCII text. *)
Definition toUpper (s : string) : string := mapChars upperChar s.
Definition toLower (s : string) : string := mapChars lowerChar s.

(** [QString::contains(p)], case sensitive. *)
Fixpoint contains (s p : string) : bool :=
  (String.prefix p s ||
   match s with
   | EmptyString => false
   | String _ r => contains r p
   end)%bool.

(** [QString::contains(p, Qt::CaseInsensitive)]. *)
Definition containsCI (s p : string) : bool :=
  contains (toLower s) (toLower p).

(** [QString::endsWith]. *)
Fixpoint endsWith (s p : string) : bool :=
  (String.eqb s p ||
   match s with
   | EmptyString => false
   | String _ r => endsWith r p
   end)%bool.

End QString.

(** C++ [int]: 32 bits, two's complement.  [int32 z] is the value an [int]
    holds after [z] has been stored into it. *)
Definition int32 (z : Z) : Z := (z + 2 ^ 31) mod 2 ^ 32 - 2 ^ 31.

Definition INT_MAX : Z := 2 ^ 31 - 1.

(** The line feed that ends the lines written to the generated files. *)
Definition LF : string := String (ascii_of_nat 10) EmptyString.

(* ================================================================== *)
(** * enumcreator.cpp *)
(* ================================================================== *)

Module EnumCreator.

(** The data members of class [EnumCreator]. *)
Record t := mk {
  minbitwidth : Z;
  name : string;
  comment : string;
  output : string;
  nameList : list string;
  commentList : list string;
  valueList : list string;
  numberList : list string
}.

(** The local variables of the loop of [computeNumberList], together with
    the [numberList] member the loop appends to. *)
Record loop := mkLoop {
  maxValue : Z;
  value : Z;
  baseString : string;
  numbers : list string
}.

(** [(int)ceil(log2(x))].  For [2 <= x <= 2^31] the double [log2 x] is
    either an exact integer (x a power of two) or further from every
    integer than the rounding error, so the result is the exact ceiling of
    the binary logarithm. *)
Definition ceil_log2 (x : Z) : Z := Z.log2_up x.

Section Resolver.

(** [QString::toUInt(&ok, base)] is Qt library code: [Some v] when the
    conversion succeeds ([ok] true), [None] when it fails. *)
Variable toUInt : string -> Z -> option Z.

(** The three-way conversion of a non-empty value string. *)
Definition convert (stringValue : string) : option Z :=
  if QString.startsWith stringValue "0x" then toUInt stringValue 16
  else if QString.startsWith stringValue "0b" then toUInt stringValue 2
  else toUInt stringValue 10.

(** One iteration of the [for] loop over [valueList]. *)
Definition iteration (st : loop) (entry : string) : loop :=
  let stringValue := QString.trimmed entry in
  let '(value', baseString', stringValue') :=
    if QString.isEmpty stringValue then
      let v := int32 (value st + 1) in
      (v, baseString st,
       if QString.isEmpty (baseString st) then QString.setNum v
       else baseString st +:+ " + " +:+ QString.setNum v)
    else
      match convert stringValue with
      | None => (0, stringValue, stringValue)
      | Some u => (int32 u, EmptyString, QString.setNum (int32 u))
      end in
  {| maxValue := if maxValue st <? value' then value' else maxValue st;
     value := value';
     baseString := baseString';
     numbers := numbers st ++ [stringValue'] |}.

Definition runLoop (e : t) : loop :=
  fold_left iteration (valueList e)
    {| maxValue := 1; value := -1; baseString := EmptyString;
       numbers := numberList e |}.

(** [EnumCreator::computeNumberList]. *)
Definition computeNumberList (e : t) : t :=
  let st := runLoop e in
  {| minbitwidth :=
       if 0 <? maxValue st then ceil_log2 (int32 (maxValue st + 1)) else 8;
     name := name e;
     comment := comment e;
     output := output e;
     nameList := nameList e;
     commentList := commentList e;
     valueList := valueList e;
     numberList := numbers st |}.

End Resolver.

(** The state [EnumCreator::parse] has built when it calls
    [computeNumberList]: the three lists filled from the [Value] tags that
    carry a name, everything else as [clear] leaves it. *)
Definition parsed (enumName enumComment : string)
    (values : list (string * string * string)) : t :=
  {| minbitwidth := 0;
     name := enumName;
     comment := enumComment;
     output := EmptyString;
     nameList := map (fun v => fst (fst v)) values;
     commentList := map snd values;
     valueList := map (fun v => snd (fst v)) values;
     numberList := [] |}.

End EnumCreator.

(* ================================================================== *)
(** * The resolver as the specification words it *)
(* ================================================================== *)

Module ResolverSpec.

(** What a raw value is to the resolver. *)
Inductive raw :=
| Blank
| Number (n : Z)
| Symbol (s : string).

(** "Parses as decimal, 0x hex, or 0b binary": a text that starts with [0x]
    is read in base 16, one that starts with [0b] in base 2, any other in
    base 10. *)
Definition numeral (toUInt : string -> Z -> option Z) (s : string)
  : option Z :=
  if String.prefix "0x" s then toUInt s 16
  else if String.prefix "0b" s then toUInt s 2
  else toUInt s 10.

Definition classify (toUInt : string -> Z -> option Z) (entry : string) : raw :=
  let s := QString.trimmed entry in
  if QString.isEmpty s then Blank
  else match numeral toUInt s with
       | Some n => Number n
       | None => Symbol s
       end.

(** Left-to-right walk with a running counter and an optional symbolic
    base ([EmptyString] when none is active); one output per entry:
    the counter after the entry, the base after the entry, the text. *)
Fixpoint walk (counter : Z) (base : string) (l : list raw)
  : list (Z * string * string) :=
  match l with
  | [] => []
  | Blank :: r =>
      let c := int32 (counter + 1) in
      (c, base,
       if QString.isEmpty base then QString.setNum c
       else base +:+ " + " +:+ QString.setNum c) :: walk c base r
  | Number n :: r =>
      (int32 n, EmptyString, QString.setNum (int32 n))
        :: walk (int32 n) EmptyString r
  | Symbol s :: r => (0, s, s) :: walk 0 s r
  end.

Definition texts (l : list raw) : list string :=
  map snd (walk (-1) EmptyString l).

Definition counters (l : list raw) : list Z :=
  map (fun x => fst (fst x)) (walk (-1) EmptyString l).

(** The entries that resolved to a number: those produced while no
    symbolic base is active. *)
Definition numericValues (l : list raw) : list Z :=
  map (fun x => fst (fst x))
    (List.filter (fun x => QString.isEmpty (snd (fst x)))
       (walk (-1) EmptyString l)).

Definition maximum (d : Z) (l : list Z) : Z := fold_right Z.max d l.

(** The bit width the specification gives an enumeration: [max 8] of the
    ceiling logarithm when a value resolved to a number, 8 otherwise. *)
Definition stated_min_bit_width (l : list raw) : Z :=
  match numericValues l with
  | [] => 8
  | v :: vs => Z.max 8 (Z.log2_up (maximum v vs + 1))
  end.

(** The same without the lower bound, as the specification also words it:
    the ceiling logarithm of the largest numeric value plus one, or 8 if no
    numeric value is known. *)
Definition plain_min_bit_width (l : list raw) : Z :=
  match numericValues l with
  | [] => 8
  | v :: vs => Z.log2_up (maximum v vs + 1)
  end.

End ResolverSpec.

(** A plain reading of numerals, used to run the resolver on examples:
    digits of the base, after the [0x] / [0b] prefix when the base is 16 / 2,
    below [2^32]. *)
Module Numeral.

Definition digit (c : ascii) : option Z :=
  let n := Z.of_nat (nat_of_ascii c) in
  if (48 <=? n) && (n <=? 57) then Some (n - 48)
  else if (97 <=? n) && (n <=? 122) then Some (n - 87)
  else if (65 <=? n) && (n <=? 90) then Some (n - 55)
  else None.

Fixpoint digits (base acc : Z) (s : string) : option Z :=
  match s with
  | EmptyString => Some acc
  | String c r =>
      match digit c with
      | Some d => if d <? base then digits base (acc * base + d) r else None
      | None => None
      end
  end.

Definition body (base : Z) (s : string) : string :=
  match s with
  | String "0" (String "x" r) => if base =? 16 then r else s
  | String "0" (String "b" r) => if base =? 2 then r else s
  | _ => s
  end.

Definition toUInt (s : string) (base : Z) : option Z :=
  match body base s with
  | EmptyString => None
  | b => match digits base 0 b with
         | Some v => if v <? 2 ^ 32 then Some v else None
         | None => None
         end
  end.

End Numeral.

(* ================================================================== *)
(** * The [Encodable] interface *)
(* ================================================================== *)

Module Encodable.

(** The three length expressions every encodable carries. *)
Record EncodedLength := mkLength {
  minEncodedLength : string;
  maxEncodedLength : string;
  nonDefaultEncodedLength : string
}.

(** Modelled from the spec: class [ProtocolField] (protocolfield.h) is not
    among the sources.  These are the data of the specification's
    [Primitive] that a leaf field has beyond the members every encodable
    has; an absent optional attribute is the empty string, as with
    [QDomElement::attribute]. *)
Record field := mkField {
  defaultValue : string;
  constantValue : string;
  notEncoded : bool;
  notInMemory : bool;
  bitfieldBits : option Z;
  startingBitCount : Z;
  terminatesBitfield : bool
}.

(** Modelled from the spec: class [Encodable] (encodable.h) is not among the
    sources.  The members [ProtocolStructure] and [ProtocolPacket] read and
    write directly are [name], [typeName], [array], [variableArray],
    [dependsOn], [comment] and [encodedLength]; [primitive] is [Some] for a
    [ProtocolField] and [None] for a nested [ProtocolStructure]. *)
Record t := mk {
  name : string;
  typeName : string;
  array : string;
  variableArray : string;
  dependsOn : string;
  comment : string;
  encodedLength : EncodedLength;
  primitive : option field
}.

(** Modelled from the spec: the queries of the [Encodable] interface, read
    off the data model ([is_primitive], [is_array], [not_encoded],
    [not_in_memory], [constant?], [bitfield_bits?], [default?]); a nested
    structure is encoded, in memory, and neither constant, bitfield nor
    default. *)
Definition isPrimitive (e : t) : bool :=
  match primitive e with Some _ => true | None => false end.

Definition isArray (e : t) : bool := negb (QString.isEmpty (array e)).

Definition isNotEncoded (e : t) : bool :=
  match primitive e with Some f => notEncoded f | None => false end.

Definition isNotInMemory (e : t) : bool :=
  match primitive e with Some f => notInMemory f | None => false end.

Definition isConstant (e : t) : bool :=
  match primitive e with
  | Some f => negb (QString.isEmpty (constantValue f))
  | None => false
  end.

Definition isBitfield (e : t) : bool :=
  match primitive e with
  | Some f => match bitfieldBits f with Some _ => true | None => false end
  | None => false
  end.

Definition isDefault (e : t) : bool :=
  match primitive e with
  | Some f => negb (QString.isEmpty (defaultValue f))
  | None => false
  end.

(** Modelled from the spec: the aggregate queries, for a primitive field
    ([has_bitfields], [needs_iterator] "when the child is itself an array",
    [has_defaults]). *)
Definition usesBitfields (e : t) : bool := isBitfield e.
Definition usesIterator (e : t) : bool := isArray e.
Definition usesDefaults (e : t) : bool := isDefault e.

Definition withField (g : field -> field) (e : t) : t :=
  {| name := name e; typeName := typeName e; array := array e;
     variableArray := variableArray e; dependsOn := dependsOn e;
     comment := comment e; encodedLength := encodedLength e;
     primitive := option_map g (primitive e) |}.

(** Modelled from the spec: "revoke" a default, mark a run terminator,
    propagate the starting bit count; the ending bit count of a bitfield is
    its starting bit count plus its width (starting counts 0, 3, 8 for
    widths 3, 5, 8). *)
Definition clearDefaults : t -> t :=
  withField (fun f =>
    {| defaultValue := EmptyString; constantValue := constantValue f;
       notEncoded := notEncoded f; notInMemory := notInMemory f;
       bitfieldBits := bitfieldBits f;
       startingBitCount := startingBitCount f;
       terminatesBitfield := terminatesBitfield f |}).

Definition setTerminatesBitfield (b : bool) : t -> t :=
  withField (fun f =>
    {| defaultValue := defaultValue f; constantValue := constantValue f;
       notEncoded := notEncoded f; notInMemory := notInMemory f;
       bitfieldBits := bitfieldBits f;
       startingBitCount := startingBitCount f;
       terminatesBitfield := b |}).

Definition setStartingBitCount (n : Z) : t -> t :=
  withField (fun f =>
    {| defaultValue := defaultValue f; constantValue := constantValue f;
       notEncoded := notEncoded f; notInMemory := notInMemory f;
       bitfieldBits := bitfieldBits f;
       startingBitCount := n;
       terminatesBitfield := terminatesBitfield f |}).

Definition getStartingBitCount (e : t) : Z :=
  match primitive e with Some f => startingBitCount f | None => 0 end.

Definition getTerminatesBitfield (e : t) : bool :=
  match primitive e with Some f => terminatesBitfield f | None => false end.

Definition getEndingBitCount (e : t) : Z :=
  match primitive e with
  | Some f => match bitfieldBits f with
              | Some bits => startingBitCount f + bits
              | None => 0
              end
  | None => 0
  end.

(** [encodable->variableArray.clear()], [encodable->dependsOn.clear()]. *)
Definition clearVariableArray (e : t) : t :=
  {| name := name e; typeName := typeName e; array := array e;
     variableArray := EmptyString; dependsOn := dependsOn e;
     comment := comment e; encodedLength := encodedLength e;
     primitive := primitive e |}.

Definition clearDependsOn (e : t) : t :=
  {| name := name e; typeName := typeName e; array := array e;
     variableArray := variableArray e; dependsOn := EmptyString;
     comment := comment e; encodedLength := encodedLength e;
     primitive := primitive e |}.

End Encodable.

(* ================================================================== *)
(** * protocolstructure.cpp: [ProtocolStructure::parseChildren] *)
(* ================================================================== *)

Module ProtocolStructure.

Import Encodable.

(** What [parseChildren] reads and writes: the [encodables] list, the three
    aggregate flags, the lines sent to [std::cout], and its local pointer
    [prevEncodable].  The pointer aliases an element of [encodables], so it
    is kept as the index of that element. *)
Record state := mkState {
  encodables : list Encodable.t;
  bitfields : bool;
  needsIterator : bool;
  defaults : bool;
  cout : list string;
  prevEncodable : option nat
}.

Definition initial : state :=
  {| encodables := []; bitfields := false; needsIterator := false;
     defaults := false; cout := []; prevEncodable := None |}.

(** The test both reference loops apply to a previous sibling before they
    [break]: encoded and in memory, not (non-primitive and non-array), and
    carrying the wanted name. *)
Definition accepts (wanted : string) (prev : Encodable.t) : bool :=
  negb (isNotEncoded prev || isNotInMemory prev)
  && negb (negb (isPrimitive prev) && negb (isArray prev))
  && String.eqb (name prev) wanted.

(** [for(prev = 0; prev < encodables.size(); prev++) ... break;] followed by
    [if(prev >= encodables.size())]: [true] when the loop left early. *)
Definition found (wanted : string) (siblings : list Encodable.t) : bool :=
  match list_find (fun prev => accepts wanted prev = true) siblings with
  | Some _ => true
  | None => false
  end.

Definition defaultIgnored (structName : string) (e : Encodable.t) : string :=
  structName +:+ ": " +:+ name e
    +:+ ": default value ignored, field is followed by non-default".

(** Lines 179-210: the aggregate flags, and the revocation of earlier
    defaults. *)
Definition trackMetadata (structName : string) (e : Encodable.t)
    (st : state) : state :=
  if isPrimitive e then
    let bitfields' := if usesBitfields e then true else bitfields st in
    let needsIterator' := if usesIterator e then true else needsIterator st in
    if usesDefaults e then
      {| encodables := encodables st; bitfields := bitfields';
         needsIterator := needsIterator'; defaults := true;
         cout := cout st; prevEncodable := prevEncodable st |}
    else if defaults st then
      {| encodables := map clearDefaults (encodables st);
         bitfields := bitfields'; needsIterator := needsIterator';
         defaults := false;
         cout := cout st ++ map (defaultIgnored structName) (encodables st);
         prevEncodable := prevEncodable st |}
    else
      {| encodables := encodables st; bitfields := bitfields';
         needsIterator := needsIterator'; defaults := defaults st;
         cout := cout st; prevEncodable := prevEncodable st |}
  else
    {| encodables := encodables st; bitfields := bitfields st;
       needsIterator := if isArray e then true else needsIterator st;
       defaults := defaults st; cout := cout st;
       prevEncodable := prevEncodable st |}.

(** Lines 213-242: the variable array length must name a previous
    sibling.  Returns the encodable and the diagnostic lines. *)
Definition checkVariableArray (structName : string)
    (siblings : list Encodable.t) (e : Encodable.t)
  : Encodable.t * list string :=
  if negb (QString.isEmpty (variableArray e)) then
    if found (variableArray e) siblings then (e, [])
    else (clearVariableArray e,
          [structName +:+ ": " +:+ name e +:+
           ": variable length array ignored, failed to find length variable"])
  else (e, []).

(** Lines 244-281: the same for [dependsOn], which a bitfield cannot use. *)
Definition checkDependsOn (structName : string)
    (siblings : list Encodable.t) (e : Encodable.t)
  : Encodable.t * list string :=
  if negb (QString.isEmpty (dependsOn e)) then
    if isBitfield e then
      (clearDependsOn e,
       [structName +:+ ": " +:+ name e +:+ ": bitfields cannot use dependsOn"])
    else if found (dependsOn e) siblings then (e, [])
    else (clearDependsOn e,
          [structName +:+ ": " +:+ name e +:+
           ": dependsOn ignored, failed to find dependsOn variable"])
  else (e, []).

(** Lines 283-302: a bitfield is taken to end its group until the next
    encoded child turns out to be a bitfield too; then the previous one is
    no terminator, and the new one starts where the previous one ended.
    Returns the siblings (the previous one possibly updated in place) and
    the encodable. *)
Definition linkBitfields (prevEncodable : option nat)
    (siblings : list Encodable.t) (e : Encodable.t)
  : list Encodable.t * Encodable.t :=
  let e := if isBitfield e then setTerminatesBitfield true e else e in
  match prevEncodable with
  | Some i =>
      match siblings !! i with
      | Some prev =>
          if isBitfield prev && isBitfield e then
            (alter (setTerminatesBitfield false) i siblings,
             setStartingBitCount (getEndingBitCount prev) e)
          else (siblings, e)
      | None => (siblings, e)
      end
  | None => (siblings, e)
  end.

(** The body of the loop over the children, for the child that
    [generateEncodable] made of one DOM node ([None] for [NULL]). *)
Definition child (structName : string) (st : state)
    (made : option Encodable.t) : state :=
  match made with
  | None => st
  | Some e =>
      if negb (isNotEncoded e) then
        let st := trackMetadata structName e st in
        let '(e, out1) := checkVariableArray structName (encodables st) e in
        let '(e, out2) := checkDependsOn structName (encodables st) e in
        let '(siblings, e) :=
          linkBitfields (prevEncodable st) (encodables st) e in
        {| encodables := siblings ++ [e];
           bitfields := bitfields st; needsIterator := needsIterator st;
           defaults := defaults st;
           cout := cout st ++ out1 ++ out2;
           prevEncodable := Some (length siblings) |}
      else
        {| encodables := encodables st ++ [e];
           bitfields := bitfields st; needsIterator := needsIterator st;
           defaults := defaults st; cout := cout st;
           prevEncodable := prevEncodable st |}
  end.

(** [ProtocolStructure::parseChildren], started from any state (the caller
    starts it from [initial]). *)
Definition parseChildrenFrom (structName : string) (st : state)
    (children : list (option Encodable.t)) : state :=
  fold_left (child structName) children st.

Definition parseChildren (structName : string)
    (children : list (option Encodable.t)) : state :=
  parseChildrenFrom structName initial children.

(** The children that take part in the encoding, in order. *)
Definition encodedOnly (l : list Encodable.t) : list Encodable.t :=
  List.filter (fun e => negb (isNotEncoded e)) l.

(** Positions [i..j] of [E] are a bitfield run: every member is a bitfield,
    and neither the element before [i] nor the one after [j] is. *)
Definition bitfieldRun (E : list Encodable.t) (i j : nat) : Prop :=
  (i <= j)%nat /\
  (forall k, (i <= k <= j)%nat ->
     exists e, E !! k = Some e /\ isBitfield e = true) /\
  (forall i' e, i = S i' -> E !! i' = Some e -> isBitfield e = false) /\
  (forall e, E !! S j = Some e -> isBitfield e = false).

(** [ProtocolStructure::getNumberOfEncodes]. *)
Definition getNumberOfEncodes (l : list Encodable.t) : Z :=
  fold_left (fun n e => if isNotEncoded e then n else n + 1) l 0.

(** [ProtocolStructure::getNumberOfNonConstEncodes]. *)
Definition getNumberOfNonConstEncodes (l : list Encodable.t) : Z :=
  fold_left
    (fun n e =>
       if isNotEncoded e || isNotInMemory e || isConstant e then n
       else n + 1) l 0.

End ProtocolStructure.

(* ================================================================== *)
(** * protocolpacket.cpp *)
(* ================================================================== *)

Module ProtocolPacket.

Import Encodable.

(** A call made on one of the two [ProtocolFile] writers. *)
Inductive call :=
| setModuleName (moduleName : string)
| prepareToAppend
| write (text : string)
| makeLineSeparator
| writeIncludeDirective (include : string)
| flush
| clear.

(** The calls made on [header] and on [source], each in order. *)
Record Files := mkFiles {
  header : list call;
  source : list call
}.

Definition toHeader (l : list call) : Files := {| header := l; source := [] |}.
Definition toSource (l : list call) : Files := {| header := []; source := l |}.
Definition nothing : Files := {| header := []; source := [] |}.

(** First [a], then [b]. *)
Definition andThen (a b : Files) : Files :=
  {| header := header a ++ header b; source := source a ++ source b |}.

Infix ">>" := andThen (at level 61, left associativity).

(** The members of [ProtocolSupport] that [parse] reads. *)
Record ProtocolSupport := mkSupport {
  specialFloat : bool;
  bitfield : bool
}.

(** The packet object: what the constructor stores, the inherited
    [Encodable] and [ProtocolStructure] members, and [id]. *)
Record t := mk {
  protoName : string;
  prefix : string;
  support : ProtocolSupport;
  isBigEndian : bool;
  name : string;
  typeName : string;
  array : string;
  variableArray : string;
  dependsOn : string;
  comment : string;
  encodedLength : EncodedLength;
  encodables : list Encodable.t;
  enumList : list EnumCreator.t;
  bitfields : bool;
  needsIterator : bool;
  defaults : bool;
  id : string
}.

(** What [parse] reads of the [<Packet>] DOM element.  [attribute] is
    [QDomElement::attribute] (the empty string when the attribute is
    absent); the other fields are what the helpers of [ProtocolParser] and
    [generateEncodable], which are not among the sources, make of the
    element and of its child nodes. *)
Record element := mkElement {
  attribute : string -> string;
  getComment : string;
  parseEnumeration : list EnumCreator.t;
  generateEncodable : list (option Encodable.t);
  outputIncludes : list call
}.


(** The code [ProtocolPacket] calls and the sources do not contain: the
    virtual functions of the children ([ProtocolField] and nested
    structures), [EncodedLength], [ProtocolParser::outputLongComment],
    [ProtocolFile::fileName], and the layout of the structure declaration.
    The encode and decode strings take the running [bitcount] and return
    it updated. *)
Class Collaborators := {
  outputLongComment : string -> string -> string;
  fileName : string -> string;
  addToLength : EncodedLength -> EncodedLength -> EncodedLength;
  addToLengthArray :
    EncodedLength -> EncodedLength -> string -> bool -> bool -> EncodedLength;
  getIncludeDirective : Encodable.t -> string;
  getStructureDeclaration : t -> bool -> string;
  getPrototypeEncodeString : Encodable.t -> bool -> string;
  getPrototypeDecodeString : Encodable.t -> bool -> string;
  getEncodeString : Encodable.t -> bool -> Z -> bool -> string * Z;
  getDecodeString : Encodable.t -> bool -> Z -> bool -> bool -> string * Z;
  getSetToDefaultsString : Encodable.t -> bool -> string;
  getEncodeParameterComment : Encodable.t -> string;
  getDecodeParameterComment : Encodable.t -> string;
  getEncodeSignature : Encodable.t -> string;
  getDecodeSignature : Encodable.t -> string
}.

Section Generator.

Context `{Collaborators}.

Definition concat (l : list string) : string :=
  fold_right String.append EmptyString l.

Definition getPacketEncodeBriefComment (p : t) : string :=
  "Create the " +:+ prefix p +:+ name p +:+ " packet".

Definition getPacketDecodeBriefComment (p : t) : string :=
  "Decode the " +:+ prefix p +:+ name p +:+ " packet".

Definition getDataEncodeParameterList (p : t) : string :=
  concat (map getEncodeSignature (encodables p)).

Definition getDataDecodeParameterList (p : t) : string :=
  concat (map getDecodeSignature (encodables p)).

Definition getPacketEncodeSignature (p : t) : string :=
  if (0 <? Z.of_nat (length (encodables p))) then
    "void encode" +:+ prefix p +:+ name p +:+ "Packet(void* pkt"
      +:+ getDataEncodeParameterList p +:+ ")"
  else "void encode" +:+ prefix p +:+ name p +:+ "Packet(void* pkt)".

Definition getPacketDecodeSignature (p : t) : string :=
  if (0 <? Z.of_nat (length (encodables p))) then
    "int decode" +:+ prefix p +:+ name p +:+ "Packet(const void* pkt"
      +:+ getDataDecodeParameterList p +:+ ")"
  else "int decode" +:+ prefix p +:+ name p +:+ "Packet(const void* pkt)".

Definition getNumberOfEncodes (p : t) : Z :=
  ProtocolStructure.getNumberOfEncodes (encodables p).

Definition getNumberOfNonConstEncodes (p : t) : Z :=
  ProtocolStructure.getNumberOfNonConstEncodes (encodables p).

(** [for(i ...) { source.makeLineSeparator();
    source.write(encodables[i]->getEncodeString(isBigEndian, &bitcount, m)); }] *)
Fixpoint encodeFields (p : t) (isStructureMember : bool)
    (l : list Encodable.t) (bitcount : Z) : list call :=
  match l with
  | [] => []
  | e :: r =>
      let '(text, bitcount) :=
        getEncodeString e (isBigEndian p) bitcount isStructureMember in
      makeLineSeparator :: write text
        :: encodeFields p isStructureMember r bitcount
  end.

(** The first decode loop, which stops at the first default:
    the calls, the index [i] it stopped at, and [bitcount]. *)
Fixpoint decodeNonDefaults (p : t) (isStructureMember : bool)
    (l : list Encodable.t) (i : nat) (bitcount : Z)
  : list call * nat * Z :=
  match l with
  | [] => ([], i, bitcount)
  | e :: r =>
      if isDefault e then ([makeLineSeparator], i, bitcount)
      else
        let '(text, bitcount) :=
          getDecodeString e (isBigEndian p) bitcount isStructureMember true in
        let '(calls, i', bitcount') :=
          decodeNonDefaults p isStructureMember r (S i) bitcount in
        (makeLineSeparator :: write text :: calls, i', bitcount')
  end.

(** The second decode loop, [for(; i < encodables.length(); i++)
    { source.makeLineSeparator(); source.write(...getDecodeString...); }],
    over the encodables it goes through. *)
Fixpoint decodeEach (p : t) (isStructureMember : bool)
    (l : list Encodable.t) (bitcount : Z) : list call :=
  match l with
  | [] => []
  | e :: r =>
      let '(text, bitcount) :=
        getDecodeString e (isBigEndian p) bitcount isStructureMember true in
      makeLineSeparator :: write text
        :: decodeEach p isStructureMember r bitcount
  end.


(** The short-packet check written between the two loops. *)
Definition actualLengthCheck : list call :=
  [ makeLineSeparator;
    write ("    // Used variable length arrays or dependent fields, check actual length" +:+ LF);
    write ("    if(numBytes < byteindex)" +:+ LF);
    write ("        return 0;" +:+ LF) ].

(** Both decode loops with the check between them (lines 406-436 and
    564-593). *)
Definition decodeFields (p : t) (isStructureMember : bool) : list call :=
  let '(calls, i, bitcount) :=
    decodeNonDefaults p isStructureMember (encodables p) 0 0 in
  calls
  ++ (if negb (String.eqb (minEncodedLength (encodedLength p))
                          (nonDefaultEncodedLength (encodedLength p)))
         && (0 <? Z.of_nat i)
      then actualLengthCheck else [])
  ++ decodeEach p isStructureMember (drop i (encodables p)) bitcount.

(** [if(defaults) { ... getSetToDefaultsString ... }] *)
Definition setToDefaults (p : t) (isStructureMember : bool) : list call :=
  map (fun e => write (getSetToDefaultsString e isStructureMember))
    (encodables p).

(** The zero-length encode function and the decode function that only
    compares the identifier. *)
Definition zeroLengthEncodeBody (p : t) : list call :=
  [ write ("{" +:+ LF);
    write ("    // create a zero length packet" +:+ LF);
    write ("    finish" +:+ protoName p +:+ "Packet(pkt, 0, get"
           +:+ prefix p +:+ name p +:+ "PacketID());" +:+ LF);
    write ("}" +:+ LF) ].

Definition identifierOnlyDecodeBody (p : t) : list call :=
  [ write ("{" +:+ LF);
    write ("    if(get" +:+ protoName p +:+ "PacketID(pkt) != get"
           +:+ prefix p +:+ name p +:+ "PacketID())" +:+ LF);
    write ("        return 0;" +:+ LF);
    write ("    else" +:+ LF);
    write ("        return 1;" +:+ LF);
    write ("}" +:+ LF) ].

(** The two functions written for a packet without encoded child; the
    structure and the parameter variant differ in the signature only
    (lines 444-471 and 601-628). *)
Definition zeroLengthEncodeFunction (signature : string) (p : t)
  : list call :=
  [ makeLineSeparator;
    write ("/*!" +:+ LF);
    write (" * \brief " +:+ getPacketEncodeBriefComment p +:+ LF);
    write (" *" +:+ LF);
    write (outputLongComment " *" (comment p) +:+ LF);
    write (" * \param pkt points to the packet which will be created by this function" +:+ LF);
    write (" */" +:+ LF);
    write (signature +:+ LF) ]
  ++ zeroLengthEncodeBody p.

Definition identifierOnlyDecodeComment (p : t) : list call :=
  [ write LF;
    write ("/*!" +:+ LF);
    write (" * \brief " +:+ getPacketDecodeBriefComment p +:+ LF);
    write (" *" +:+ LF);
    write (outputLongComment " *" (comment p) +:+ LF);
    write (" * \param pkt points to the packet being decoded by this function" +:+ LF);
    write (" * \return 0 is returned if the packet ID is wrong, else 1" +:+ LF);
    write (" */" +:+ LF) ].

Definition identifierOnlyDecodeFunction (signature : string) (p : t)
  : list call :=
  identifierOnlyDecodeComment p
  ++ [ write (signature +:+ LF) ]
  ++ identifierOnlyDecodeBody p.

(** The identifier and size verification of the structure decode
    function (lines 383-393). *)
Definition structureVerification (p : t) : list call :=
  [ write LF;
    write ("    // Verify the packet identifier" +:+ LF);
    write ("    if(get" +:+ protoName p +:+ "PacketID(pkt) != get"
           +:+ prefix p +:+ name p +:+ "PacketID())" +:+ LF);
    write ("        return 0;" +:+ LF);
    write LF;
    write ("    // Verify the packet size" +:+ LF);
    write ("    numBytes = get" +:+ protoName p +:+ "PacketSize(pkt);" +:+ LF);
    write ("    if(numBytes < get" +:+ prefix p +:+ name p
           +:+ "MinDataLength())" +:+ LF);
    write ("        return 0;" +:+ LF);
    write LF;
    write ("    // The raw data from the packet" +:+ LF);
    write ("    data = get" +:+ protoName p +:+ "PacketDataConst(pkt);" +:+ LF);
    makeLineSeparator ].

(** The same of the parameter decode function (lines 545-553). *)
Definition parameterVerification (p : t) : list call :=
  [ write ("    int byteindex = 0;" +:+ LF);
    write ("    const uint8_t* data = get" +:+ protoName p
           +:+ "PacketDataConst(pkt);" +:+ LF);
    write ("    int numBytes = get" +:+ protoName p +:+ "PacketSize(pkt);" +:+ LF);
    write LF;
    write ("    if(get" +:+ protoName p +:+ "PacketID(pkt) != get"
           +:+ prefix p +:+ name p +:+ "PacketID())" +:+ LF);
    write ("        return 0;" +:+ LF);
    write LF;
    write ("    if(numBytes < get" +:+ prefix p +:+ name p
           +:+ "MinDataLength())" +:+ LF);
    write ("        return 0;" +:+ LF) ].

Definition returnOne : list call :=
  [ makeLineSeparator; write ("    return 1;" +:+ LF); write ("}" +:+ LF) ].

Definition locals (p : t) : list call :=
  (if bitfields p then [write ("    int bitcount = 0;" +:+ LF)] else [])
  ++ (if needsIterator p then [write ("    int i = 0;" +:+ LF)] else []).

(** The encode function of [createStructurePacketFunctions]
    (lines 313-354). *)
Definition structureEncodeFunction (p : t) : list call :=
  [ makeLineSeparator;
    write ("/*!" +:+ LF);
    write (" * \brief " +:+ getPacketEncodeBriefComment p +:+ LF);
    write (" *" +:+ LF);
    write (outputLongComment " *" (comment p) +:+ LF);
    write (" * \param pkt points to the packet which will be created by this function" +:+ LF) ]
  ++ (if 0 <? getNumberOfNonConstEncodes p then
        [ write (" * \param user points to the user data that will be encoded in pkt" +:+ LF);
          write (" */" +:+ LF);
          write ("void encode" +:+ prefix p +:+ name p
                 +:+ "PacketStructure(void* pkt, const " +:+ typeName p
                 +:+ "* user)" +:+ LF);
          write ("{" +:+ LF) ]
      else
        [ write (" */" +:+ LF);
          write (("void encode" +:+ prefix p +:+ name p
                  +:+ "PacketStructure(void* pkt)") +:+ LF);
          write ("{" +:+ LF) ])
  ++ [ write ("    uint8_t* data = get" +:+ protoName p
              +:+ "PacketData(pkt);" +:+ LF);
       write ("    int byteindex = 0;" +:+ LF) ]
  ++ locals p
  ++ encodeFields p true (encodables p) 0
  ++ [ makeLineSeparator;
       write ("    // complete the process of creating the packet" +:+ LF);
       write ("    finish" +:+ protoName p +:+ "Packet(pkt, byteindex, get"
              +:+ prefix p +:+ name p +:+ "PacketID());" +:+ LF);
       write ("}" +:+ LF) ].

(** The head of the decode function of [createStructurePacketFunctions]
    (lines 363-381). *)
Definition structureDecodeHead (p : t) : list call :=
  [ makeLineSeparator;
    write ("/*!" +:+ LF);
    write (" * \brief " +:+ getPacketDecodeBriefComment p +:+ LF);
    write (" *" +:+ LF);
    write (outputLongComment " *" (comment p) +:+ LF);
    write (" * \param pkt points to the packet being decoded by this function" +:+ LF);
    write (" * \param user receives the data decoded from the packet" +:+ LF);
    write (" * \return 0 is returned if the packet ID or size is wrong, else 1" +:+ LF);
    write (" */" +:+ LF);
    write ("int decode" +:+ prefix p +:+ name p
           +:+ "PacketStructure(const void* pkt, " +:+ typeName p
           +:+ "* user)" +:+ LF);
    write ("{" +:+ LF);
    write ("    int numBytes;" +:+ LF);
    write ("    int byteindex = 0;" +:+ LF);
    write ("    const uint8_t* data;" +:+ LF) ]
  ++ locals p.

(** What the structure decode function does with the payload
    (lines 395-436): the defaults, then the fields. *)
Definition structurePayload (p : t) : list call :=
  (if defaults p then
     write ("    // this packet has default fields, make sure they are set" +:+ LF)
       :: setToDefaults p true
   else [])
  ++ [ makeLineSeparator ]
  ++ decodeFields p true.

(** The decode function of [createStructurePacketFunctions]. *)
Definition structureDecodeFunction (p : t) : list call :=
  structureDecodeHead p
  ++ structureVerification p
  ++ structurePayload p
  ++ returnOne.

(** [ProtocolPacket::createStructurePacketFunctions]. *)
Definition createStructurePacketFunctions (p : t) : Files :=
  if 0 <? getNumberOfEncodes p then
    toHeader
      [ makeLineSeparator;
        write ("//! " +:+ getPacketEncodeBriefComment p +:+ LF);
        (if 0 <? getNumberOfNonConstEncodes p then
           write ("void encode" +:+ prefix p +:+ name p
                  +:+ "PacketStructure(void* pkt, const " +:+ typeName p
                  +:+ "* user);" +:+ LF)
         else
           write ("void encode" +:+ prefix p +:+ name p
                  +:+ "PacketStructure(void* pkt);" +:+ LF)) ]
    >> toSource (structureEncodeFunction p)
    >> toHeader
         [ makeLineSeparator;
           write ("//! " +:+ getPacketDecodeBriefComment p +:+ LF);
           write ("int decode" +:+ prefix p +:+ name p
                  +:+ "PacketStructure(const void* pkt, " +:+ typeName p
                  +:+ "* user);" +:+ LF) ]
    >> toSource (structureDecodeFunction p)
  else
    toSource
      (zeroLengthEncodeFunction
         ("void encode" +:+ prefix p +:+ name p +:+ "PacketStructure(void* pkt)")
         p
       ++ identifierOnlyDecodeFunction
            ("int decode" +:+ prefix p +:+ name p
             +:+ "PacketStructure(const void* pkt)") p).

(** The encode function of [createPacketFunctions] (lines 495-526). *)
Definition parameterEncodeFunction (p : t) : list call :=
  [ makeLineSeparator;
    write ("/*!" +:+ LF);
    write (" * \brief " +:+ getPacketEncodeBriefComment p +:+ LF);
    write (" *" +:+ LF);
    write (outputLongComment " *" (comment p) +:+ LF);
    write (" * \param pkt points to the packet which will be created by this function" +:+ LF) ]
  ++ map (fun e => write (getEncodeParameterComment e)) (encodables p)
  ++ [ write (" */" +:+ LF);
       write (getPacketEncodeSignature p +:+ LF);
       write ("{" +:+ LF);
       write ("    uint8_t* data = get" +:+ protoName p
              +:+ "PacketData(pkt);" +:+ LF);
       write ("    int byteindex = 0;" +:+ LF) ]
  ++ locals p
  ++ encodeFields p false (encodables p) 0
  ++ [ makeLineSeparator;
       write ("    // complete the process of creating the packet" +:+ LF);
       write ("    finish" +:+ protoName p +:+ "Packet(pkt, byteindex, get"
              +:+ prefix p +:+ name p +:+ "PacketID());" +:+ LF);
       write ("}" +:+ LF) ].

(** The head of the decode function of [createPacketFunctions]
    (lines 528-544). *)
Definition parameterDecodeHead (p : t) : list call :=
  [ write LF;
    write ("/*!" +:+ LF);
    write (" * \brief " +:+ getPacketDecodeBriefComment p +:+ LF);
    write (" *" +:+ LF);
    write (outputLongComment " *" (comment p) +:+ LF);
    write (" * \param pkt points to the packet being decoded by this function" +:+ LF) ]
  ++ map (fun e => write (getDecodeParameterComment e)) (encodables p)
  ++ [ write (" * \return 0 is returned if the packet ID or size is wrong, else 1" +:+ LF);
       write (" */" +:+ LF);
       write (getPacketDecodeSignature p +:+ LF);
       write ("{" +:+ LF) ]
  ++ locals p.

(** What the parameter decode function does with the payload
    (lines 554-593). *)
Definition parameterPayload (p : t) : list call :=
  (if defaults p then
     write LF
       :: write ("    // this packet has default fields, make sure they are set" +:+ LF)
       :: setToDefaults p false
   else [])
  ++ decodeFields p false.

(** The decode function of [createPacketFunctions]. *)
Definition parameterDecodeFunction (p : t) : list call :=
  parameterDecodeHead p
  ++ parameterVerification p
  ++ parameterPayload p
  ++ returnOne.

(** [ProtocolPacket::createPacketFunctions]. *)
Definition createPacketFunctions (p : t) : Files :=
  toHeader
    [ makeLineSeparator;
      write ("//! " +:+ getPacketEncodeBriefComment p +:+ LF);
      write (getPacketEncodeSignature p +:+ ";" +:+ LF);
      makeLineSeparator;
      write ("//! " +:+ getPacketDecodeBriefComment p +:+ LF);
      write (getPacketDecodeSignature p +:+ ";" +:+ LF) ]
  >> (if 0 <? getNumberOfEncodes p then
        toSource (parameterEncodeFunction p ++ parameterDecodeFunction p)
      else
        toSource
          (zeroLengthEncodeFunction (getPacketEncodeSignature p) p
           ++ identifierOnlyDecodeFunction (getPacketDecodeSignature p) p)).

(** [ProtocolPacket::createSubStructureFunctions]. *)
Definition createSubStructureFunctions (p : t) : Files :=
  toSource
    (flat_map
       (fun e =>
          if isPrimitive e then []
          else [ makeLineSeparator;
                 write (getPrototypeEncodeString e (isBigEndian p));
                 makeLineSeparator;
                 write (getPrototypeDecodeString e (isBigEndian p)) ])
       (encodables p)).

Definition withId (newId : string) (p : t) : t :=
  {| protoName := protoName p; prefix := prefix p; support := support p;
     isBigEndian := isBigEndian p; name := name p; typeName := typeName p;
     array := array p; variableArray := variableArray p;
     dependsOn := dependsOn p; comment := comment p;
     encodedLength := encodedLength p; encodables := encodables p;
     enumList := enumList p; bitfields := bitfields p;
     needsIterator := needsIterator p; defaults := defaults p;
     id := newId |}.

(** [ProtocolPacket::createUtilityFunctions]: sets [id] and writes the
    two accessors. *)
Definition createUtilityFunctions (e : element) (p : t) : t * Files :=
  let id' := if QString.isEmpty (attribute e "ID")
             then QString.toUpper (name p) else attribute e "ID" in
  (withId id' p,
   toHeader
     [ makeLineSeparator;
       write ("//! return the packet ID for the " +:+ prefix p +:+ name p
              +:+ " packet" +:+ LF);
       write ("uint32_t get" +:+ prefix p +:+ name p +:+ "PacketID(void);" +:+ LF) ]
   >> toSource
        [ makeLineSeparator;
          write ("/*!" +:+ LF);
          write (" * \return the packet ID for the " +:+ prefix p +:+ name p
                 +:+ " packet" +:+ LF);
          write (" */" +:+ LF);
          write ("uint32_t get" +:+ prefix p +:+ name p +:+ "PacketID(void)" +:+ LF);
          write ("{" +:+ LF);
          write ("    return " +:+ id' +:+ ";" +:+ LF);
          write ("}" +:+ LF) ]
   >> toHeader
        [ makeLineSeparator;
          write ("//! return the minimum data length for the " +:+ prefix p
                 +:+ name p +:+ " packet" +:+ LF);
          write ("int get" +:+ prefix p +:+ name p +:+ "MinDataLength(void);" +:+ LF) ]
   >> toSource
        [ makeLineSeparator;
          write ("/*!" +:+ LF);
          write (" * \return the minimum data length in bytes for the "
                 +:+ prefix p +:+ name p +:+ " packet" +:+ LF);
          write (" */" +:+ LF);
          write ("int get" +:+ prefix p +:+ name p +:+ "MinDataLength(void)" +:+ LF);
          write ("{" +:+ LF);
          (if QString.isEmpty (minEncodedLength (encodedLength p))
           then write ("    return 0;" +:+ LF)
           else write ("    return " +:+ minEncodedLength (encodedLength p)
                       +:+ ";" +:+ LF));
          write ("}" +:+ LF) ]).

Definition noLength : EncodedLength :=
  {| minEncodedLength := EmptyString; maxEncodedLength := EmptyString;
     nonDefaultEncodedLength := EmptyString |}.

(** [ProtocolStructure::parse], run on a packet object that [clear] has
    just reset: the object, and the lines sent to [std::cout]. *)
Definition ProtocolStructure_parse (protocolName protocolPrefix : string)
    (supported : ProtocolSupport) (bigendian : bool) (e : element)
  : t * list string :=
  let name := if QString.isEmpty (attribute e "name")
              then "_unknown" else attribute e "name" in
  let typeName := protocolPrefix +:+ name +:+ "_t" in
  let array := attribute e "array" in
  let variableArray := attribute e "variableArray" in
  let '(variableArray, out1) :=
    if QString.isEmpty array && negb (QString.isEmpty variableArray)
    then (EmptyString,
          [name +:+ ": must specify array length to specify variable array length"])
    else (variableArray, []) in
  let dependsOn := attribute e "dependsOn" in
  let '(dependsOn, out2) :=
    if negb (QString.isEmpty dependsOn) && negb (QString.isEmpty variableArray)
    then (EmptyString,
          [name +:+ ": variable length arrays cannot also use dependsOn"])
    else (dependsOn, []) in
  let st := ProtocolStructure.parseChildren name (generateEncodable e) in
  let length :=
    fold_left (fun len c => addToLength len (Encodable.encodedLength c))
      (ProtocolStructure.encodables st) noLength in
  ({| protoName := protocolName; prefix := protocolPrefix;
      support := supported; isBigEndian := bigendian;
      name := name; typeName := typeName; array := array;
      variableArray := variableArray; dependsOn := dependsOn;
      comment := getComment e;
      encodedLength :=
        addToLengthArray noLength length array
          (negb (QString.isEmpty variableArray))
          (negb (QString.isEmpty dependsOn));
      encodables := ProtocolStructure.encodables st;
      enumList := parseEnumeration e;
      bitfields := ProtocolStructure.bitfields st;
      needsIterator := ProtocolStructure.needsIterator st;
      defaults := ProtocolStructure.defaults st;
      id := EmptyString |},
   out1 ++ out2 ++ ProtocolStructure.cout st).

(** [packets cannot be an array], [dependsOn makes no sense for a packet]
    (lines 59-70). *)
Definition rejectArrayAndDependsOn (p : t) : t * list string :=
  let isArray := negb (QString.isEmpty (array p)) in
  let hasDependsOn := negb (QString.isEmpty (dependsOn p)) in
  ({| protoName := protoName p; prefix := prefix p; support := support p;
      isBigEndian := isBigEndian p; name := name p; typeName := typeName p;
      array := if isArray then EmptyString else array p;
      variableArray := if isArray then EmptyString else variableArray p;
      dependsOn := if hasDependsOn then EmptyString else dependsOn p;
      comment := comment p;
      encodedLength := encodedLength p; encodables := encodables p;
      enumList := enumList p; bitfields := bitfields p;
      needsIterator := needsIterator p; defaults := defaults p;
      id := id p |},
   (if isArray then [name p +:+ ": packets cannot be an array"] else [])
   ++ (if hasDependsOn
       then [name p +:+ ": dependsOn makes no sense for a packet"] else [])).

(** The choice of the interfaces (lines 138-157):
    [(structureFunctions, parameterFunctions)]. *)
Definition chooseInterfaces (e : element) (p : t) : bool * bool :=
  let structureFunctions :=
    QString.containsCI (attribute e "structureInterface") "true" in
  let parameterFunctions :=
    QString.containsCI (attribute e "parameterInterface") "true" in
  if Z.of_nat (length (encodables p)) <=? 0 then (false, true)
  else if negb structureFunctions && negb parameterFunctions then
    if Z.of_nat (length (encodables p)) <=? 1
    then (structureFunctions, true)
    else (true, parameterFunctions)
  else (structureFunctions, parameterFunctions).

(** The functions written for the chosen interfaces (lines 188-203). *)
Definition interfaceFunctions (e : element) (p : t) : Files :=
  let '(structureFunctions, parameterFunctions) := chooseInterfaces e p in
  (if structureFunctions then
     if 0 <? Z.of_nat (length (encodables p))
     then createStructurePacketFunctions p else nothing
   else nothing)
  >> (if parameterFunctions then createPacketFunctions p else nothing).

(** The top of the header (lines 72-136). *)
Definition headerTop (headerAppending : bool) (e : element) (p : t) : Files :=
  let moduleName :=
    if QString.isEmpty (attribute e "file")
    then prefix p +:+ name p +:+ "Packet" else attribute e "file" in
  toHeader [ setModuleName moduleName ]
  >> toSource [ setModuleName moduleName ]
  >> toHeader [ prepareToAppend ]
  >> toSource [ prepareToAppend ]
  >> toHeader
       ((if negb headerAppending then
           [ write ("/*!" +:+ LF);
             write (" * \file" +:+ LF);
             write (" * \brief " +:+ fileName moduleName
                    +:+ " defines the interface for the " +:+ name p
                    +:+ " packet of the " +:+ protoName p
                    +:+ " protocol stack" +:+ LF) ]
           ++ (if negb (QString.isEmpty (comment p)) then
                 [ write (" *" +:+ LF);
                   write (outputLongComment " *" (comment p) +:+ LF) ]
               else [])
           ++ [ write (" */" +:+ LF);
                makeLineSeparator;
                writeIncludeDirective (protoName p +:+ "Protocol.h") ]
         else [ makeLineSeparator ])
        ++ outputIncludes e
        ++ map (fun c => writeIncludeDirective (getIncludeDirective c))
             (encodables p)
        ++ [ makeLineSeparator ]
        ++ flat_map
             (fun en => [ makeLineSeparator; write (EnumCreator.output en) ])
             (enumList p)
        ++ [ makeLineSeparator ]).

(** The children of the element that [generateEncodable] made an
    encodable of. *)
Definition encodableChildren (e : element) : list Encodable.t :=
  flat_map (fun made => match made with Some c => [c] | None => [] end)
    (generateEncodable e).

(** The packet object once [ProtocolStructure::parse] has returned and
    [array] and [dependsOn] have been rejected: the object the functions
    are generated from. *)
Definition structureOf (protocolName protocolPrefix : string)
    (supported : ProtocolSupport) (bigendian : bool) (e : element) : t :=
  fst (rejectArrayAndDependsOn
         (fst (ProtocolStructure_parse protocolName protocolPrefix
                 supported bigendian e))).

(** [ProtocolPacket::parse]: the packet object at the end, the calls made
    on the two files, and the lines sent to [std::cout].
    [headerAppending] and [sourceAppending] are what [isAppending]
    answers after [prepareToAppend]. *)
Definition parse (protocolName protocolPrefix : string)
    (supported : ProtocolSupport) (bigendian : bool)
    (headerAppending sourceAppending : bool) (e : element)
  : t * Files * list string :=
  let '(p, out1) :=
    ProtocolStructure_parse protocolName protocolPrefix supported
      bigendian e in
  let '(p, out2) := rejectArrayAndDependsOn p in
  let '(structureFunctions, _) := chooseInterfaces e p in
  let files :=
    headerTop headerAppending e p
    >> toHeader [ write (getStructureDeclaration p structureFunctions);
                  makeLineSeparator ]
    >> toSource
         (if negb sourceAppending then
            [ makeLineSeparator ]
            ++ (if specialFloat (support p)
                then [ writeIncludeDirective "floatspecial.h" ] else [])
            ++ (if bitfield (support p)
                then [ writeIncludeDirective "bitfieldspecial.h" ] else [])
            ++ [ writeIncludeDirective "fielddecode.h";
                 writeIncludeDirective "fieldencode.h";
                 writeIncludeDirective "scaleddecode.h";
                 writeIncludeDirective "scaledencode.h" ]
          else [])
    >> createSubStructureFunctions p
    >> interfaceFunctions e p in
  let '(p', utility) := createUtilityFunctions e p in
  (p',
   files >> utility
   >> toHeader [ makeLineSeparator; flush ]
   >> toSource [ flush ]
   >> toHeader [ clear ]
   >> toSource [ clear ],
   out1 ++ out2).

End Generator.

End ProtocolPacket.

(* ================================================================== *)
(** * main.cpp *)
(* ================================================================== *)

Module Main.

(** What [main] asks of the world: whether [QFile::open] succeeds on a
    file name, whether [QDomDocument::setContent] accepts the content of
    that file, and what [ProtocolParser::parse] returns for it (the parser
    is not among the sources). *)
Record world := mkWorld {
  open : string -> bool;
  setContent : string -> bool;
  parserParse : string -> bool -> bool -> bool -> bool
}.

(** What [main] does to the world.  [runParser] is the call of
    [ProtocolParser::parse], the only place where output files are
    written. *)
Inductive action :=
| cout (line : string)
| mkpath (path : string)
| setCurrent (path : string)
| runParser (filename : string) (nodoxygen nomarkdown nohelperfiles : bool)
| close (filename : string).

(** The local variables the argument loop updates. *)
Record options := mkOptions {
  nodoxygen : bool;
  nomarkdown : bool;
  nohelperfiles : bool;
  filename : string;
  path : string
}.

(** The body of [for(int i = 1; i < arguments.size(); i++)]. *)
Definition argument (o : options) (arg : string) : options :=
  if QString.containsCI arg "-no-doxygen" then
    {| nodoxygen := true; nomarkdown := nomarkdown o;
       nohelperfiles := nohelperfiles o; filename := filename o;
       path := path o |}
  else if QString.containsCI arg "-no-markdown" then
    {| nodoxygen := nodoxygen o; nomarkdown := true;
       nohelperfiles := nohelperfiles o; filename := filename o;
       path := path o |}
  else if QString.containsCI arg "-no-helper-files" then
    {| nodoxygen := nodoxygen o; nomarkdown := nomarkdown o;
       nohelperfiles := true; filename := filename o; path := path o |}
  else if QString.endsWith arg ".xml" then
    {| nodoxygen := nodoxygen o; nomarkdown := nomarkdown o;
       nohelperfiles := nohelperfiles o; filename := arg; path := path o |}
  else if negb (String.eqb arg (filename o)) then
    {| nodoxygen := nodoxygen o; nomarkdown := nomarkdown o;
       nohelperfiles := nohelperfiles o; filename := filename o;
       path := arg |}
  else o.

Definition readArguments (arguments : list string) : options :=
  fold_left argument (drop 1 arguments)
    {| nodoxygen := false; nomarkdown := false; nohelperfiles := false;
       filename := nth 1 arguments EmptyString; path := EmptyString |}.

(** [main]: the value returned and what was done, in order. *)
Definition main (w : world) (arguments : list string) : Z * list action :=
  let Return := 1 in
  if Z.of_nat (length arguments) <=? 1 then
    (0, [ cout "Protocol generator usage:";
          cout "ProtoGen input.xml [outputpath] [-no-doxygen] [-no-markdown] [-no-helper-files]" ])
  else
    let o := readArguments arguments in
    if negb (QString.isEmpty (filename o)) then
      if open w (filename o) then
        if setContent w (filename o) then
          let directory :=
            if negb (QString.isEmpty (path o))
            then [ mkpath (path o); setCurrent (path o) ] else [] in
          let Return :=
            if parserParse w (filename o) (nodoxygen o) (nomarkdown o)
                 (nohelperfiles o)
            then 1 else Return in
          (Return,
           directory
           ++ [ runParser (filename o) (nodoxygen o) (nomarkdown o)
                  (nohelperfiles o);
                close (filename o) ])
        else
          (0, [ cout ("failed to validate xml from file: " +:+ filename o);
                close (filename o) ])
      else
        (0, [ cout ("failed to open protocol file: " +:+ filename o) ])
    else
      (0, [ cout "must provide a protocol file." ]).

(** Did [main] do anything but print? *)
Definition onlyPrints (l : list action) : bool :=
  forallb (fun a => match a with
                    | cout _ | close _ => true
                    | _ => false
                    end) l.

End Main.

(* ================================================================== *)
(** * What [parseChildren] maintains *)
(* ================================================================== *)

Module Sweep.

Import Encodable ProtocolStructure.

(** What the sweep maintains on the encoded children seen so far: a
    bitfield followed by a bitfield is no terminator and hands over its
    ending bit count; a bitfield followed by something else, or by nothing
    yet, is a terminator. *)
Definition linked (E : list Encodable.t) : Prop :=
  (forall k a b, E !! k = Some a -> E !! S k = Some b ->
     isBitfield a = true ->
     if isBitfield b
     then getTerminatesBitfield a = false /\
          getStartingBitCount b = getEndingBitCount a
     else getTerminatesBitfield a = true) /\
  (forall a, last E = Some a -> isBitfield a = true ->
     getTerminatesBitfield a = true).

(** [prevEncodable] points at the last encoded child. *)
Definition pointsAtLast (l : list Encodable.t) (p : option nat) : Prop :=
  match p with
  | None => encodedOnly l = []
  | Some i => exists l1 q l2,
      l = l1 ++ q :: l2 /\ length l1 = i /\
      isNotEncoded q = false /\ encodedOnly l2 = []
  end.

(** What the reference checks can see of an encodable; no setter that
    [parseChildren] applies to an earlier sibling changes it. *)
Definition core (e : Encodable.t)
  : string * bool * bool * bool * bool * string * string :=
  (name e, isPrimitive e, isArray e, isNotEncoded e, isNotInMemory e,
   variableArray e, dependsOn e).

(** [accepts], on what is visible. *)
Definition acceptsCore (wanted : string)
    (c : string * bool * bool * bool * bool * string * string) : bool :=
  let '(nm, prim, arr, notEnc, notMem, _, _) := c in
  negb (notEnc || notMem) && negb (negb prim && negb arr)
  && String.eqb nm wanted.

(** Every encoded entry that still names a length (or dependsOn) variable
    has an acceptable entry before it. *)
Definition referencesResolved
    (V : list (string * bool * bool * bool * bool * string * string)) : Prop :=
  forall j nm prim arr notMem va dep,
    V !! j = Some (nm, prim, arr, false, notMem, va, dep) ->
    (va <> EmptyString ->
       exists i u, (i < j)%nat /\ V !! i = Some u /\ acceptsCore va u = true) /\
    (dep <> EmptyString ->
       exists i u, (i < j)%nat /\ V !! i = Some u /\ acceptsCore dep u = true).

(** For the defaults: is the child an encoded primitive, and has it a
    default value. *)
Definition defaultView (e : Encodable.t) : bool * bool :=
  (negb (isNotEncoded e) && isPrimitive e, isDefault e).

(** Among the encoded primitives, a default is followed by defaults only;
    and the [defaults] flag is off only when none of them has a default. *)
Definition defaultsTrail (V : list (bool * bool)) (flag : bool) : Prop :=
  (flag = false -> forall i d, V !! i = Some (true, d) -> d = false) /\
  (forall i j d, (i < j)%nat ->
     V !! i = Some (true, true) -> V !! j = Some (true, d) -> d = true).

(** The default-valued children are a suffix of the children: the list
    splits into children without default followed by children with one. *)
Definition defaultsAreSuffix (l : list Encodable.t) : Prop :=
  exists pre suf,
    l = pre ++ suf /\
    Forall (fun e => isDefault e = false) pre /\
    Forall (fun e => isDefault e = true) suf.

(** While the [defaults] flag is on, some encoded primitive has a default. *)
Definition defaultsOn (V : list (bool * bool)) (flag : bool) : Prop :=
  flag = true -> exists i, V !! i = Some (true, true).

End Sweep.

(** Does any text written to the file mention [word]? *)
Definition mentions (word : string) (l : list ProtocolPacket.call) : bool :=
  existsb
    (fun c => match c with
              | ProtocolPacket.write text => QString.contains text word
              | _ => false
              end) l.

(** Sample inputs. *)
Module Samples.

(** [<Enum><Value name="A"/><Value name="B"/><Value name="C"/></Enum>] *)
Definition enumABC : EnumCreator.t :=
  EnumCreator.parsed "Letters" ""
    [("A", "", ""); ("B", "", ""); ("C", "", "")].

(** [<Enum><Value name="A"/><Value name="B" value="SOMEWHERE"/>
    <Value name="C"/></Enum>] *)
Definition enumSomewhere : EnumCreator.t :=
  EnumCreator.parsed "Places" ""
    [("A", "", ""); ("B", "SOMEWHERE", ""); ("C", "", "")].

(** [A = 5], [B = FOO], then eight values [C] to [J] without a value. *)
Definition enumAfterSymbol : EnumCreator.t :=
  EnumCreator.parsed "Offsets" ""
    [("A", "5", ""); ("B", "FOO", ""); ("C", "", ""); ("D", "", "");
     ("E", "", ""); ("F", "", ""); ("G", "", ""); ("H", "", "");
     ("I", "", ""); ("J", "", "")].

(** [A = FOO], then [B] and [C] without a value. *)
Definition enumSymbolFirst : EnumCreator.t :=
  EnumCreator.parsed "Relative" ""
    [("A", "FOO", ""); ("B", "", ""); ("C", "", "")].

(** Values in the three notations, a symbol, and values without text. *)
Definition enumNotations : EnumCreator.t :=
  EnumCreator.parsed "Notations" ""
    [("A", "0x10", ""); ("B", "", ""); ("C", "0b11", ""); ("D", " 7 ", "");
     ("E", "FOO", ""); ("F", "", "")].

(** Encodables as [generateEncodable] makes them of [<Data>] and
    [<Structure>] tags. *)
Definition plain : Encodable.field :=
  {| Encodable.defaultValue := ""; Encodable.constantValue := "";
     Encodable.notEncoded := false; Encodable.notInMemory := false;
     Encodable.bitfieldBits := None; Encodable.startingBitCount := 0;
     Encodable.terminatesBitfield := false |}.

Definition bits (n : Z) : Encodable.field :=
  {| Encodable.defaultValue := ""; Encodable.constantValue := "";
     Encodable.notEncoded := false; Encodable.notInMemory := false;
     Encodable.bitfieldBits := Some n; Encodable.startingBitCount := 0;
     Encodable.terminatesBitfield := false |}.

Definition defaulted (v : string) : Encodable.field :=
  {| Encodable.defaultValue := v; Encodable.constantValue := "";
     Encodable.notEncoded := false; Encodable.notInMemory := false;
     Encodable.bitfieldBits := None; Encodable.startingBitCount := 0;
     Encodable.terminatesBitfield := false |}.

Definition bytes (n : string) : Encodable.EncodedLength :=
  {| Encodable.minEncodedLength := n; Encodable.maxEncodedLength := n;
     Encodable.nonDefaultEncodedLength := n |}.

(** [<Data name=nm .../>] *)
Definition data (nm : string) (f : Encodable.field) : Encodable.t :=
  {| Encodable.name := nm; Encodable.typeName := "uint32_t";
     Encodable.array := ""; Encodable.variableArray := "";
     Encodable.dependsOn := ""; Encodable.comment := "";
     Encodable.encodedLength := bytes "4";
     Encodable.primitive := Some f |}.

(** [<Data name=nm array=arr variableArray=var .../>] *)
Definition dataArray (nm arr var : string) (f : Encodable.field)
  : Encodable.t :=
  {| Encodable.name := nm; Encodable.typeName := "uint32_t";
     Encodable.array := arr; Encodable.variableArray := var;
     Encodable.dependsOn := ""; Encodable.comment := "";
     Encodable.encodedLength := bytes "4";
     Encodable.primitive := Some f |}.

(** [<Structure name=nm array=arr> ... </Structure>] *)
Definition structure (nm arr : string) : Encodable.t :=
  {| Encodable.name := nm; Encodable.typeName := nm +:+ "_t";
     Encodable.array := arr; Encodable.variableArray := "";
     Encodable.dependsOn := ""; Encodable.comment := "";
     Encodable.encodedLength := bytes "8";
     Encodable.primitive := None |}.

(** Three consecutive bitfields of 3, 5 and 8 bits. *)
Definition threeBitfields : list (option Encodable.t) :=
  [Some (data "a" (bits 3)); Some (data "b" (bits 5));
   Some (data "c" (bits 8))].

(** A default-valued field followed by a nested structure. *)
Definition defaultThenStructure : list (option Encodable.t) :=
  [Some (data "d" (defaulted "0")); Some (structure "s" "")].

(** An array of structures named [n], then a field array whose
    [variableArray] is [n]. *)
Definition lengthFromStructureArray : list (option Encodable.t) :=
  [Some (structure "n" "3"); Some (dataArray "payload" "16" "n" plain)].

(** A structure that is no array named [n], then the same field array. *)
Definition lengthFromStructure : list (option Encodable.t) :=
  [Some (structure "n" ""); Some (dataArray "payload" "16" "n" plain)].

(** A default-valued field followed by a plain field. *)
Definition defaultThenPlain : list (option Encodable.t) :=
  [Some (data "d" (defaulted "0")); Some (data "x" plain)].

(** Stand-ins for the texts of the children and for the other
    collaborators, to run the generator on examples. *)
#[local] Instance texts : ProtocolPacket.Collaborators :=
  {| ProtocolPacket.outputLongComment := fun pre c => pre +:+ " " +:+ c;
     ProtocolPacket.fileName := fun m => m +:+ ".h";
     ProtocolPacket.addToLength := fun a b => b;
     ProtocolPacket.addToLengthArray := fun a b _ _ _ => b;
     ProtocolPacket.getIncludeDirective := fun _ => "";
     ProtocolPacket.getStructureDeclaration := fun _ _ => "";
     ProtocolPacket.getPrototypeEncodeString := fun _ _ => "";
     ProtocolPacket.getPrototypeDecodeString := fun _ _ => "";
     ProtocolPacket.getEncodeString :=
       fun e _ bitcount _ =>
         ("    encode " +:+ Encodable.name e +:+ ";" +:+ LF, bitcount);
     ProtocolPacket.getDecodeString :=
       fun e _ bitcount _ _ =>
         ("    decode " +:+ Encodable.name e +:+ ";" +:+ LF, bitcount);
     ProtocolPacket.getSetToDefaultsString :=
       fun e _ =>
         if Encodable.isDefault e
         then "    default " +:+ Encodable.name e +:+ ";" +:+ LF else "";
     ProtocolPacket.getEncodeParameterComment := fun _ => "";
     ProtocolPacket.getDecodeParameterComment := fun _ => "";
     ProtocolPacket.getEncodeSignature :=
       fun e => ", uint32_t " +:+ Encodable.name e;
     ProtocolPacket.getDecodeSignature :=
       fun e => ", uint32_t* " +:+ Encodable.name e |}.

Definition attributes (l : list (string * string)) (key : string) : string :=
  match list_find (fun kv => fst kv = key) l with
  | Some (_, kv) => snd kv
  | None => ""
  end.

(** [<Packet name="Ping" ID="0x01"/>] *)
Definition ping : ProtocolPacket.element :=
  {| ProtocolPacket.attribute := attributes [("name", "Ping"); ("ID", "0x01")];
     ProtocolPacket.getComment := "";
     ProtocolPacket.parseEnumeration := [];
     ProtocolPacket.generateEncodable := [];
     ProtocolPacket.outputIncludes := [] |}.

(** A packet with three 32-bit fields [a], [b], [c], the third with
    [default="0"]. *)
Definition trailing : ProtocolPacket.element :=
  {| ProtocolPacket.attribute := attributes [("name", "Trail"); ("ID", "7")];
     ProtocolPacket.getComment := "";
     ProtocolPacket.parseEnumeration := [];
     ProtocolPacket.generateEncodable :=
       [Some (data "a" plain); Some (data "b" plain);
        Some (data "c" (defaulted "0"))];
     ProtocolPacket.outputIncludes := [] |}.

(** [<Packet name="Echo" structureInterface="true" parameterInterface="true">
    <Data name="n" .../></Packet>] *)
Definition echoBoth : ProtocolPacket.element :=
  {| ProtocolPacket.attribute :=
       attributes [("name", "Echo"); ("structureInterface", "true");
                   ("parameterInterface", "true")];
     ProtocolPacket.getComment := "";
     ProtocolPacket.parseEnumeration := [];
     ProtocolPacket.generateEncodable := [Some (data "n" plain)];
     ProtocolPacket.outputIncludes := [] |}.


(** Two bitfields with a field between them that is not encoded. *)
Definition bitfieldsAroundUnencoded : list (option Encodable.t) :=
  [ Some (data "a" (bits 3));
    Some (data "scratch"
            {| Encodable.defaultValue := ""; Encodable.constantValue := "";
               Encodable.notEncoded := true; Encodable.notInMemory := false;
               Encodable.bitfieldBits := None;
               Encodable.startingBitCount := 0;
               Encodable.terminatesBitfield := false |});
    Some (data "b" (bits 5)) ].

(** A plain field, a default-valued field, and a plain field again. *)
Definition plainDefaultPlain : list (option Encodable.t) :=
  [Some (data "x" plain); Some (data "d" (defaulted "0"));
   Some (data "y" plain)].

Definition noSupport : ProtocolPacket.ProtocolSupport :=
  {| ProtocolPacket.specialFloat := false; ProtocolPacket.bitfield := false |}.

(** The packet object [parse] works on once the structure is read. *)
Definition packetOf (e : ProtocolPacket.element) : ProtocolPacket.t :=
  fst (ProtocolPacket.rejectArrayAndDependsOn
         (fst (ProtocolPacket.ProtocolStructure_parse "Demo" "" noSupport
                 true e))).

(** A world in which every file opens and is well-formed XML, and the
    parser reports failure. *)
Definition parserFails : Main.world :=
  {| Main.open := fun _ => true;
     Main.setContent := fun _ => true;
     Main.parserParse := fun _ _ _ _ => false |}.

End Samples.

(* ================================================================== *)
(** * enumcreator.cpp: the declaration and the documentation table *)
(* ================================================================== *)

Module EnumCreatorOutput.

(** [n] rounds of a loop that appends [s] once per round. *)
Fixpoint times (n : nat) (s : string) : string :=
  match n with
  | O => EmptyString
  | S n => s +:+ times n s
  end.

(** [QString::length], as the [int] the sources compare and add. *)
Definition length (s : string) : Z := Z.of_nat (String.length s).

(** The loop of [spacedString]: [while(output.length() < spacing)
    output += " ";], for at most [fuel] rounds. *)
Fixpoint spacedLoop (fuel : nat) (output : string) (spacing : Z) : string :=
  match fuel with
  | O => output
  | S fuel =>
      if length output <? spacing
      then spacedLoop fuel (output +:+ " ") spacing
      else output
  end.

(** [spacedString].  Every round makes [output] one character longer, so
    the loop is over after at most [spacing] rounds. *)
Definition spacedString (text : string) (spacing : Z) : string :=
  spacedLoop (Z.to_nat spacing) text spacing.

(** [QString::replace(before, after)] for a non-empty [before]: every
    occurrence, left to right, without overlap.  [skip] counts the
    characters of a match still to be passed over. *)
Fixpoint replaceFrom (before after : string) (skip : nat) (s : string)
  : string :=
  match s with
  | EmptyString => EmptyString
  | String c r =>
      match skip with
      | S k => replaceFrom before after k r
      | O =>
          if String.prefix before s
          then after +:+ replaceFrom before after
                           (String.length before - 1) r
          else String c (replaceFrom before after O r)
      end
  end.

Definition replace (s before after : string) : string :=
  replaceFrom before after O s.

(** One [Value] tag: [field.attribute("name")], [field.attribute("value")]
    and what [ProtocolParser::getComment(field)] returns. *)
Record valueTag := mkValue {
  valueName : string;
  valueValue : string;
  valueComment : string
}.

(** What [parse] reads of the [Enum] element: its two attributes and the
    nodes of [elementsByTagName("Value")], [None] for a node whose
    [toElement()] is null. *)
Record element := mkElement {
  enumName : string;
  enumComment : string;
  valueTags : list (option valueTag)
}.

(** The object after [clear]. *)
Definition cleared : EnumCreator.t :=
  {| EnumCreator.minbitwidth := 0;
     EnumCreator.name := EmptyString;
     EnumCreator.comment := EmptyString;
     EnumCreator.output := EmptyString;
     EnumCreator.nameList := [];
     EnumCreator.commentList := [];
     EnumCreator.valueList := [];
     EnumCreator.numberList := [] |}.

(** What the first loop of [parse] updates: the three list members, and
    the locals [declarationList] and [maxLength]. *)
Record entries := mkEntries {
  nameList : list string;
  valueList : list string;
  commentList : list string;
  declarationList : list string;
  maxLength : Z
}.

(** The body of the loop over the [Value] tags (lines 55-88). *)
Definition entry (st : entries) (tag : option valueTag) : entries :=
  match tag with
  | None => st
  | Some field =>
      if QString.isEmpty (valueName field) then st
      else
        let declaration :=
          ("    " +:+ valueName field)
          +:+ (if negb (QString.isEmpty (valueValue field))
               then " = " +:+ valueValue field else EmptyString) in
        {| nameList := nameList st ++ [valueName field];
           valueList := valueList st ++ [valueValue field];
           commentList := commentList st ++ [valueComment field];
           declarationList := declarationList st ++ [declaration];
           maxLength := if maxLength st <? length declaration
                        then length declaration else maxLength st |}
  end.

(** The body of the loop over the declarations (lines 103-121): the
    declaration, a comma or a space, the padding, the comment.  [None] is
    an [at(i)] outside its list. *)
Definition enumerator (declarationList commentList : list string)
    (maxLength : Z) (output : option string) (i : nat) : option string :=
  output ← output;
  declaration ← declarationList !! i;
  comment ← commentList !! i;
  Some (output +:+ declaration
        +:+ (if Z.of_nat i <? Z.of_nat (List.length declarationList) - 1
             then "," else " ")
        +:+ times (Z.to_nat (maxLength - length declaration)) " "
        +:+ ("//!< " +:+ comment +:+ LF)).

Section Parse.

(** [QString::toUInt] and [ProtocolParser::outputLongComment] are not
    among the sources. *)
Variable toUInt : string -> Z -> option Z.
Variable outputLongComment : string -> string -> string.

(** The comment block on top of the declaration (lines 45-50). *)
Definition topComment (comment : string) : string :=
  if negb (QString.isEmpty comment)
  then ("/*!" +:+ LF) +:+ (outputLongComment " *" comment +:+ LF)
       +:+ (" */" +:+ LF)
  else EmptyString.

(** [EnumCreator::parse]: the object it leaves, whose [output] member is
    the string it returns. *)
Definition parse (e : element) : option EnumCreator.t :=
  if Z.of_nat (List.length (valueTags e)) <=? 0 then
    Some {| EnumCreator.minbitwidth := 0;
            EnumCreator.name := enumName e;
            EnumCreator.comment := enumComment e;
            EnumCreator.output := EmptyString;
            EnumCreator.nameList := [];
            EnumCreator.commentList := [];
            EnumCreator.valueList := [];
            EnumCreator.numberList := [] |}
  else
    let output := topComment (enumComment e) in
    let st :=
      fold_left entry (valueTags e)
        {| nameList := []; valueList := []; commentList := [];
           declarationList := []; maxLength := 0 |} in
    let en :=
      EnumCreator.computeNumberList toUInt
        {| EnumCreator.minbitwidth := 0;
           EnumCreator.name := enumName e;
           EnumCreator.comment := enumComment e;
           EnumCreator.output := output;
           EnumCreator.nameList := nameList st;
           EnumCreator.commentList := commentList st;
           EnumCreator.valueList := valueList st;
           EnumCreator.numberList := [] |} in
    let maxLength := int32 (maxLength st + 1) in
    let maxLength := int32 (maxLength + (4 - Z.rem maxLength 4)) in
    let output := output +:+ ("typedef enum" +:+ LF) +:+ ("{" +:+ LF) in
    output ←
      fold_left
        (enumerator (declarationList st) (EnumCreator.commentList en)
           maxLength)
        (seq 0 (List.length (declarationList st))) (Some output);
    Some {| EnumCreator.minbitwidth := EnumCreator.minbitwidth en;
            EnumCreator.name := EnumCreator.name en;
            EnumCreator.comment := EnumCreator.comment en;
            EnumCreator.output :=
              output +:+ "}" +:+ EnumCreator.name en +:+ (";" +:+ LF);
            EnumCreator.nameList := EnumCreator.nameList en;
            EnumCreator.commentList := EnumCreator.commentList en;
            EnumCreator.valueList := EnumCreator.valueList en;
            EnumCreator.numberList := EnumCreator.numberList en |}.

End Parse.

(** The three column widths and [codeNameList], as the first loop of
    [getMarkdown] updates them. *)
Record columns := mkColumns {
  codeNameList : list string;
  firstColumnSpacing : Z;
  secondColumnSpacing : Z;
  thirdColumnSpacing : Z
}.

(** The body of that loop (lines 263-289); the inner loop over
    [packetids] sets [link] when one of them equals the name. *)
Definition column (en : EnumCreator.t) (packetids : list string)
    (st : option columns) (i : nat) : option columns :=
  st ← st;
  name ← EnumCreator.nameList en !! i;
  let link := existsb (fun id => String.eqb id name) packetids in
  let codeNameList :=
    codeNameList st ++
    [if link then "[`" +:+ name +:+ "`](#" +:+ name +:+ ")"
     else "`" +:+ name +:+ "`"] in
  codeName ← codeNameList !! i;
  number ← EnumCreator.numberList en !! i;
  comment ← EnumCreator.commentList en !! i;
  Some {| codeNameList := codeNameList;
          firstColumnSpacing :=
            if firstColumnSpacing st <? length codeName
            then length codeName else firstColumnSpacing st;
          secondColumnSpacing :=
            if secondColumnSpacing st <? length number
            then length number else secondColumnSpacing st;
          thirdColumnSpacing :=
            if thirdColumnSpacing st <? length comment
            then length comment else thirdColumnSpacing st |}.

(** One row of the table (lines 323-329). *)
Definition row (en : EnumCreator.t) (st : columns) (i : nat)
  : option string :=
  codeName ← codeNameList st !! i;
  number ← EnumCreator.numberList en !! i;
  comment ← EnumCreator.commentList en !! i;
  Some ("| " +:+ spacedString codeName (firstColumnSpacing st)
        +:+ " | " +:+ spacedString number (secondColumnSpacing st)
        +:+ " | " +:+ spacedString comment (thirdColumnSpacing st)
        +:+ (" |" +:+ LF)).





(** The body of the loop of [replaceEnumerationNameWithValue]. *)
Definition replaceName (en : EnumCreator.t) (text : option string)
    (i : nat) : option string :=
  text ← text;
  name ← EnumCreator.nameList en !! i;
  if QString.isEmpty name then Some text
  else
    value ← EnumCreator.valueList en !! i;
    number ← EnumCreator.numberList en !! i;
    if String.eqb value number then Some text
    else if QString.contains text name
         then Some (replace text name number)
         else Some text.

(** [EnumCreator::replaceEnumerationNameWithValue]. *)
Definition replaceEnumerationNameWithValue (en : EnumCreator.t)
    (text : string) : option string :=
  fold_left (replaceName en)
    (seq 0 (List.length (EnumCreator.nameList en))) (Some text).

End EnumCreatorOutput.

(** What the loops of [EnumCreator::parse] make of the tags. *)
Module EnumLayout.

Import EnumCreatorOutput.

(** The declaration [parse] forms for a name and its value text. *)
Definition declarationOf (name value : string) : string :=
  ("    " +:+ name)
  +:+ (if negb (QString.isEmpty value) then " = " +:+ value else EmptyString).

(** The tags the first loop of [parse] takes up. *)
Definition named (tag : option valueTag) : bool :=
  match tag with
  | Some field => negb (QString.isEmpty (valueName field))
  | None => false
  end.

Definition tagName (tag : option valueTag) : string :=
  match tag with Some field => valueName field | None => EmptyString end.

Definition tagValue (tag : option valueTag) : string :=
  match tag with Some field => valueValue field | None => EmptyString end.

Definition tagComment (tag : option valueTag) : string :=
  match tag with Some field => valueComment field | None => EmptyString end.

(** The line [parse] writes for enumerator [i] of [n], padded to [w]. *)
Definition enumeratorLine (n : nat) (w : Z) (i : nat)
    (declaration comment : string) : string :=
  declaration
  +:+ (if Z.of_nat i <? Z.of_nat n - 1 then "," else " ")
  +:+ times (Z.to_nat (w - length declaration)) " "
  +:+ ("//!< " +:+ comment +:+ LF).

End EnumLayout.

(* ================================================================== *)
(** * protocolstructure.cpp: the declaration of a structure *)
(* ================================================================== *)

Module StructureDeclaration.

Import Encodable.

(** [QString::indexOf(ch, from)] for [from >= 0]: the position of the first
    [ch] at or after [from], or -1. *)
Fixpoint indexOfFrom (ch : ascii) (from : nat) (position : Z) (s : string)
  : Z :=
  match s with
  | EmptyString => -1
  | String c r =>
      match from with
      | S from => indexOfFrom ch from (position + 1) r
      | O => if Ascii.eqb c ch then position
             else indexOfFrom ch O (position + 1) r
      end
  end.

Definition indexOf (s : string) (ch : ascii) (from : nat) : Z :=
  indexOfFrom ch from 0 s.

(** [QString::insert(position, text)] for [position >= 0]: a position
    beyond the end is reached by padding with spaces first. *)
Fixpoint insertAt (position : nat) (text : string) (s : string) : string :=
  match position with
  | O => text +:+ s
  | S position =>
      match s with
      | EmptyString => String " " (insertAt position text EmptyString)
      | String c r => String c (insertAt position text r)
      end
  end.

(** [QString::insert]: nothing is inserted at a negative position. *)
Definition insert (position : Z) (text : string) (s : string) : string :=
  if position <? 0 then s else insertAt (Z.to_nat position) text s.

(** [QString::split("\n")], empty parts kept. *)
Fixpoint parts (s : string) : list string :=
  match s with
  | EmptyString => [EmptyString]
  | String c r =>
      if Ascii.eqb c (ascii_of_nat 10) then EmptyString :: parts r
      else match parts r with
           | part :: more => String c part :: more
           | [] => [String c EmptyString]
           end
  end.

(** [QString::split("\n", QString::SkipEmptyParts)]. *)
Definition split (s : string) : list string :=
  List.filter (fun part => negb (QString.isEmpty part)) (parts s).

(** [ProtocolStructure::getDeclaration]: the line that declares a nested
    structure as a member. *)
Definition getDeclaration (e : Encodable.t) : string :=
  let output := "    " +:+ typeName e +:+ " " +:+ name e in
  let output :=
    if QString.isEmpty (array e) then output +:+ ";"
    else output +:+ ("[" +:+ array e +:+ "];") in
  let output :=
    if negb (QString.isEmpty (comment e))
    then output +:+ (" //!< " +:+ comment e) else output in
  output +:+ LF.

(** The loops that look for the largest index (lines 456-462 and
    473-480). *)
Definition largest (index : string -> Z) (list : list string) : Z :=
  fold_left
    (fun max line => if max <? index line then index line else max) list 0.

(** [for(; index < max; index++) list[i].insert(index, " ");], for at
    most [fuel] rounds. *)
Fixpoint insertSpaces (fuel : nat) (index max : Z) (line : string)
  : string :=
  match fuel with
  | O => line
  | S fuel =>
      if index <? max
      then insertSpaces fuel (index + 1) max (insert index " " line)
      else line
  end.

(** The loops that pad every line (lines 464-470 and 482-488); the loop
    over [index] makes [max - index] rounds. *)
Definition pad (index : string -> Z) (max : Z) (line : string) : string :=
  insertSpaces (Z.to_nat (max - index line)) (index line) max line.

(** [ProtocolStructure::alignStructureData]. *)
Definition alignStructureData (structure : string) : string :=
  let list := split structure in
  let afterType := fun line => indexOf line " " 4 in
  let list := map (pad afterType (largest afterType list)) list in
  let afterName := fun line => indexOf line ";" 0 + 1 in
  let list := map (pad afterName (largest afterName list)) list in
  fold_left (fun output line => output +:+ (line +:+ LF)) list EmptyString.

(** Does the character occur in the string? *)
Fixpoint occurs (ch : ascii) (s : string) : bool :=
  match s with
  | EmptyString => false
  | String c r => Ascii.eqb c ch || occurs ch r
  end.


(** A member declaration as [getDeclaration] lays it out: the type, the
    name with its array brackets, and what follows the semicolon. *)
Record member := mkMember {
  memberType : string;
  memberName : string;
  memberRest : string
}.

Definition declared (m : member) : string :=
  "    " +:+ memberType m +:+ " " +:+ memberName m +:+ ";" +:+ memberRest m.

(** The type is one word, the semicolon after the name is the first one,
    and the declaration is one line. *)
Definition wellFormed (m : member) : bool :=
  negb (occurs " " (memberType m)) && negb (occurs ";" (memberType m))
  && negb (occurs (ascii_of_nat 10) (memberType m))
  && negb (occurs ";" (memberName m))
  && negb (occurs (ascii_of_nat 10) (memberName m))
  && negb (occurs (ascii_of_nat 10) (memberRest m)).

(** The declaration once the names stand in one column, the types taking
    [typeWidth] characters. *)
Definition typeAligned (typeWidth : Z) (m : member) : string :=
  ("    " +:+ memberType m
   +:+ EnumCreatorOutput.times
         (Z.to_nat (typeWidth - EnumCreatorOutput.length (memberType m))) " "
   +:+ " " +:+ memberName m +:+ ";")
  +:+ memberRest m.

(** The declaration in a table whose type column is [typeWidth] and whose
    name column is [nameWidth] characters wide. *)
Definition aligned (typeWidth nameWidth : Z) (m : member) : string :=
  "    " +:+ memberType m
  +:+ EnumCreatorOutput.times
        (Z.to_nat (typeWidth - EnumCreatorOutput.length (memberType m))) " "
  +:+ " " +:+ memberName m +:+ ";"
  +:+ EnumCreatorOutput.times
        (Z.to_nat (nameWidth - EnumCreatorOutput.length (memberName m))) " "
  +:+ memberRest m.

(** The member a nested structure is declared as. *)
Definition memberOf (e : Encodable.t) : member :=
  {| memberType := typeName e;
     memberName :=
       if QString.isEmpty (array e) then name e
       else name e +:+ "[" +:+ array e +:+ "]";
     memberRest :=
       if negb (QString.isEmpty (comment e))
       then " //!< " +:+ comment e else EmptyString |}.

End StructureDeclaration.

(* ================================================================== *)
(** * protocolpacket.cpp: the documentation of a packet *)
(* ================================================================== *)

Module PacketMarkdown.

Import EnumCreatorOutput.

(** The double quote character. *)
Definition quote : string := String (ascii_of_nat 34) EmptyString.

(** The string and the five lists [getDocumentationDetails] is handed by
    reference. *)
Record details := mkDetails {
  startByte : string;
  bytes : list string;
  names : list string;
  encodings : list string;
  repeats : list string;
  comments : list string
}.

(** The lists as [getTopLevelMarkdown] sets them up: the column
    headings. *)
Definition headings : details :=
  {| startByte := "0";
     bytes := ["Bytes"]; names := ["Name"]; encodings := ["[Enc](#Enc)"];
     repeats := ["Repeat"]; comments := ["Description"] |}.

(** [bytes] as the first loop over the table rewrites it, and the five
    column widths. *)
Record widths := mkWidths {
  bytesList : list string;
  byteColumn : Z;
  nameColumn : Z;
  encodingColumn : Z;
  repeatColumn : Z;
  commentColumn : Z
}.

(** The body of the loop that figures out the column widths (lines
    822-847); [None] is an index outside its list. *)
Definition measure (d : details) (st : option widths) (i : nat)
  : option widths :=
  st ← st;
  byte ← bytesList st !! i;
  let byte := replace (replace byte "1*" EmptyString) "*" "&times;" in
  name ← names d !! i;
  encoding ← encodings d !! i;
  repeat ← repeats d !! i;
  comment ← comments d !! i;
  Some {| bytesList := <[i := byte]> (bytesList st);
          byteColumn := if byteColumn st <? length byte
                        then length byte else byteColumn st;
          nameColumn := if nameColumn st <? length name
                        then length name else nameColumn st;
          encodingColumn := if encodingColumn st <? length encoding
                            then length encoding else encodingColumn st;
          repeatColumn := if repeatColumn st <? length repeat
                          then length repeat else repeatColumn st;
          commentColumn := if commentColumn st <? length comment
                           then length comment else commentColumn st |}.

(** What the first loop makes of a byte cell: ["1*"] removed, and ["*"]
    written as the HTML times sign. *)
Definition asWritten (byte : string) : string :=
  replace (replace byte "1*" EmptyString) "*" "&times;".

(** The length of the longest text of a column, 0 for an empty column. *)
Definition longest (column : list string) : Z :=
  fold_right Z.max 0 (map length column).

(** The table header (lines 856-866). *)
Definition tableHeader (d : details) (st : widths) : option string :=
  byte ← bytesList st !! 0%nat;
  name ← names d !! 0%nat;
  encoding ← encodings d !! 0%nat;
  repeat ← repeats d !! 0%nat;
  comment ← comments d !! 0%nat;
  Some ("| " +:+ spacedString byte (byteColumn st)
        +:+ " | " +:+ spacedString name (nameColumn st)
        +:+ " | " +:+ spacedString encoding (encodingColumn st)
        +:+ " | " +:+ spacedString repeat (repeatColumn st)
        +:+ " | " +:+ spacedString comment (commentColumn st)
        +:+ (" |" +:+ LF)).

(** The line under the header (lines 869-890). *)
Definition tableUnderscore (st : widths) : string :=
  "| " +:+ times (Z.to_nat (byteColumn st)) "-"
  +:+ " | " +:+ times (Z.to_nat (nameColumn st)) "-"
  +:+ " | :" +:+ times (Z.to_nat (encodingColumn st - 1 - 1)) "-"
  +:+ ": | :" +:+ times (Z.to_nat (repeatColumn st - 1 - 1)) "-"
  +:+ ": | " +:+ times (Z.to_nat (commentColumn st)) "-"
  +:+ (" |" +:+ LF).

(** One row of the table (lines 895-932); empty encoding and repeat cells
    are merged with their neighbour. *)
Definition tableRow (d : details) (st : widths) (i : nat) : option string :=
  byte ← bytesList st !! i;
  name ← names d !! i;
  encoding ← encodings d !! i;
  repeat ← repeats d !! i;
  comment ← comments d !! i;
  Some ("| " +:+ spacedString byte (byteColumn st)
        +:+ " | " +:+ spacedString name (nameColumn st)
        +:+ (if QString.isEmpty encoding && QString.isEmpty repeat then
               spacedString EmptyString
                 (int32 (encodingColumn st + repeatColumn st))
               +:+ "     ||| "
             else if QString.isEmpty encoding then
               spacedString encoding (encodingColumn st)
               +:+ "   || "
               +:+ spacedString repeat (repeatColumn st)
               +:+ " | "
             else if QString.isEmpty repeat then
               " | "
               +:+ spacedString encoding (encodingColumn st)
               +:+ spacedString repeat (repeatColumn st)
               +:+ "   || "
             else
               " | "
               +:+ spacedString encoding (encodingColumn st)
               +:+ " | "
               +:+ spacedString repeat (repeatColumn st)
               +:+ " | ")
        +:+ spacedString comment (commentColumn st)
        +:+ (" |" +:+ LF)).

(** The table of [getTopLevelMarkdown] (lines 821-935): the caption, the
    header, the line under it and the rows from index 1 on. *)
Definition encodingTable (packetName : string) (d : details)
  : option string :=
  st ←
    fold_left (measure d) (seq 0 (List.length (names d)))
      (Some {| bytesList := bytes d; byteColumn := 0; nameColumn := 0;
               encodingColumn := 0; repeatColumn := 0;
               commentColumn := 0 |});
  header ← tableHeader d st;
  rows ← mapM (tableRow d st) (seq 1 (List.length (names d) - 1));
  Some (LF +:+ ("[Encoding for packet " +:+ packetName +:+ "]" +:+ LF)
        +:+ header +:+ tableUnderscore st
        +:+ String.concat EmptyString rows +:+ LF).

Section TopLevel.

(** [ProtocolParser::replaceEnumerationNameWithValue],
    [EncodedLength::collapseLengthString], the [getMarkdown] of an
    enumeration as it is called here, and the virtual
    [getDocumentationDetails] of a child (which is handed the outline
    prefix) are not among the sources. *)
Variable replaceEnumerationNameWithValue : string -> string.
Variable collapseLengthString : string -> string.
Variable enumerationMarkdown : EnumCreator.t -> string.
Variable getDocumentationDetails : Encodable.t -> list Z -> details -> details.

Definition lengthText (length : string) : string :=
  replace (replace (collapseLengthString length) "1*" EmptyString)
    "*" "&times;".

(** The loop over the children (lines 807-819): a child that is not
    encoded is passed over and does not count. *)
Definition describe (st : Z * details) (e : Encodable.t) : Z * details :=
  let '(j, d) := st in
  if Encodable.isNotEncoded e then st
  else (int32 (j + 1), getDocumentationDetails e [j] d).

(** [ProtocolPacket::getTopLevelMarkdown]. *)
Definition getTopLevelMarkdown (p : ProtocolPacket.t) (outline : string)
  : option string :=
  let paragraph := 1 in
  let idvalue := replaceEnumerationNameWithValue (ProtocolPacket.id p) in
  let output :=
    ("## " +:+ outline +:+ ") <a name=" +:+ quote +:+ ProtocolPacket.id p
     +:+ quote +:+ "></a>" +:+ ProtocolPacket.name p +:+ LF)
    +:+ LF
    +:+ (if negb (QString.isEmpty (ProtocolPacket.comment p))
         then ProtocolPacket.comment p +:+ LF +:+ LF else EmptyString)
    +:+ (if String.eqb (ProtocolPacket.id p) idvalue
         then "- packet identifier: `" +:+ ProtocolPacket.id p +:+ "`" +:+ LF
         else "- packet identifier: `" +:+ ProtocolPacket.id p +:+ "` : "
              +:+ idvalue +:+ LF)
    +:+ (if String.eqb
              (Encodable.minEncodedLength (ProtocolPacket.encodedLength p))
              (Encodable.maxEncodedLength (ProtocolPacket.encodedLength p))
         then "- data length: "
              +:+ lengthText (Encodable.minEncodedLength
                                (ProtocolPacket.encodedLength p)) +:+ LF
         else ("- minimum data length: "
               +:+ lengthText (Encodable.minEncodedLength
                                 (ProtocolPacket.encodedLength p)) +:+ LF)
              +:+ ("- maximum data length: "
                   +:+ lengthText (Encodable.maxEncodedLength
                                     (ProtocolPacket.encodedLength p))
                   +:+ LF)) in
  let '(output, paragraph) :=
    if 0 <? Z.of_nat (List.length (ProtocolPacket.enumList p)) then
      (output +:+ LF
       +:+ ("### " +:+ outline +:+ "." +:+ QString.setNum paragraph +:+ ") "
            +:+ ProtocolPacket.name p +:+ " enumerations" +:+ LF)
       +:+ LF
       +:+ String.concat EmptyString
             (map (fun en => enumerationMarkdown en +:+ LF)
                (ProtocolPacket.enumList p))
       +:+ LF,
       int32 (paragraph + 1))
    else (output, paragraph) in
  if 0 <? Z.of_nat (List.length (ProtocolPacket.encodables p)) then
    table ←
      encodingTable (ProtocolPacket.name p)
        (snd (fold_left describe (ProtocolPacket.encodables p)
                (0, headings)));
    Some (output +:+ LF
          +:+ ("### " +:+ outline +:+ "." +:+ QString.setNum paragraph
               +:+ ") " +:+ ProtocolPacket.name p +:+ " encoding" +:+ LF)
          +:+ LF +:+ table)
  else Some output.

End TopLevel.

End PacketMarkdown.

(* ================================================================== *)
(** * What [parseChildren] leaves of a child *)
(* ================================================================== *)

Module Untouched.

Import Encodable ProtocolStructure.

(** Everything of an encodable but its [variableArray], its [dependsOn],
    its default value and its two bitfield marks. *)
Definition identity (e : Encodable.t)
  : string * string * string * string * EncodedLength
    * option (string * bool * bool * option Z) :=
  (name e, typeName e, array e, comment e, encodedLength e,
   option_map
     (fun f => (constantValue f, notEncoded f, notInMemory f, bitfieldBits f))
     (primitive e)).

(** The children [generateEncodable] made an encodable of. *)
Definition made (children : list (option Encodable.t)) : list Encodable.t :=
  flat_map (fun child => match child with Some e => [e] | None => [] end)
    children.

(** What the two aggregate flags look at. *)
Definition flagView (e : Encodable.t) : bool * bool * bool :=
  (isNotEncoded e, isBitfield e, isArray e).

Definition anyBitfield (V : list (bool * bool * bool)) : bool :=
  existsb (fun v => negb (fst (fst v)) && snd (fst v)) V.

Definition anyArray (V : list (bool * bool * bool)) : bool :=
  existsb (fun v => negb (fst (fst v)) && snd v) V.

(** What the rule on bitfields and [dependsOn] looks at. *)
Definition dependsView (e : Encodable.t) : bool * bool * string :=
  (isNotEncoded e, isBitfield e, dependsOn e).

Definition independent (v : bool * bool * string) : Prop :=
  fst (fst v) = false -> snd (fst v) = true -> snd v = EmptyString.

End Untouched.

(** What a module is told to include. *)
Module Includes.

Import ProtocolPacket.

(** The files named by the [writeIncludeDirective] calls, in order. *)
Definition includes (l : list call) : list string :=
  flat_map
    (fun c => match c with writeIncludeDirective file => [file] | _ => [] end)
    l.

(** [sub] stands in [l], its elements next to each other. *)
Definition consecutive {A : Type} (sub l : list A) : Prop :=
  exists before after, l = before ++ sub ++ after.

End Includes.

(** How [main] reads an argument. *)
Module Arguments.

(** One of the three switches, in any case and anywhere in the argument. *)
Definition isSwitch (arg : string) : bool :=
  QString.containsCI arg "-no-doxygen"
  || QString.containsCI arg "-no-markdown"
  || QString.containsCI arg "-no-helper-files".

(** An argument taken as the input file. *)
Definition isInput (arg : string) : bool :=
  negb (isSwitch arg) && QString.endsWith arg ".xml".

End Arguments.

(** More sample inputs. *)
Module MoreSamples.

(** A stand-in for [ProtocolParser::outputLongComment]. *)
Definition longComment (prefix text : string) : string :=
  prefix +:+ " " +:+ text.

Definition colours : EnumCreatorOutput.element :=
  {| EnumCreatorOutput.enumName := "Colour";
     EnumCreatorOutput.enumComment := "The colours of the lamp";
     EnumCreatorOutput.valueTags :=
       [ Some (EnumCreatorOutput.mkValue "RED" "" "red light");
         Some (EnumCreatorOutput.mkValue "" "7" "a tag without name");
         Some (EnumCreatorOutput.mkValue "GREEN" "0x10" "green light");
         None;
         Some (EnumCreatorOutput.mkValue "BLUE" "" "") ] |}.

(** The same enumeration without the tags [parse] passes over. *)
Definition coloursNamed : EnumCreatorOutput.element :=
  {| EnumCreatorOutput.enumName := "Colour";
     EnumCreatorOutput.enumComment := "The colours of the lamp";
     EnumCreatorOutput.valueTags :=
       [ Some (EnumCreatorOutput.mkValue "RED" "" "red light");
         Some (EnumCreatorOutput.mkValue "GREEN" "0x10" "green light");
         Some (EnumCreatorOutput.mkValue "BLUE" "" "") ] |}.

(** The enumeration object [parse] makes of [colours], without the
    declaration text. *)
Definition coloursParsed : EnumCreator.t :=
  {| EnumCreator.minbitwidth := 5;
     EnumCreator.name := "Colour";
     EnumCreator.comment := "The colours of the lamp";
     EnumCreator.output := EmptyString;
     EnumCreator.nameList := ["RED"; "GREEN"; "BLUE"];
     EnumCreator.commentList := ["red light"; "green light"; ""];
     EnumCreator.valueList := [""; "0x10"; ""];
     EnumCreator.numberList := ["0"; "16"; "17"] |}.

(** [<Structure name="position" comment="where it is">] and
    [<Structure name="waypoints" array="N3D">]. *)
Definition position : Encodable.t :=
  {| Encodable.name := "position"; Encodable.typeName := "position_t";
     Encodable.array := ""; Encodable.variableArray := "";
     Encodable.dependsOn := ""; Encodable.comment := "where it is";
     Encodable.encodedLength := Samples.bytes "12";
     Encodable.primitive := None |}.

Definition waypoints : Encodable.t :=
  {| Encodable.name := "waypoints"; Encodable.typeName := "wp_t";
     Encodable.array := "N3D"; Encodable.variableArray := "";
     Encodable.dependsOn := ""; Encodable.comment := "";
     Encodable.encodedLength := Samples.bytes "12*N3D";
     Encodable.primitive := None |}.

(** [<Data name="mode" encodedType="bitfield3" dependsOn="flag"/>] after
    [<Data name="flag"/>]. *)
Definition dependentBits : Encodable.t :=
  {| Encodable.name := "mode"; Encodable.typeName := "uint32_t";
     Encodable.array := ""; Encodable.variableArray := "";
     Encodable.dependsOn := "flag"; Encodable.comment := "";
     Encodable.encodedLength := Samples.bytes "1";
     Encodable.primitive := Some (Samples.bits 3) |}.

Definition flagThenBits : list (option Encodable.t) :=
  [Some (Samples.data "flag" Samples.plain); Some dependentBits].

(** A length field and the array it gives the length of. *)
Definition countThenPayload : list (option Encodable.t) :=
  [Some (Samples.data "count" Samples.plain);
   Some (Samples.dataArray "payload" "16" "count" Samples.plain)].

(** [<Packet name="Pose" structureInterface="true"><Data name="x"/>
    </Packet>] *)
Definition structureOnly : ProtocolPacket.element :=
  {| ProtocolPacket.attribute :=
       Samples.attributes [("name", "Pose"); ("structureInterface", "true")];
     ProtocolPacket.getComment := "";
     ProtocolPacket.parseEnumeration := [];
     ProtocolPacket.generateEncodable := [Some (Samples.data "x" Samples.plain)];
     ProtocolPacket.outputIncludes := [] |}.

(** The five lists after two fields have been described. *)
Definition tableOfTwo : PacketMarkdown.details :=
  {| PacketMarkdown.startByte := "5";
     PacketMarkdown.bytes := ["Bytes"; "0"; "1...1*4"];
     PacketMarkdown.names := ["Name"; "1)flag"; "2)count"];
     PacketMarkdown.encodings := ["[Enc](#Enc)"; "U8"; ""];
     PacketMarkdown.repeats := ["Repeat"; ""; ""];
     PacketMarkdown.comments := ["Description"; "a flag"; "how many"] |}.

End MoreSamples.

(* ================================================================== *)
(** * Properties *)
(* ================================================================== *)

Lemma maximum_max (d c : Z) (l : list Z) :
  ResolverSpec.maximum (Z.max d c) l = Z.max c (ResolverSpec.maximum d l).
Proof.
  unfold ResolverSpec.maximum.
  induction l as [|x l IH]; cbn; [lia | rewrite IH; lia].
Qed.

Lemma maximum_lower (d : Z) (l : list Z) : d <= ResolverSpec.maximum d l.
Proof.
  unfold ResolverSpec.maximum. induction l as [|x l IH]; cbn; lia.
Qed.

Lemma ltb_max (a b : Z) : (if a <? b then b else a) = Z.max a b.
Proof. destruct (Z.ltb_spec a b); lia. Qed.

Section ResolverFacts.

Variable toUInt : string -> Z -> option Z.

Import EnumCreator.

(** The conversion of the code selects the base as the specification says. *)
Lemma numeral_convert (s : string) :
  ResolverSpec.numeral toUInt s = convert toUInt s.
Proof. reflexivity. Qed.

(** The loop of [computeNumberList] and the walk of the specification
    produce the same texts, and [maxValue] is the largest counter the walk
    reaches, or its initial value if that is larger. *)
Lemma iteration_walk (l : list string) (st : loop) :
  let w := ResolverSpec.walk (value st) (baseString st)
             (map (ResolverSpec.classify toUInt) l) in
  let st' := fold_left (iteration toUInt) l st in
  numbers st' = numbers st ++ map snd w /\
  maxValue st' =
    ResolverSpec.maximum (maxValue st) (map (fun x => fst (fst x)) w).
Proof.
  revert st. induction l as [|entry l IH]; intros st; cbn zeta.
  - cbn. split; [by rewrite app_nil_r | done].
  - cbn [fold_left map]. destruct (IH (iteration toUInt st entry)) as [IHn IHm].
    cbn zeta in IHn, IHm. rewrite IHn, IHm. clear IH IHn IHm.
    unfold iteration, ResolverSpec.classify.
    change (ResolverSpec.numeral toUInt (QString.trimmed entry))
      with (convert toUInt (QString.trimmed entry)).
    destruct (QString.isEmpty (QString.trimmed entry)) eqn:He.
    + cbn. rewrite <- app_assoc, ltb_max, maximum_max. split; [done | reflexivity].
    + destruct (convert toUInt (QString.trimmed entry)) as [u|] eqn:Hc;
        cbn; rewrite <- app_assoc, ltb_max, maximum_max;
        (split; [done | reflexivity]).
Qed.

Lemma computeNumberList_numberList (e : t) :
  numberList (computeNumberList toUInt e) =
    numberList e ++
    ResolverSpec.texts (map (ResolverSpec.classify toUInt) (valueList e)).
Proof.
  unfold computeNumberList, runLoop. cbn [numberList].
  destruct (iteration_walk (valueList e)
    {| maxValue := 1; value := -1; baseString := EmptyString;
       numbers := numberList e |}) as [H _].
  exact H.
Qed.

Lemma computeNumberList_maxValue (e : t) :
  maxValue (runLoop toUInt e) =
    ResolverSpec.maximum 1
      (ResolverSpec.counters (map (ResolverSpec.classify toUInt) (valueList e))).
Proof.
  unfold runLoop.
  destruct (iteration_walk (valueList e)
    {| maxValue := 1; value := -1; baseString := EmptyString;
       numbers := numberList e |}) as [_ H].
  exact H.
Qed.

End ResolverFacts.

(* ------------------------------------------------------------------ *)
(** ** Enumerations: the value resolver and the bit width *)
(* ------------------------------------------------------------------ *)

(** C7.  The resolver goes through the value list from left to right with a
    running counter (initially -1) and a symbolic base (initially none):
    - an entry that is empty (after trimming) increments the counter, keeps
      the base, and yields the counter in decimal, or ["base + counter"]
      when a base is active;
    - an entry that starts with [0x] and converts in base 16, or starts with
      [0b] (and not [0x]) and converts in base 2, or starts with neither and
      converts in base 10, sets the counter to that number (as an [int]),
      clears the base and yields the number in decimal;
    - an entry whose conversion in the base its prefix selects fails becomes
      the base, the counter restarts at 0, and the entry itself is the text;
    the number list is the list of these texts in order.  For the values
    [A, B=SOMEWHERE, C] it is ["0"; "SOMEWHERE"; "SOMEWHERE + 1"].  Whether
    a text converts in a base is decided by Qt's [toUInt]. *)
Theorem resolver_walks_left_to_right (toUInt : string -> Z -> option Z) :
  let step := EnumCreator.iteration toUInt in
  (forall st entry,
     QString.trimmed entry = EmptyString ->
     EnumCreator.value (step st entry) = int32 (EnumCreator.value st + 1) /\
     EnumCreator.baseString (step st entry) = EnumCreator.baseString st /\
     EnumCreator.numbers (step st entry) =
       EnumCreator.numbers st ++
       [if QString.isEmpty (EnumCreator.baseString st)
        then QString.setNum (int32 (EnumCreator.value st + 1))
        else EnumCreator.baseString st +:+ " + " +:+
             QString.setNum (int32 (EnumCreator.value st + 1))]) /\
  (forall st entry n,
     let s := QString.trimmed entry in
     s <> EmptyString ->
     (String.prefix "0x" s = true /\ toUInt s 16 = Some n) \/
     (String.prefix "0x" s = false /\ String.prefix "0b" s = true /\
      toUInt s 2 = Some n) \/
     (String.prefix "0x" s = false /\ String.prefix "0b" s = false /\
      toUInt s 10 = Some n) ->
     EnumCreator.value (step st entry) = int32 n /\
     (0 <= n < 2 ^ 31 -> EnumCreator.value (step st entry) = n) /\
     EnumCreator.baseString (step st entry) = EmptyString /\
     EnumCreator.numbers (step st entry) =
       EnumCreator.numbers st ++ [QString.setNum (int32 n)]) /\
  (forall st entry,
     let s := QString.trimmed entry in
     s <> EmptyString ->
     (String.prefix "0x" s = true /\ toUInt s 16 = None) \/
     (String.prefix "0x" s = false /\ String.prefix "0b" s = true /\
      toUInt s 2 = None) \/
     (String.prefix "0x" s = false /\ String.prefix "0b" s = false /\
      toUInt s 10 = None) ->
     EnumCreator.value (step st entry) = 0 /\
     EnumCreator.baseString (step st entry) = s /\
     EnumCreator.numbers (step st entry) = EnumCreator.numbers st ++ [s]) /\
  (forall e,
     EnumCreator.numberList (EnumCreator.computeNumberList toUInt e) =
       EnumCreator.numberList e ++
       ResolverSpec.texts
         (map (ResolverSpec.classify toUInt) (EnumCreator.valueList e))) /\
  (toUInt "SOMEWHERE" 10 = None ->
     EnumCreator.numberList
       (EnumCreator.computeNumberList toUInt Samples.enumSomewhere) =
       ["0"; "SOMEWHERE"; "SOMEWHERE + 1"]).
Proof.
  cbn zeta. split; [|split; [|split; [|split]]].
  - intros st entry Hblank. unfold EnumCreator.iteration.
    rewrite Hblank. cbn. done.
  - intros st entry n Hne Hcase.
    assert (EnumCreator.convert toUInt (QString.trimmed entry) = Some n)
      as Hconv.
    { unfold EnumCreator.convert, QString.startsWith.
      destruct Hcase as [[-> H]|[(-> & -> & H)|(-> & -> & H)]]; exact H. }
    clear Hcase. unfold EnumCreator.iteration. revert Hne Hconv.
    destruct (QString.trimmed entry); [done|]. intros _ Hconv.
    cbn [QString.isEmpty]. rewrite Hconv. cbn. repeat split.
    intros Hn. unfold int32. rewrite Z.mod_small; lia.
  - intros st entry Hne Hcase.
    assert (EnumCreator.convert toUInt (QString.trimmed entry) = None)
      as Hconv.
    { unfold EnumCreator.convert, QString.startsWith.
      destruct Hcase as [[-> H]|[(-> & -> & H)|(-> & -> & H)]]; exact H. }
    clear Hcase. unfold EnumCreator.iteration. revert Hne Hconv.
    destruct (QString.trimmed entry); [done|]. intros _ Hconv.
    cbn [QString.isEmpty]. rewrite Hconv. cbn. done.
  - apply computeNumberList_numberList.
  - intros Hsym. rewrite computeNumberList_numberList.
    assert (ResolverSpec.classify toUInt "SOMEWHERE"
            = ResolverSpec.Symbol "SOMEWHERE") as Hc.
    { unfold ResolverSpec.classify.
      replace (QString.trimmed "SOMEWHERE") with "SOMEWHERE" by reflexivity.
      replace (ResolverSpec.numeral toUInt "SOMEWHERE")
        with (toUInt "SOMEWHERE" 10) by reflexivity.
      rewrite Hsym. reflexivity. }
    unfold ResolverSpec.texts.
    cbn [Samples.enumSomewhere EnumCreator.parsed EnumCreator.valueList
         EnumCreator.numberList map fst snd].
    rewrite Hc. reflexivity.
Qed.

(** With the numerals read plainly: [0x1F] is 31, [0b101] is 5, [ 12 ] is
    12 (each clearing the base [BASE] and replacing the counter 3),
    [SOMEWHERE] becomes the base, and [A, B=SOMEWHERE, C] resolves as
    said. *)
Lemma resolver_walks_left_to_right_witness :
  let step := EnumCreator.iteration Numeral.toUInt in
  let st := {| EnumCreator.maxValue := 3; EnumCreator.value := 3;
               EnumCreator.baseString := "BASE";
               EnumCreator.numbers := ["BASE + 3"] |} in
  (EnumCreator.value (step st "0x1F") = 31 /\
   EnumCreator.baseString (step st "0x1F") = EmptyString /\
   EnumCreator.numbers (step st "0x1F") = ["BASE + 3"; "31"]) /\
  (EnumCreator.value (step st "0b101") = 5 /\
   EnumCreator.baseString (step st "0b101") = EmptyString /\
   EnumCreator.numbers (step st "0b101") = ["BASE + 3"; "5"]) /\
  (EnumCreator.value (step st " 12 ") = 12 /\
   EnumCreator.baseString (step st " 12 ") = EmptyString /\
   EnumCreator.numbers (step st " 12 ") = ["BASE + 3"; "12"]) /\
  (EnumCreator.value (step st "SOMEWHERE") = 0 /\
   EnumCreator.baseString (step st "SOMEWHERE") = "SOMEWHERE" /\
   EnumCreator.numbers (step st "SOMEWHERE") = ["BASE + 3"; "SOMEWHERE"]) /\
  (EnumCreator.value (step st "  ") = 4 /\
   EnumCreator.baseString (step st "  ") = "BASE" /\
   EnumCreator.numbers (step st "  ") = ["BASE + 3"; "BASE + 4"]) /\
  Numeral.toUInt "SOMEWHERE" 10 = None /\
  EnumCreator.numberList
    (EnumCreator.computeNumberList Numeral.toUInt Samples.enumSomewhere) =
    ["0"; "SOMEWHERE"; "SOMEWHERE + 1"].
Proof.
  cbn zeta.
  destruct (resolver_walks_left_to_right Numeral.toUInt)
    as (Hblank & Hnumber & Hsymbol & _ & Hexample).
  set (st := {| EnumCreator.maxValue := 3; EnumCreator.value := 3;
                EnumCreator.baseString := "BASE";
                EnumCreator.numbers := ["BASE + 3"] |}).
  split.
  { destruct (Hnumber st "0x1F" 31) as (_ & Hv & Hb & Hn);
      [discriminate | left; split; reflexivity |].
    split; [apply Hv; lia | split; [exact Hb | exact Hn]]. }
  split.
  { destruct (Hnumber st "0b101" 5) as (_ & Hv & Hb & Hn);
      [discriminate | right; left; repeat split |].
    split; [apply Hv; lia | split; [exact Hb | exact Hn]]. }
  split.
  { destruct (Hnumber st " 12 " 12) as (_ & Hv & Hb & Hn);
      [discriminate | right; right; repeat split |].
    split; [apply Hv; lia | split; [exact Hb | exact Hn]]. }
  split.
  { destruct (Hsymbol st "SOMEWHERE") as (Hv & Hb & Hn);
      [discriminate | right; right; repeat split |].
    split; [exact Hv | split; [exact Hb | exact Hn]]. }
  split.
  { destruct (Hblank st "  ") as (Hv & Hb & Hn); [reflexivity|].
    split; [exact Hv | split; [exact Hb | exact Hn]]. }
  split; [reflexivity|].
  apply Hexample. reflexivity.
Defined.

(** The six values [0x10], none, [0b11], [ 7 ], [FOO], none resolve to
    16, 17, 3, 7, [FOO] and [FOO + 1] when the numerals are read plainly. *)
Example three_notations_and_a_symbol :
  EnumCreator.numberList
    (EnumCreator.computeNumberList Numeral.toUInt Samples.enumNotations) =
    ["16"; "17"; "3"; "7"; "FOO"; "FOO + 1"].
Proof. reflexivity. Qed.

(** C6, as stated, fails, in three ways.
    - The enumeration [A, B, C] resolves to 0, 1, 2; its largest value is 2
      and [computeNumberList] leaves a width of 2 bits, not [max 8 2 = 8]:
      there is no lower bound of 8.
    - In [A = 5, B = FOO, C .. J] the only value that resolved to a number
      is 5, which asks for 3 bits; but the counter restarts at 0 with [FOO]
      and reaches 8 at [J], and the width is 4 bits: the largest value is
      taken over the counts that follow a symbol as well.
    - In [A = FOO, B, C] no value resolved to a number, and the width is 2
      bits (the counter reaches 2), not 8. *)
Lemma min_bit_width_is_not_as_stated :
  let raws := fun e => map (ResolverSpec.classify Numeral.toUInt)
                         (EnumCreator.valueList e) in
  let width := fun e => EnumCreator.minbitwidth
                          (EnumCreator.computeNumberList Numeral.toUInt e) in
  (ResolverSpec.numericValues (raws Samples.enumABC) = [0; 1; 2] /\
   ResolverSpec.stated_min_bit_width (raws Samples.enumABC) = 8 /\
   width Samples.enumABC = 2 /\
   width Samples.enumABC <>
     ResolverSpec.stated_min_bit_width (raws Samples.enumABC)) /\
  (ResolverSpec.numericValues (raws Samples.enumAfterSymbol) = [5] /\
   ResolverSpec.counters (raws Samples.enumAfterSymbol)
     = [5; 0; 1; 2; 3; 4; 5; 6; 7; 8] /\
   ResolverSpec.stated_min_bit_width (raws Samples.enumAfterSymbol) = 8 /\
   ResolverSpec.plain_min_bit_width (raws Samples.enumAfterSymbol) = 3 /\
   width Samples.enumAfterSymbol = 4 /\
   width Samples.enumAfterSymbol <>
     ResolverSpec.stated_min_bit_width (raws Samples.enumAfterSymbol) /\
   width Samples.enumAfterSymbol <>
     ResolverSpec.plain_min_bit_width (raws Samples.enumAfterSymbol)) /\
  (ResolverSpec.numericValues (raws Samples.enumSymbolFirst) = [] /\
   ResolverSpec.counters (raws Samples.enumSymbolFirst) = [0; 1; 2] /\
   ResolverSpec.stated_min_bit_width (raws Samples.enumSymbolFirst) = 8 /\
   ResolverSpec.plain_min_bit_width (raws Samples.enumSymbolFirst) = 8 /\
   width Samples.enumSymbolFirst = 2 /\
   width Samples.enumSymbolFirst <>
     ResolverSpec.stated_min_bit_width (raws Samples.enumSymbolFirst) /\
   width Samples.enumSymbolFirst <>
     ResolverSpec.plain_min_bit_width (raws Samples.enumSymbolFirst)).
Proof. vm_compute. repeat split; discriminate. Qed.

(** C6, amended.  Let [m] be the largest value the running counter of the
    resolver takes over the value list (the counter starts at -1, is set by
    a value that resolved to a number, restarts at 0 at a symbol, and is
    incremented by a value without text).  If [m] is at least 1 (and below
    [INT_MAX], so that [m + 1] is an [int]), then after [computeNumberList]
    the width is the ceiling of the binary logarithm of [m + 1], whether or
    not a value resolved to a number; there is no lower bound of 8. *)
Theorem min_bit_width_is_ceil_log2 (toUInt : string -> Z -> option Z)
    (e : EnumCreator.t) :
  let raws := map (ResolverSpec.classify toUInt) (EnumCreator.valueList e) in
  let m := ResolverSpec.maximum (-1) (ResolverSpec.counters raws) in
  1 <= m < INT_MAX ->
  EnumCreator.minbitwidth (EnumCreator.computeNumberList toUInt e) =
    Z.log2_up (m + 1).
Proof.
  intros raws m [Hlow Hhigh]. unfold EnumCreator.computeNumberList.
  cbn [EnumCreator.minbitwidth]. rewrite computeNumberList_maxValue.
  fold raws.
  replace (ResolverSpec.maximum 1 (ResolverSpec.counters raws)) with m.
  2:{ change 1 with (Z.max (-1) 1) at 1. rewrite maximum_max. fold m. lia. }
  destruct (Z.ltb_spec 0 m); [|lia].
  unfold EnumCreator.ceil_log2, int32, INT_MAX in *.
  rewrite Z.mod_small by lia. f_equal. lia.
Qed.

Lemma min_bit_width_is_ceil_log2_witness :
  let raws := map (ResolverSpec.classify Numeral.toUInt)
                (EnumCreator.valueList Samples.enumABC) in
  1 <= ResolverSpec.maximum (-1) (ResolverSpec.counters raws) < INT_MAX /\
  EnumCreator.minbitwidth
    (EnumCreator.computeNumberList Numeral.toUInt Samples.enumABC) =
    Z.log2_up (2 + 1).
Proof.
  cbn zeta. split; [vm_compute; split; [discriminate | reflexivity]|].
  apply (min_bit_width_is_ceil_log2 Numeral.toUInt Samples.enumABC).
  vm_compute. split; [discriminate | reflexivity].
Defined.

(* ------------------------------------------------------------------ *)
(** ** Structures: what the setters leave alone *)
(* ------------------------------------------------------------------ *)

Section Setters.

Import Encodable.

Local Ltac by_cases :=
  intros;
  repeat match goal with
         | e : Encodable.t |- _ => destruct e as [? ? ? ? ? ? ? [[]|]]
         end;
  try reflexivity.

Lemma isNotEncoded_clearDefaults e :
  isNotEncoded (clearDefaults e) = isNotEncoded e.
Proof. by_cases. Qed.
Lemma isNotEncoded_setTerminates b e :
  isNotEncoded (setTerminatesBitfield b e) = isNotEncoded e.
Proof. by_cases. Qed.
Lemma isNotEncoded_setStarting n e :
  isNotEncoded (setStartingBitCount n e) = isNotEncoded e.
Proof. by_cases. Qed.

Lemma isPrimitive_clearDefaults e :
  isPrimitive (clearDefaults e) = isPrimitive e.
Proof. by_cases. Qed.
Lemma isPrimitive_setTerminates b e :
  isPrimitive (setTerminatesBitfield b e) = isPrimitive e.
Proof. by_cases. Qed.
Lemma isPrimitive_setStarting n e :
  isPrimitive (setStartingBitCount n e) = isPrimitive e.
Proof. by_cases. Qed.

Lemma isBitfield_clearDefaults e :
  isBitfield (clearDefaults e) = isBitfield e.
Proof. by_cases. Qed.
Lemma isBitfield_setTerminates b e :
  isBitfield (setTerminatesBitfield b e) = isBitfield e.
Proof. by_cases. Qed.
Lemma isBitfield_setStarting n e :
  isBitfield (setStartingBitCount n e) = isBitfield e.
Proof. by_cases. Qed.

Lemma isDefault_clearDefaults e : isDefault (clearDefaults e) = false.
Proof. by_cases. Qed.
Lemma isDefault_setTerminates b e :
  isDefault (setTerminatesBitfield b e) = isDefault e.
Proof. by_cases. Qed.
Lemma isDefault_setStarting n e :
  isDefault (setStartingBitCount n e) = isDefault e.
Proof. by_cases. Qed.

Lemma terminates_clearDefaults e :
  getTerminatesBitfield (clearDefaults e) = getTerminatesBitfield e.
Proof. by_cases. Qed.
Lemma terminates_setTerminates b e :
  isBitfield e = true -> getTerminatesBitfield (setTerminatesBitfield b e) = b.
Proof. by_cases; discriminate. Qed.
Lemma terminates_setStarting n e :
  getTerminatesBitfield (setStartingBitCount n e) = getTerminatesBitfield e.
Proof. by_cases. Qed.

Lemma starting_clearDefaults e :
  getStartingBitCount (clearDefaults e) = getStartingBitCount e.
Proof. by_cases. Qed.
Lemma starting_setTerminates b e :
  getStartingBitCount (setTerminatesBitfield b e) = getStartingBitCount e.
Proof. by_cases. Qed.
Lemma starting_setStarting n e :
  isBitfield e = true -> getStartingBitCount (setStartingBitCount n e) = n.
Proof. by_cases; discriminate. Qed.

Lemma ending_clearDefaults e :
  getEndingBitCount (clearDefaults e) = getEndingBitCount e.
Proof. by_cases. Qed.
Lemma ending_setTerminates b e :
  getEndingBitCount (setTerminatesBitfield b e) = getEndingBitCount e.
Proof. by_cases. Qed.

Lemma isNotEncoded_clearVariableArray e :
  isNotEncoded (clearVariableArray e) = isNotEncoded e.
Proof. by_cases. Qed.
Lemma isNotEncoded_clearDependsOn e :
  isNotEncoded (clearDependsOn e) = isNotEncoded e.
Proof. by_cases. Qed.
Lemma isPrimitive_clearVariableArray e :
  isPrimitive (clearVariableArray e) = isPrimitive e.
Proof. by_cases. Qed.
Lemma isPrimitive_clearDependsOn e :
  isPrimitive (clearDependsOn e) = isPrimitive e.
Proof. by_cases. Qed.
Lemma isBitfield_clearVariableArray e :
  isBitfield (clearVariableArray e) = isBitfield e.
Proof. by_cases. Qed.
Lemma isBitfield_clearDependsOn e :
  isBitfield (clearDependsOn e) = isBitfield e.
Proof. by_cases. Qed.
Lemma isDefault_clearVariableArray e :
  isDefault (clearVariableArray e) = isDefault e.
Proof. by_cases. Qed.
Lemma isDefault_clearDependsOn e :
  isDefault (clearDependsOn e) = isDefault e.
Proof. by_cases. Qed.

Lemma accepts_clearDefaults w e :
  ProtocolStructure.accepts w (clearDefaults e) = ProtocolStructure.accepts w e.
Proof. by_cases. Qed.
Lemma accepts_setTerminates w b e :
  ProtocolStructure.accepts w (setTerminatesBitfield b e)
  = ProtocolStructure.accepts w e.
Proof. by_cases. Qed.

End Setters.

Create Rewrite HintDb enc.

#[local] Hint Rewrite
  isNotEncoded_clearDefaults isNotEncoded_setTerminates isNotEncoded_setStarting
  isPrimitive_clearDefaults isPrimitive_setTerminates isPrimitive_setStarting
  isBitfield_clearDefaults isBitfield_setTerminates isBitfield_setStarting
  isDefault_clearDefaults isDefault_setTerminates isDefault_setStarting
  terminates_clearDefaults terminates_setStarting
  starting_clearDefaults starting_setTerminates
  ending_clearDefaults ending_setTerminates
  accepts_clearDefaults accepts_setTerminates
  isNotEncoded_clearVariableArray isNotEncoded_clearDependsOn
  isPrimitive_clearVariableArray isPrimitive_clearDependsOn
  isBitfield_clearVariableArray isBitfield_clearDependsOn
  isDefault_clearVariableArray isDefault_clearDependsOn : enc.

(* ------------------------------------------------------------------ *)
(** ** Structures: bitfield runs *)
(* ------------------------------------------------------------------ *)

Section BitfieldRuns.

Import Encodable ProtocolStructure Sweep.

Lemma encodedOnly_app l1 l2 :
  encodedOnly (l1 ++ l2) = encodedOnly l1 ++ encodedOnly l2.
Proof. apply List.filter_app. Qed.

Lemma encodedOnly_map (g : Encodable.t -> Encodable.t) l :
  (forall e, isNotEncoded (g e) = isNotEncoded e) ->
  encodedOnly (map g l) = map g (encodedOnly l).
Proof.
  intros Hg. unfold encodedOnly. induction l as [|x l IH]; [done|].
  cbn. rewrite Hg. destruct (isNotEncoded x); cbn; by rewrite IH.
Qed.

Lemma linked_nil : linked [].
Proof. split; [intros k a b H; by rewrite lookup_nil in H | done]. Qed.

Lemma linked_map (g : Encodable.t -> Encodable.t) E :
  (forall e, isBitfield (g e) = isBitfield e) ->
  (forall e, getTerminatesBitfield (g e) = getTerminatesBitfield e) ->
  (forall e, getStartingBitCount (g e) = getStartingBitCount e) ->
  (forall e, getEndingBitCount (g e) = getEndingBitCount e) ->
  linked E -> linked (map g E).
Proof.
  intros Hb Ht Hs He [Hpair Hlast]. split.
  - intros k a b Ha Hb'. rewrite list_lookup_fmap in Ha, Hb'.
    destruct (E !! k) as [a0|] eqn:Ea; [|done].
    destruct (E !! S k) as [b0|] eqn:Eb; [|done].
    cbn in Ha, Hb'. injection Ha as <-. injection Hb' as <-.
    rewrite !Hb, !Ht, Hs, He. exact (Hpair k a0 b0 Ea Eb).
  - intros a Ha. change (map g E) with (g <$> E) in Ha.
    rewrite fmap_last in Ha.
    destruct (last E) as [a0|] eqn:Ea; [|done].
    cbn in Ha. injection Ha as <-. rewrite Hb, Ht. eauto.
Qed.

(** Appending an encodable that does not continue a run. *)
Lemma linked_snoc E e :
  linked E ->
  (forall q, last E = Some q -> isBitfield q && isBitfield e = false) ->
  (isBitfield e = true -> getTerminatesBitfield e = true) ->
  linked (E ++ [e]).
Proof.
  intros [Hpair Hlast] Hno Hterm. split.
  - intros k a b Ha Hb Hbit.
    destruct (decide (S k < length E)%nat) as [Hlt|Hge].
    + rewrite lookup_app_l in Ha by lia. rewrite lookup_app_l in Hb by lia.
      exact (Hpair k a b Ha Hb Hbit).
    + assert (S k = length E) as Hk.
      { apply lookup_lt_Some in Hb. rewrite length_app in Hb. cbn in Hb. lia. }
      rewrite lookup_app_l in Ha by lia.
      rewrite Hk, list_lookup_middle in Hb by done. injection Hb as <-.
      assert (last E = Some a) as Hla.
      { rewrite last_lookup. rewrite <- Hk. exact Ha. }
      specialize (Hno a Hla). rewrite Hbit in Hno. cbn in Hno. rewrite Hno.
      exact (Hlast a Hla Hbit).
  - intros a Ha. rewrite last_snoc in Ha. injection Ha as <-. exact Hterm.
Qed.

(** Appending a bitfield after a bitfield: the previous one is updated in
    place. *)
Lemma linked_snoc_link E0 q e :
  linked (E0 ++ [q]) ->
  isBitfield q = true -> isBitfield e = true ->
  getTerminatesBitfield e = true ->
  getStartingBitCount e = getEndingBitCount q ->
  linked ((E0 ++ [setTerminatesBitfield false q]) ++ [e]).
Proof.
  intros [Hpair Hlast] Hq He Hterm Hstart. split.
  - intros k a b Ha Hb Hbit.
    rewrite <- app_assoc in Ha, Hb. cbn [app] in Ha, Hb.
    destruct (decide (S k < length E0)%nat) as [Hlt|Hge].
    + rewrite lookup_app_l in Ha by lia. rewrite lookup_app_l in Hb by lia.
      apply (Hpair k a b); [| |done].
      * rewrite lookup_app_l by lia. done.
      * rewrite lookup_app_l by lia. done.
    + destruct (decide (S k = length E0)) as [Hk|Hne].
      * rewrite lookup_app_l in Ha by lia.
        rewrite list_lookup_middle in Hb by done. injection Hb as <-.
        specialize (Hpair k a q).
        rewrite lookup_app_l in Hpair by lia.
        rewrite list_lookup_middle in Hpair by done.
        specialize (Hpair Ha eq_refl Hbit). rewrite Hq in Hpair.
        autorewrite with enc. rewrite Hq. exact Hpair.
      * assert (k = length E0) as Hk.
        { apply lookup_lt_Some in Hb. rewrite length_app in Hb.
          cbn in Hb. lia. }
        subst k.
        rewrite list_lookup_middle in Ha by done. injection Ha as <-.
        change (E0 ++ setTerminatesBitfield false q :: [e])
          with (E0 ++ [setTerminatesBitfield false q] ++ [e]) in Hb.
        rewrite app_assoc in Hb.
        rewrite list_lookup_middle in Hb
          by (rewrite length_app; cbn; lia).
        injection Hb as <-.
        rewrite He, terminates_setTerminates by done.
        autorewrite with enc. done.
  - intros a Ha. rewrite last_snoc in Ha. by injection Ha as <-.
Qed.

Lemma pointsAtLast_map (g : Encodable.t -> Encodable.t) l p :
  (forall e, isNotEncoded (g e) = isNotEncoded e) ->
  pointsAtLast l p -> pointsAtLast (map g l) p.
Proof.
  intros Hg. destruct p as [i|]; cbn.
  - intros (l1 & q & l2 & -> & Hlen & Hq & Hl2).
    exists (map g l1), (g q), (map g l2). rewrite map_app. cbn.
    rewrite length_map, Hg, encodedOnly_map, Hl2 by done. done.
  - intros H. by rewrite encodedOnly_map, H.
Qed.

Lemma checkVariableArray_fst n l e :
  fst (checkVariableArray n l e) = e \/
  fst (checkVariableArray n l e) = clearVariableArray e.
Proof.
  unfold checkVariableArray.
  destruct (negb _); [destruct (found _ _)|]; cbn; auto.
Qed.

Lemma checkDependsOn_fst n l e :
  fst (checkDependsOn n l e) = e \/
  fst (checkDependsOn n l e) = clearDependsOn e.
Proof.
  unfold checkDependsOn.
  destruct (negb _); [destruct (isBitfield e); [|destruct (found _ _)]|];
    cbn; auto.
Qed.

(** The two reference checks change neither what is encoded nor what is a
    bitfield. *)
Lemma checks_keep n l l' e :
  let e' := fst (checkDependsOn n l' (fst (checkVariableArray n l e))) in
  isNotEncoded e' = isNotEncoded e /\ isBitfield e' = isBitfield e /\
  isPrimitive e' = isPrimitive e /\ isDefault e' = isDefault e.
Proof.
  cbn zeta.
  destruct (checkDependsOn_fst n l' (fst (checkVariableArray n l e))) as [->| ->],
           (checkVariableArray_fst n l e) as [->| ->];
    autorewrite with enc; done.
Qed.

(** The bitfield step on a state in which the pointer and the links are in
    order. *)
Lemma linkBitfields_linked l p e :
  pointsAtLast l p -> linked (encodedOnly l) -> isNotEncoded e = false ->
  let r := linkBitfields p l e in
  pointsAtLast (fst r ++ [snd r]) (Some (length (fst r))) /\
  linked (encodedOnly (fst r ++ [snd r])).
Proof.
  intros Hp Hl He. cbn zeta. unfold linkBitfields.
  set (e3 := if isBitfield e then setTerminatesBitfield true e else e).
  assert (isNotEncoded e3 = false) as He3.
  { subst e3. destruct (isBitfield e); cbn iota; autorewrite with enc; done. }
  assert (isBitfield e3 = true -> getTerminatesBitfield e3 = true) as Ht3.
  { subst e3. destruct (isBitfield e) eqn:Hb; [|congruence].
    intros _. by apply terminates_setTerminates. }
  assert (forall sib x, isNotEncoded x = false ->
            pointsAtLast (sib ++ [x]) (Some (length sib))) as Hpoint.
  { intros sib x Hx. exists sib, x, []. done. }
  assert (encodedOnly [e3] = [e3]) as Hone.
  { unfold encodedOnly. cbn. by rewrite He3. }
  destruct p as [i|]; cbn in Hp.
  - destruct Hp as (l1 & q & l2 & -> & Hlen & Hq & Hl2).
    rewrite list_lookup_middle by done.
    assert (encodedOnly (l1 ++ q :: l2) = encodedOnly l1 ++ [q]) as HE.
    { rewrite encodedOnly_app. unfold encodedOnly at 2. cbn.
      rewrite Hq. cbn. fold (encodedOnly l2). by rewrite Hl2. }
    rewrite HE in Hl.
    destruct (isBitfield q && isBitfield e3) eqn:Hboth; cbn [fst snd].
    + apply andb_true_iff in Hboth as [Hbq Hbe].
      split; [apply Hpoint; by autorewrite with enc|].
      replace i with (length l1 + 0)%nat by lia. rewrite alter_app_r. cbn.
      rewrite !encodedOnly_app. unfold encodedOnly at 2 3. cbn.
      autorewrite with enc. rewrite Hq, He3. cbn.
      fold (encodedOnly l2). rewrite Hl2. cbn.
      apply linked_snoc_link; [done|done|by autorewrite with enc| |].
      * rewrite terminates_setStarting. by apply Ht3.
      * by rewrite starting_setStarting.
    + split; [by apply Hpoint|].
      rewrite encodedOnly_app, HE, Hone.
      apply linked_snoc; [done| |done].
      intros q' Hq'. rewrite last_snoc in Hq'. by injection Hq' as <-.
  - cbn [fst snd]. split; [by apply Hpoint|].
    rewrite encodedOnly_app, Hp, Hone. cbn.
    apply (linked_snoc [] e3); [apply linked_nil|done|done].
Qed.

(** One child keeps the pointer and the links in order. *)
Lemma child_linked n st made :
  pointsAtLast (encodables st) (prevEncodable st) ->
  linked (encodedOnly (encodables st)) ->
  pointsAtLast (encodables (child n st made))
               (prevEncodable (child n st made)) /\
  linked (encodedOnly (encodables (child n st made))).
Proof.
  intros Hp Hl. destruct made as [e|]; cbn [child]; [|done].
  destruct (isNotEncoded e) eqn:He; cbn [negb].
  - cbn. split.
    + destruct (prevEncodable st) as [i|]; cbn in *.
      * destruct Hp as (l1 & q & l2 & -> & Hlen & Hq & Hl2).
        exists l1, q, (l2 ++ [e]). rewrite <- app_assoc. cbn.
        rewrite encodedOnly_app, Hl2. unfold encodedOnly. cbn.
        by rewrite He.
      * rewrite encodedOnly_app, Hp. unfold encodedOnly. cbn. by rewrite He.
    + rewrite encodedOnly_app. unfold encodedOnly at 2. cbn. rewrite He.
      cbn. by rewrite app_nil_r.
  - set (st1 := trackMetadata n e st).
    assert (pointsAtLast (encodables st1) (prevEncodable st1) /\
            linked (encodedOnly (encodables st1))) as [Hp1 Hl1].
    { subst st1. unfold trackMetadata.
      destruct (isPrimitive e); [|done].
      destruct (usesDefaults e); [done|].
      destruct (defaults st); [|done]. cbn. split.
      - apply pointsAtLast_map; [apply isNotEncoded_clearDefaults | done].
      - rewrite encodedOnly_map by apply isNotEncoded_clearDefaults.
        apply linked_map; auto using isBitfield_clearDefaults,
          terminates_clearDefaults, starting_clearDefaults,
          ending_clearDefaults. }
    destruct (checks_keep n (encodables st1) (encodables st1) e)
      as (Hk1 & _).
    destruct (checkVariableArray n (encodables st1) e) as [e1 out1] eqn:E1.
    cbn [fst] in Hk1.
    destruct (checkDependsOn n (encodables st1) e1) as [e2 out2] eqn:E2.
    cbn [fst] in Hk1.
    pose proof (linkBitfields_linked (encodables st1) (prevEncodable st1) e2
                  Hp1 Hl1 (eq_trans Hk1 He)) as Hstep.
    cbn zeta in Hstep.
    destruct (linkBitfields (prevEncodable st1) (encodables st1) e2)
      as [sib e4].
    exact Hstep.
Qed.

Lemma parseChildrenFrom_linked n children st :
  pointsAtLast (encodables st) (prevEncodable st) ->
  linked (encodedOnly (encodables st)) ->
  linked (encodedOnly (encodables (parseChildrenFrom n st children))).
Proof.
  revert st. induction children as [|c children IH]; intros st Hp Hl; [done|].
  cbn. destruct (child_linked n st c Hp Hl) as [Hp' Hl']. by apply IH.
Qed.

Lemma parseChildren_linked n children :
  linked (encodedOnly (encodables (parseChildren n children))).
Proof.
  apply parseChildrenFrom_linked; [done | apply linked_nil].
Qed.

End BitfieldRuns.

(* ------------------------------------------------------------------ *)
(** ** Structures: the shape of one step *)
(* ------------------------------------------------------------------ *)

Section StepShape.

Import Encodable ProtocolStructure Sweep.

Lemma linkBitfields_view {V : Type} (v : Encodable.t -> V) p l e :
  (forall b x, v (setTerminatesBitfield b x) = v x) ->
  (forall k x, v (setStartingBitCount k x) = v x) ->
  map v (fst (linkBitfields p l e)) = map v l /\
  v (snd (linkBitfields p l e)) = v e.
Proof.
  intros Ht Hs. unfold linkBitfields.
  assert (v (if isBitfield e then setTerminatesBitfield true e else e) = v e)
    as He by (destruct (isBitfield e); [apply Ht | done]).
  destruct p as [i|]; [|done].
  destruct (l !! i) as [prev|] eqn:Hi; [|done].
  destruct (isBitfield prev && isBitfield _); [|done].
  cbn [fst snd]. split; [|by rewrite Hs].
  apply list_eq. intros k.
  change (map v) with (fmap (M:=list) v).
  rewrite !list_lookup_fmap, list_lookup_alter.
  destruct (decide (i = k)) as [->|]; [|done].
  rewrite Hi. cbn. by rewrite Ht.
Qed.

(** An encoded child: the siblings are the ones [trackMetadata] left,
    up to bitfield marks, followed by the child as the two reference checks
    left it, up to bitfield marks. *)
Lemma child_encoded n st e :
  isNotEncoded e = false ->
  let st1 := trackMetadata n e st in
  let e2 := fst (checkDependsOn n (encodables st1)
                   (fst (checkVariableArray n (encodables st1) e))) in
  exists sib e4 more,
    encodables (child n st (Some e)) = sib ++ [e4] /\
    defaults (child n st (Some e)) = defaults st1 /\
    cout (child n st (Some e)) = cout st1 ++ more /\
    forall (V : Type) (v : Encodable.t -> V),
      (forall b x, v (setTerminatesBitfield b x) = v x) ->
      (forall k x, v (setStartingBitCount k x) = v x) ->
      map v sib = map v (encodables st1) /\ v e4 = v e2.
Proof.
  intros He. cbn zeta. cbn [child]. rewrite He. cbn [negb].
  set (st1 := trackMetadata n e st).
  destruct (checkVariableArray n (encodables st1) e) as [e1 out1].
  cbn [fst].
  destruct (checkDependsOn n (encodables st1) e1) as [e2 out2].
  cbn [fst].
  pose proof (fun V v => @linkBitfields_view V v (prevEncodable st1)
                           (encodables st1) e2) as Hv.
  destruct (linkBitfields (prevEncodable st1) (encodables st1) e2)
    as [sib e4].
  exists sib, e4, (out1 ++ out2). cbn. repeat split; auto.
  - apply Hv; auto.
  - apply Hv; auto.
Qed.

Lemma core_setTerminates b x : core (setTerminatesBitfield b x) = core x.
Proof. by destruct x as [? ? ? ? ? ? ? [[]|]]. Qed.

Lemma core_setStarting k x : core (setStartingBitCount k x) = core x.
Proof. by destruct x as [? ? ? ? ? ? ? [[]|]]. Qed.

Lemma core_clearDefaults x : core (clearDefaults x) = core x.
Proof. by destruct x as [? ? ? ? ? ? ? [[]|]]. Qed.

Lemma defaultView_setTerminates b x :
  defaultView (setTerminatesBitfield b x) = defaultView x.
Proof. by destruct x as [? ? ? ? ? ? ? [[]|]]. Qed.

Lemma defaultView_setStarting k x :
  defaultView (setStartingBitCount k x) = defaultView x.
Proof. by destruct x as [? ? ? ? ? ? ? [[]|]]. Qed.

Lemma defaultView_clearDefaults x :
  defaultView (clearDefaults x) = (fst (defaultView x), false).
Proof. by destruct x as [? ? ? ? ? ? ? [[]|]]. Qed.

Lemma accepts_core w u : accepts w u = acceptsCore w (core u).
Proof. reflexivity. Qed.

Lemma trackMetadata_core n e st :
  map core (encodables (trackMetadata n e st)) = map core (encodables st).
Proof.
  unfold trackMetadata.
  destruct (isPrimitive e); [|done].
  destruct (usesDefaults e); [done|].
  destruct (defaults st); [|done]. cbn.
  rewrite map_map. apply map_ext. intros x. apply core_clearDefaults.
Qed.

End StepShape.

(* ------------------------------------------------------------------ *)
(** ** Structures: references to previous siblings *)
(* ------------------------------------------------------------------ *)

Section References.

Import Encodable ProtocolStructure Sweep.

Lemma found_accepts w l :
  found w l = true ->
  exists i u, l !! i = Some u /\ accepts w u = true.
Proof.
  unfold found.
  destruct (list_find _ l) as [[i u]|] eqn:Hf; [|done].
  intros _. apply list_find_Some in Hf as (Hi & Hu & _). eauto.
Qed.

Lemma isEmpty_true s : QString.isEmpty s = true -> s = EmptyString.
Proof. by destruct s. Qed.

Lemma checkVariableArray_resolved n l e :
  let e1 := fst (checkVariableArray n l e) in
  (variableArray e1 <> EmptyString ->
     exists i u, l !! i = Some u /\ accepts (variableArray e1) u = true) /\
  dependsOn e1 = dependsOn e.
Proof.
  cbn zeta. unfold checkVariableArray.
  destruct (QString.isEmpty (variableArray e)) eqn:Hva; cbn [negb fst].
  - apply isEmpty_true in Hva. by rewrite Hva.
  - destruct (found (variableArray e) l) eqn:Hf; cbn [fst].
    + split; [|done]. intros _. by apply found_accepts.
    + done.
Qed.

Lemma checkDependsOn_resolved n l e :
  let e2 := fst (checkDependsOn n l e) in
  (dependsOn e2 <> EmptyString ->
     exists i u, l !! i = Some u /\ accepts (dependsOn e2) u = true) /\
  variableArray e2 = variableArray e.
Proof.
  cbn zeta. unfold checkDependsOn.
  destruct (QString.isEmpty (dependsOn e)) eqn:Hdep; cbn [negb fst].
  - apply isEmpty_true in Hdep. by rewrite Hdep.
  - destruct (isBitfield e); cbn [fst]; [done|].
    destruct (found (dependsOn e) l) eqn:Hf; cbn [fst].
    + split; [|done]. intros _. by apply found_accepts.
    + done.
Qed.

(** What the two checks leave in the child names acceptable siblings. *)
Lemma checks_resolved n l e :
  let e2 := fst (checkDependsOn n l (fst (checkVariableArray n l e))) in
  (variableArray e2 <> EmptyString ->
     exists i u, l !! i = Some u /\ accepts (variableArray e2) u = true) /\
  (dependsOn e2 <> EmptyString ->
     exists i u, l !! i = Some u /\ accepts (dependsOn e2) u = true).
Proof.
  cbn zeta.
  destruct (checkVariableArray_resolved n l e) as [H1 _].
  destruct (checkDependsOn_resolved n l (fst (checkVariableArray n l e)))
    as [H2 Hsame].
  cbn zeta in *. rewrite Hsame. done.
Qed.

Lemma referencesResolved_snoc V c :
  referencesResolved V ->
  (forall nm prim arr notMem va dep,
     c = (nm, prim, arr, false, notMem, va, dep) ->
     (va <> EmptyString ->
        exists i u, V !! i = Some u /\ acceptsCore va u = true) /\
     (dep <> EmptyString ->
        exists i u, V !! i = Some u /\ acceptsCore dep u = true)) ->
  referencesResolved (V ++ [c]).
Proof.
  intros HV Hc j nm prim arr notMem va dep Hj.
  destruct (decide (j < length V)%nat) as [Hlt|Hge].
  - rewrite lookup_app_l in Hj by done.
    destruct (HV j nm prim arr notMem va dep Hj) as [H1 H2].
    split; intros Hne.
    + destruct (H1 Hne) as (i & u & Hi & Hu & Ha).
      exists i, u. rewrite lookup_app_l by lia. done.
    + destruct (H2 Hne) as (i & u & Hi & Hu & Ha).
      exists i, u. rewrite lookup_app_l by lia. done.
  - assert (j = length V) as ->.
    { apply lookup_lt_Some in Hj. rewrite length_app in Hj. cbn in Hj. lia. }
    rewrite list_lookup_middle in Hj by done. injection Hj as ->.
    destruct (Hc nm prim arr notMem va dep eq_refl) as [H1 H2].
    split; intros Hne.
    + destruct (H1 Hne) as (i & u & Hu & Ha).
      exists i, u. apply lookup_lt_Some in Hu as Hlt.
      rewrite lookup_app_l by lia. done.
    + destruct (H2 Hne) as (i & u & Hu & Ha).
      exists i, u. apply lookup_lt_Some in Hu as Hlt.
      rewrite lookup_app_l by lia. done.
Qed.

Lemma child_referencesResolved n st made :
  referencesResolved (map core (encodables st)) ->
  referencesResolved (map core (encodables (child n st made))).
Proof.
  intros HV. destruct made as [e|]; [|done].
  destruct (isNotEncoded e) eqn:He.
  - cbn [child]. rewrite He. cbn. rewrite map_app. cbn.
    apply referencesResolved_snoc; [done|].
    intros nm prim arr notMem va dep Hc. unfold core in Hc.
    rewrite He in Hc. discriminate.
  - destruct (child_encoded n st e He) as (sib & e4 & more & -> & _ & _ & Hv).
    destruct (Hv _ core core_setTerminates core_setStarting) as [Hsib He4].
    rewrite map_app, Hsib, trackMetadata_core. cbn. rewrite He4.
    apply referencesResolved_snoc; [done|].
    intros nm prim arr notMem va dep Hc.
    pose proof (checks_resolved n (encodables (trackMetadata n e st)) e)
      as [H1 H2]. cbn zeta in H1, H2.
    unfold core in Hc. injection Hc as _ _ _ _ _ Hva Hdep.
    rewrite Hva in H1. rewrite Hdep in H2.
    split; intros Hne.
    + destruct (H1 Hne) as (i & u & Hu & Ha). exists i, (core u).
      split; [|by rewrite <- accepts_core].
      rewrite <- trackMetadata_core with (n := n) (e := e).
      change (map core) with (fmap (M:=list) core).
      by rewrite list_lookup_fmap, Hu.
    + destruct (H2 Hne) as (i & u & Hu & Ha). exists i, (core u).
      split; [|by rewrite <- accepts_core].
      rewrite <- trackMetadata_core with (n := n) (e := e).
      change (map core) with (fmap (M:=list) core).
      by rewrite list_lookup_fmap, Hu.
Qed.

Lemma parseChildrenFrom_referencesResolved n children st :
  referencesResolved (map core (encodables st)) ->
  referencesResolved
    (map core (encodables (parseChildrenFrom n st children))).
Proof.
  revert st. induction children as [|c children IH]; intros st H; [done|].
  cbn. apply IH. by apply child_referencesResolved.
Qed.

(** X15.  What does hold of the references: an encoded child that still
    has a [variableArray] (or [dependsOn]) after [parseChildren] names an
    earlier sibling that passed the test of the reference loop. *)
Lemma references_name_earlier_sibling n children j e :
  let l := encodables (parseChildren n children) in
  l !! j = Some e -> isNotEncoded e = false ->
  (variableArray e <> EmptyString ->
     exists i u, (i < j)%nat /\ l !! i = Some u /\
                 accepts (variableArray e) u = true) /\
  (dependsOn e <> EmptyString ->
     exists i u, (i < j)%nat /\ l !! i = Some u /\
                 accepts (dependsOn e) u = true).
Proof.
  intros l Hj He.
  assert (referencesResolved (map core l)) as HV.
  { apply parseChildrenFrom_referencesResolved.
    intros k ? ? ? ? ? ? Hk. cbn in Hk. by rewrite lookup_nil in Hk. }
  specialize (HV j (name e) (isPrimitive e) (isArray e) (isNotInMemory e)
                (variableArray e) (dependsOn e)).
  change (map core) with (fmap (M:=list) core) in HV.
  rewrite list_lookup_fmap, Hj in HV. cbn in HV. unfold core in HV at 1.
  rewrite He in HV. destruct (HV eq_refl) as [H1 H2].
  split; intros Hne.
  - destruct (H1 Hne) as (i & c & Hlt & Hi & Ha).
    rewrite list_lookup_fmap in Hi.
    destruct (l !! i) as [u|] eqn:Hu; [|done].
    cbn in Hi. injection Hi as <-. eauto.
  - destruct (H2 Hne) as (i & c & Hlt & Hi & Ha).
    rewrite list_lookup_fmap in Hi.
    destruct (l !! i) as [u|] eqn:Hu; [|done].
    cbn in Hi. injection Hi as <-. eauto.
Qed.

End References.

(* ------------------------------------------------------------------ *)
(** ** Structures: trailing defaults *)
(* ------------------------------------------------------------------ *)

Section Defaults.

Import Encodable ProtocolStructure Sweep.

Lemma defaultsTrail_nil : defaultsTrail [] false.
Proof. split; intros; by rewrite lookup_nil in *. Qed.

(** A child that is no encoded primitive changes nothing. *)
Lemma defaultsTrail_snoc_other V flag d :
  defaultsTrail V flag -> defaultsTrail (V ++ [(false, d)]) flag.
Proof.
  intros [Hoff Hsuf]. split.
  - intros Hf i x Hi. destruct (decide (i < length V)%nat).
    + rewrite lookup_app_l in Hi by done. eauto.
    + apply lookup_lt_Some in Hi as Hlt. rewrite length_app in Hlt. cbn in Hlt.
      rewrite list_lookup_middle in Hi by lia. discriminate.
  - intros i j x Hij Hi Hj. destruct (decide (j < length V)%nat).
    + rewrite lookup_app_l in Hi by lia. rewrite lookup_app_l in Hj by lia.
      eauto.
    + apply lookup_lt_Some in Hj as Hlt. rewrite length_app in Hlt. cbn in Hlt.
      rewrite list_lookup_middle in Hj by lia. discriminate.
Qed.

(** An encoded primitive with a default switches the flag on. *)
Lemma defaultsTrail_snoc_default V flag :
  defaultsTrail V flag -> defaultsTrail (V ++ [(true, true)]) true.
Proof.
  intros [Hoff Hsuf]. split; [done|].
  intros i j x Hij Hi Hj. destruct (decide (j < length V)%nat).
  - rewrite lookup_app_l in Hi by lia. rewrite lookup_app_l in Hj by lia.
    eauto.
  - apply lookup_lt_Some in Hj as Hlt. rewrite length_app in Hlt. cbn in Hlt.
    rewrite list_lookup_middle in Hj by lia. by injection Hj as <-.
Qed.

(** An encoded primitive without default, while the flag is off. *)
Lemma defaultsTrail_snoc_plain V :
  defaultsTrail V false -> defaultsTrail (V ++ [(true, false)]) false.
Proof.
  intros [Hoff Hsuf]. split.
  - intros _ i x Hi. destruct (decide (i < length V)%nat).
    + rewrite lookup_app_l in Hi by done. eauto.
    + apply lookup_lt_Some in Hi as Hlt. rewrite length_app in Hlt. cbn in Hlt.
      rewrite list_lookup_middle in Hi by lia. by injection Hi as <-.
  - intros i j x Hij Hi Hj.
    apply lookup_lt_Some in Hj as Hlt. rewrite length_app in Hlt. cbn in Hlt.
    rewrite lookup_app_l in Hi by lia.
    by specialize (Hoff eq_refl i true Hi).
Qed.

(** An encoded primitive without default, while the flag is on: every
    earlier default is revoked. *)
Lemma defaultsTrail_revoke (V : list (bool * bool)) :
  defaultsTrail (map (fun v => (fst v, false)) V ++ [(true, false)]) false.
Proof.
  assert (forall i k x,
    (map (fun v : bool * bool => (fst v, false)) V ++ [(true, false)]) !! i
      = Some (k, x) -> x = false) as Hall.
  { intros i k x Hi. destruct (decide (i < length V)%nat).
    - rewrite lookup_app_l in Hi by (by rewrite length_map).
      change (map ?f V) with (f <$> V) in Hi.
      rewrite list_lookup_fmap in Hi.
      destruct (V !! i); [|done]. cbn in Hi. by injection Hi as _ <-.
    - apply lookup_lt_Some in Hi as Hlt.
      rewrite length_app, length_map in Hlt. cbn in Hlt.
      rewrite list_lookup_middle in Hi by (rewrite length_map; lia).
      by injection Hi as _ <-. }
  split.
  - intros _ i x Hi. by apply Hall in Hi.
  - intros i j x Hij Hi Hj. by apply Hall in Hi.
Qed.

Lemma child_defaultsTrail n st made :
  defaultsTrail (map defaultView (encodables st)) (defaults st) ->
  defaultsTrail (map defaultView (encodables (child n st made)))
                (defaults (child n st made)).
Proof.
  intros HV. destruct made as [e|]; [|done].
  destruct (isNotEncoded e) eqn:He.
  - cbn [child]. rewrite He. cbn. rewrite map_app. cbn.
    unfold defaultView at 2. rewrite He. cbn.
    by apply defaultsTrail_snoc_other.
  - destruct (child_encoded n st e He)
      as (sib & e4 & more & -> & -> & _ & Hv).
    destruct (Hv _ defaultView defaultView_setTerminates
                defaultView_setStarting) as [Hsib He4].
    rewrite map_app, Hsib. cbn. rewrite He4. clear Hv Hsib He4.
    destruct (checks_keep n (encodables (trackMetadata n e st))
                (encodables (trackMetadata n e st)) e)
      as (Hk1 & _ & Hk3 & Hk4). cbn zeta in Hk1, Hk3, Hk4.
    unfold defaultView at 2. rewrite Hk1, Hk3, Hk4, He. cbn [negb andb].
    unfold trackMetadata, usesDefaults.
    destruct (isPrimitive e); [|by apply defaultsTrail_snoc_other].
    destruct (isDefault e); [by apply defaultsTrail_snoc_default with (flag := defaults st)|].
    destruct (defaults st) eqn:Hd; cbn.
    + rewrite map_map.
      rewrite (map_ext _ (fun x => (fst (defaultView x), false)))
        by apply defaultView_clearDefaults.
      rewrite <- (map_map defaultView (fun v : bool * bool => (fst v, false))).
      apply defaultsTrail_revoke.
    + by apply defaultsTrail_snoc_plain.
Qed.

Lemma parseChildrenFrom_defaultsTrail n children st :
  defaultsTrail (map defaultView (encodables st)) (defaults st) ->
  defaultsTrail
    (map defaultView (encodables (parseChildrenFrom n st children)))
    (defaults (parseChildrenFrom n st children)).
Proof.
  revert st. induction children as [|c children IH]; intros st H; [done|].
  cbn. apply IH. by apply child_defaultsTrail.
Qed.

Lemma child_defaultsOn n st made :
  defaultsOn (map defaultView (encodables st)) (defaults st) ->
  defaultsOn (map defaultView (encodables (child n st made)))
             (defaults (child n st made)).
Proof.
  intros HV. destruct made as [e|]; [|done].
  destruct (isNotEncoded e) eqn:He.
  - cbn [child]. rewrite He. cbn. rewrite map_app.
    intros Hf. destruct (HV Hf) as [i Hi]. exists i.
    apply lookup_lt_Some in Hi as Hlt. by rewrite lookup_app_l.
  - destruct (child_encoded n st e He)
      as (sib & e4 & more & -> & -> & _ & Hv).
    destruct (Hv _ defaultView defaultView_setTerminates
                defaultView_setStarting) as [Hsib He4].
    rewrite map_app, Hsib. cbn. rewrite He4. clear Hv Hsib He4.
    destruct (checks_keep n (encodables (trackMetadata n e st))
                (encodables (trackMetadata n e st)) e)
      as (Hk1 & _ & Hk3 & Hk4). cbn zeta in Hk1, Hk3, Hk4.
    unfold defaultView at 2. rewrite Hk1, Hk3, Hk4, He. cbn [negb andb].
    unfold trackMetadata, usesDefaults.
    destruct (isPrimitive e).
    + destruct (isDefault e).
      * intros _. exists (length (map defaultView (encodables st))).
        by rewrite list_lookup_middle.
      * destruct (defaults st); [done|]. cbn. intros Hf.
        destruct (HV Hf) as [i Hi]. exists i.
        apply lookup_lt_Some in Hi as Hlt. by rewrite lookup_app_l.
    + cbn. intros Hf. destruct (HV Hf) as [i Hi]. exists i.
      apply lookup_lt_Some in Hi as Hlt. by rewrite lookup_app_l.
Qed.

Lemma parseChildrenFrom_defaultsOn n children st :
  defaultsOn (map defaultView (encodables st)) (defaults st) ->
  defaultsOn
    (map defaultView (encodables (parseChildrenFrom n st children)))
    (defaults (parseChildrenFrom n st children)).
Proof.
  revert st. induction children as [|c children IH]; intros st H; [done|].
  cbn. apply IH. by apply child_defaultsOn.
Qed.

(** X13.  The [defaults] flag is on after [parseChildren] exactly when some
    child that is an encoded primitive field has kept a default value. *)
Lemma defaults_flag_iff n children :
  let st := parseChildren n children in
  defaults st = true <->
  exists e, In e (encodables st) /\
            isNotEncoded e = false /\ isPrimitive e = true /\
            isDefault e = true.
Proof.
  intros st. split.
  - intros Hon.
    destruct (parseChildrenFrom_defaultsOn n children initial) as [i Hi];
      [done | exact Hon |].
    fold (parseChildren n children) in Hi. fold st in Hi.
    change (map defaultView) with (fmap (M:=list) defaultView) in Hi.
    rewrite list_lookup_fmap in Hi.
    destruct (encodables st !! i) as [e|] eqn:He; [|done].
    cbn in Hi. unfold defaultView in Hi. injection Hi as H1 H2.
    apply andb_true_iff in H1 as [H1 H3]. apply negb_true_iff in H1.
    exists e. split; [|done].
    apply list_elem_of_In, list_elem_of_lookup. eauto.
  - intros (e & Hin & He & Hp & Hd).
    destruct (defaults st) eqn:Hflag; [done|].
    destruct (parseChildrenFrom_defaultsTrail n children initial
                defaultsTrail_nil) as [H _].
    fold (parseChildren n children) in H. fold st in H.
    apply list_elem_of_In, list_elem_of_lookup in Hin as [i Hi].
    assert (isDefault e = false); [|congruence].
    apply (H Hflag i).
    change (map defaultView) with (fmap (M:=list) defaultView).
    rewrite list_lookup_fmap, Hi. cbn. unfold defaultView.
    by rewrite He, Hp.
Qed.

End Defaults.

(** C4, as stated, fails: of the children [a] (3 bits), [scratch] (not
    encoded, no bitfield) and [b] (5 bits), [a] alone is a maximal run of
    consecutive bitfields among the children; yet [a] is not marked as
    terminating the bitfield, because the sweep passes over [scratch] and
    joins [a] and [b]. *)
Lemma bitfield_before_unencoded_child_has_no_terminator :
  let l := ProtocolStructure.encodables
             (ProtocolStructure.parseChildren "run"
                Samples.bitfieldsAroundUnencoded) in
  map Encodable.name l = ["a"; "scratch"; "b"] /\
  map Encodable.isNotEncoded l = [false; true; false] /\
  map Encodable.isBitfield l = [true; false; true] /\
  map Encodable.getTerminatesBitfield l = [false; false; true] /\
  ProtocolStructure.bitfieldRun l 0 0 /\
  ~ (forall k e, (0 <= k <= 0)%nat -> l !! k = Some e ->
       (Encodable.getTerminatesBitfield e = true <-> k = 0%nat)).
Proof.
  cbn zeta. do 4 (split; [reflexivity|]). split.
  - split; [lia|]. split; [|split].
    + intros k Hk. assert (k = 0%nat) as -> by lia.
      eexists. split; reflexivity.
    + intros i' e Hi. discriminate Hi.
    + intros e He. vm_compute in He. injection He as <-. reflexivity.
  - intros H.
    destruct (H 0%nat _ (conj (le_n 0) (le_n 0)) eq_refl) as [_ Hterm].
    discriminate (Hterm eq_refl).
Qed.

(** C4, amended.  After [parseChildren], consider the encoded children in
    order (a child that is not encoded takes no part in the sweep: it
    neither belongs to a run nor ends one).  In every maximal run [i..j] of
    consecutive bitfields among them, a member is marked as terminating the
    bitfield exactly when it is the last one, and each member after the
    first starts at the bit count where its predecessor ends. *)
Theorem bitfield_run_terminator_and_offsets
    (structName : string) (children : list (option Encodable.t)) (i j : nat) :
  let E := ProtocolStructure.encodedOnly
             (ProtocolStructure.encodables
                (ProtocolStructure.parseChildren structName children)) in
  ProtocolStructure.bitfieldRun E i j ->
  (forall k e, (i <= k <= j)%nat -> E !! k = Some e ->
     (Encodable.getTerminatesBitfield e = true <-> k = j)) /\
  (forall k a b, (i <= k < j)%nat -> E !! k = Some a -> E !! S k = Some b ->
     Encodable.getStartingBitCount b = Encodable.getEndingBitCount a).
Proof.
  intros E (Hij & Hall & Hleft & Hright).
  destruct (parseChildren_linked structName children) as [Hpair Hlast].
  fold E in Hpair, Hlast. split.
  - intros k e Hk He.
    destruct (Hall k Hk) as (e' & He' & Hbit).
    rewrite He in He'. injection He' as <-.
    destruct (decide (k = j)) as [->|Hne].
    + split; [done|]. intros _.
      destruct (E !! S j) as [b|] eqn:Hb.
      * specialize (Hpair j e b He Hb Hbit).
        rewrite (Hright b eq_refl) in Hpair. exact Hpair.
      * apply Hlast; [|done]. rewrite last_lookup.
        apply lookup_ge_None in Hb. apply lookup_lt_Some in He as Hlt.
        replace (Init.Nat.pred (length E)) with j by lia. exact He.
    + split; [|done]. intros Hterm.
      destruct (Hall (S k)) as (b & Hb & Hbitb); [lia|].
      specialize (Hpair k e b He Hb Hbit). rewrite Hbitb in Hpair.
      destruct Hpair as [Hfalse _]. congruence.
  - intros k a b Hk Ha Hb.
    destruct (Hall k) as (a' & Ha' & Hbita); [lia|].
    destruct (Hall (S k)) as (b' & Hb' & Hbitb); [lia|].
    rewrite Ha in Ha'. injection Ha' as <-.
    rewrite Hb in Hb'. injection Hb' as <-.
    specialize (Hpair k a b Ha Hb Hbita). rewrite Hbitb in Hpair.
    by destruct Hpair.
Qed.

(** Three consecutive bitfields of 3, 5 and 8 bits are one run: the starting
    bit counts are 0, 3, 8 and only the third terminates it. *)
Example three_bitfields_one_run :
  let E := ProtocolStructure.encodedOnly
             (ProtocolStructure.encodables
                (ProtocolStructure.parseChildren "run" Samples.threeBitfields)) in
  map Encodable.getStartingBitCount E = [0; 3; 8] /\
  map Encodable.getTerminatesBitfield E = [false; false; true].
Proof. split; reflexivity. Qed.

(** A child that is not encoded does not interrupt a run: the bitfields on
    either side of it share one run. *)
Example unencoded_child_does_not_end_a_run :
  let l := ProtocolStructure.encodables
             (ProtocolStructure.parseChildren "run"
                Samples.bitfieldsAroundUnencoded) in
  map Encodable.name l = ["a"; "scratch"; "b"] /\
  map Encodable.getTerminatesBitfield l = [false; false; true] /\
  map Encodable.getStartingBitCount l = [0; 0; 3].
Proof. cbn zeta. repeat split. Qed.

Lemma bitfield_run_terminator_and_offsets_witness :
  let E := ProtocolStructure.encodedOnly
             (ProtocolStructure.encodables
                (ProtocolStructure.parseChildren "run" Samples.threeBitfields)) in
  ProtocolStructure.bitfieldRun E 0 2 /\
  (forall k e, (0 <= k <= 2)%nat -> E !! k = Some e ->
     (Encodable.getTerminatesBitfield e = true <-> k = 2%nat)) /\
  (forall k a b, (0 <= k < 2)%nat -> E !! k = Some a -> E !! S k = Some b ->
     Encodable.getStartingBitCount b = Encodable.getEndingBitCount a).
Proof.
  cbn zeta.
  assert (ProtocolStructure.bitfieldRun
            (ProtocolStructure.encodedOnly
               (ProtocolStructure.encodables
                  (ProtocolStructure.parseChildren "run" Samples.threeBitfields)))
            0 2) as Hrun.
  { split; [lia|]. split; [|split].
    - intros k Hk.
      destruct k as [|[|[|k]]]; [eexists; split; reflexivity ..|lia].
    - intros i' e Hi. discriminate Hi.
    - intros e He. discriminate He. }
  split; [exact Hrun|].
  exact (bitfield_run_terminator_and_offsets "run" Samples.threeBitfields 0 2 Hrun).
Defined.

(** C3 at the failing input.  A field array whose [variableArray] names an
    earlier array of structures keeps the attribute, and nothing is printed:
    the reference loop lets a sibling pass that is an array but no primitive.
    With the same structure not an array the attribute is cleared and the
    diagnostic printed. *)
Theorem variable_array_accepts_structure_array :
  let st := ProtocolStructure.parseChildren "Blob"
              Samples.lengthFromStructureArray in
  let st' := ProtocolStructure.parseChildren "Blob"
               Samples.lengthFromStructure in
  map Encodable.name (ProtocolStructure.encodables st) = ["n"; "payload"] /\
  map Encodable.isPrimitive (ProtocolStructure.encodables st) = [false; true] /\
  map Encodable.variableArray (ProtocolStructure.encodables st) = [""; "n"] /\
  ProtocolStructure.cout st = [] /\
  map Encodable.variableArray (ProtocolStructure.encodables st') = [""; ""] /\
  ProtocolStructure.cout st' =
    ["Blob: payload: variable length array ignored, failed to find length variable"].
Proof. cbn zeta. repeat split. Qed.

(** C5 at the failing input.  A default-valued field followed by a nested
    structure keeps its default, and nothing is printed: the revocation is
    made only when the later child is a primitive field.  So the
    default-valued children are no suffix of the children, although "only
    the last fields can have defaults". *)
Lemma default_before_structure_is_kept :
  let st := ProtocolStructure.parseChildren "Pkt" Samples.defaultThenStructure in
  map Encodable.name (ProtocolStructure.encodables st) = ["d"; "s"] /\
  map Encodable.isNotEncoded (ProtocolStructure.encodables st) = [false; false] /\
  map Encodable.isDefault (ProtocolStructure.encodables st) = [true; false] /\
  ProtocolStructure.cout st = [] /\
  ~ Sweep.defaultsAreSuffix (ProtocolStructure.encodables st).
Proof.
  cbn zeta. do 4 (split; [reflexivity|]).
  intros (pre & suf & Hl & Hpre & Hsuf).
  destruct pre as [|d pre].
  - cbn in Hl. subst suf. inversion Hsuf as [|? ? _ Hrest]; subst.
    inversion Hrest as [|? ? Hs _]; subst. discriminate Hs.
  - injection Hl as <- Hl. inversion Hpre as [|? ? Hd _]; subst.
    discriminate Hd.
Qed.

(** When the revocation is made, the line "default value ignored" is
    printed for every earlier child, with or without a default. *)
Example diagnostic_for_every_earlier_child :
  let st := ProtocolStructure.parseChildren "Pkt" Samples.plainDefaultPlain in
  map Encodable.isDefault (ProtocolStructure.encodables st)
    = [false; false; false] /\
  ProtocolStructure.cout st =
    ["Pkt: x: default value ignored, field is followed by non-default";
     "Pkt: d: default value ignored, field is followed by non-default"].
Proof. cbn zeta. split; reflexivity. Qed.

(** X28.  After [parseChildren], among the children that are encoded
    primitive fields a default-valued one is followed only by default-valued
    ones.  The first encoded primitive field without a default that comes
    while the [defaults] flag is on switches the flag off and leaves no child
    with a default, and one diagnostic line is printed for each earlier
    child. *)
Theorem defaults_trail_the_encoded_primitives
    (structName : string) (children : list (option Encodable.t)) :
  let st := ProtocolStructure.parseChildren structName children in
  (forall i j a b, (i < j)%nat ->
     ProtocolStructure.encodables st !! i = Some a ->
     ProtocolStructure.encodables st !! j = Some b ->
     Encodable.isNotEncoded a = false -> Encodable.isPrimitive a = true ->
     Encodable.isNotEncoded b = false -> Encodable.isPrimitive b = true ->
     Encodable.isDefault a = true -> Encodable.isDefault b = true) /\
  (forall st0 e,
     ProtocolStructure.defaults st0 = true ->
     Encodable.isNotEncoded e = false -> Encodable.isPrimitive e = true ->
     Encodable.isDefault e = false ->
     let st1 := ProtocolStructure.child structName st0 (Some e) in
     ProtocolStructure.defaults st1 = false /\
     (forall x, In x (ProtocolStructure.encodables st1) ->
        Encodable.isDefault x = false) /\
     exists more,
       ProtocolStructure.cout st1 =
         ProtocolStructure.cout st0 ++
         map (ProtocolStructure.defaultIgnored structName)
           (ProtocolStructure.encodables st0) ++ more).
Proof.
  cbn zeta. split.
  - intros i j a b Hij Hi Hj Hea Hpa Heb Hpb Hda.
    destruct (parseChildrenFrom_defaultsTrail structName children
                ProtocolStructure.initial defaultsTrail_nil) as [_ H].
    fold (ProtocolStructure.parseChildren structName children) in H.
    apply (H i j (Encodable.isDefault b) Hij).
    + change (map Sweep.defaultView) with (fmap (M:=list) Sweep.defaultView).
      rewrite list_lookup_fmap, Hi. cbn. unfold Sweep.defaultView.
      by rewrite Hea, Hpa, Hda.
    + change (map Sweep.defaultView) with (fmap (M:=list) Sweep.defaultView).
      rewrite list_lookup_fmap, Hj. cbn. unfold Sweep.defaultView.
      by rewrite Heb, Hpb.
  - intros st0 e Hflag He Hp Hd.
    destruct (child_encoded structName st0 e He)
      as (sib & e4 & more & -> & -> & -> & Hv).
    destruct (Hv _ Encodable.isDefault isDefault_setTerminates
                isDefault_setStarting) as [Hsib He4].
    destruct (checks_keep structName
                (ProtocolStructure.encodables
                   (ProtocolStructure.trackMetadata structName e st0))
                (ProtocolStructure.encodables
                   (ProtocolStructure.trackMetadata structName e st0)) e)
      as (_ & _ & _ & Hk). cbn zeta in Hk. rewrite Hk, Hd in He4.
    revert Hsib. unfold ProtocolStructure.trackMetadata,
      Encodable.usesDefaults. rewrite Hp, Hd, Hflag. cbn. intros Hsib.
    split; [done|]. split.
    + intros x Hx. apply in_app_or in Hx as [Hx|[<-|[]]]; [|done].
      apply (in_map Encodable.isDefault) in Hx. rewrite Hsib in Hx.
      rewrite map_map in Hx. apply in_map_iff in Hx as (y & <- & _).
      apply isDefault_clearDefaults.
    + exists more. by rewrite <- app_assoc.
Qed.

Lemma defaults_trail_the_encoded_primitives_witness :
  let st0 := ProtocolStructure.parseChildren "Pkt"
               [Some (Samples.data "d" (Samples.defaulted "0"))] in
  let st1 := ProtocolStructure.child "Pkt" st0
               (Some (Samples.data "x" Samples.plain)) in
  ProtocolStructure.defaults st0 = true /\
  ProtocolStructure.defaults st1 = false /\
  (forall x, In x (ProtocolStructure.encodables st1) ->
     Encodable.isDefault x = false).
Proof.
  cbn zeta. split; [reflexivity|].
  destruct (defaults_trail_the_encoded_primitives "Pkt" []) as [_ H].
  destruct (H (ProtocolStructure.parseChildren "Pkt"
                 [Some (Samples.data "d" (Samples.defaulted "0"))])
              (Samples.data "x" Samples.plain)
              eq_refl eq_refl eq_refl eq_refl) as (H1 & H2 & _).
  split; [exact H1 | exact H2].
Defined.

(* ------------------------------------------------------------------ *)
(** ** Packets: the generated decode functions *)
(* ------------------------------------------------------------------ *)

Section DecodeFunctions.

Import ProtocolPacket.

Context `{Collaborators}.



End DecodeFunctions.



(* ------------------------------------------------------------------ *)
(** ** Packets: verification before the payload *)
(* ------------------------------------------------------------------ *)

(** C2, as stated, fails: the decode function generated for the empty packet
    [<Packet name="Ping" ID="0x01"/>] compares the identifier and nothing
    else; no text of the source file mentions [numBytes]. *)
Lemma empty_packet_decode_has_no_size_check :
  let p := Samples.packetOf Samples.ping in
  let src := ProtocolPacket.source
               (@ProtocolPacket.createPacketFunctions Samples.texts p) in
  ProtocolPacket.encodables p = [] /\
  mentions "PacketID(pkt) != " src = true /\
  mentions "numBytes" src = false /\
  ~ In (ProtocolPacket.write ("    if(numBytes < getPingMinDataLength())" +:+ LF))
       src.
Proof.
  cbn zeta. split; [reflexivity|]. split; [reflexivity|]. split; [reflexivity|].
  vm_compute. intuition discriminate.
Qed.

(** C2, amended.  For a packet with at least one encoded child, the decode
    function of either interface first verifies the packet identifier, then
    that [numBytes] is at least the minimum data length, each verification
    returning 0 on failure; only after both comes what reads the payload
    (default assignments and field decodes), and the function ends with
    [return 1].  For a packet without encoded child the decode function
    verifies the identifier only: it returns 0 when it differs and 1
    otherwise. *)
Theorem decode_verifies_before_payload
    `{ProtocolPacket.Collaborators} (p : ProtocolPacket.t) :
  let idCheck :=
    [ ProtocolPacket.write
        ("    if(get" +:+ ProtocolPacket.protoName p +:+ "PacketID(pkt) != get"
         +:+ ProtocolPacket.prefix p +:+ ProtocolPacket.name p
         +:+ "PacketID())" +:+ LF);
      ProtocolPacket.write ("        return 0;" +:+ LF) ] in
  let sizeCheck :=
    [ ProtocolPacket.write
        ("    if(numBytes < get" +:+ ProtocolPacket.prefix p
         +:+ ProtocolPacket.name p +:+ "MinDataLength())" +:+ LF);
      ProtocolPacket.write ("        return 0;" +:+ LF) ] in
  let returnOne :=
    [ ProtocolPacket.makeLineSeparator;
      ProtocolPacket.write ("    return 1;" +:+ LF);
      ProtocolPacket.write ("}" +:+ LF) ] in
  (0 < ProtocolPacket.getNumberOfEncodes p ->
     ProtocolPacket.source (ProtocolPacket.createStructurePacketFunctions p) =
       ProtocolPacket.structureEncodeFunction p
       ++ ProtocolPacket.structureDecodeHead p
       ++ [ ProtocolPacket.write LF;
            ProtocolPacket.write ("    // Verify the packet identifier" +:+ LF) ]
       ++ idCheck
       ++ [ ProtocolPacket.write LF;
            ProtocolPacket.write ("    // Verify the packet size" +:+ LF);
            ProtocolPacket.write
              ("    numBytes = get" +:+ ProtocolPacket.protoName p
               +:+ "PacketSize(pkt);" +:+ LF) ]
       ++ sizeCheck
       ++ [ ProtocolPacket.write LF;
            ProtocolPacket.write ("    // The raw data from the packet" +:+ LF);
            ProtocolPacket.write
              ("    data = get" +:+ ProtocolPacket.protoName p
               +:+ "PacketDataConst(pkt);" +:+ LF);
            ProtocolPacket.makeLineSeparator ]
       ++ ProtocolPacket.structurePayload p
       ++ returnOne /\
     ProtocolPacket.source (ProtocolPacket.createPacketFunctions p) =
       ProtocolPacket.parameterEncodeFunction p
       ++ ProtocolPacket.parameterDecodeHead p
       ++ [ ProtocolPacket.write ("    int byteindex = 0;" +:+ LF);
            ProtocolPacket.write
              ("    const uint8_t* data = get" +:+ ProtocolPacket.protoName p
               +:+ "PacketDataConst(pkt);" +:+ LF);
            ProtocolPacket.write
              ("    int numBytes = get" +:+ ProtocolPacket.protoName p
               +:+ "PacketSize(pkt);" +:+ LF);
            ProtocolPacket.write LF ]
       ++ idCheck
       ++ [ ProtocolPacket.write LF ]
       ++ sizeCheck
       ++ ProtocolPacket.parameterPayload p
       ++ returnOne) /\
  (ProtocolPacket.getNumberOfEncodes p <= 0 ->
     let identifierOnly :=
       [ ProtocolPacket.write ("{" +:+ LF) ] ++ idCheck
       ++ [ ProtocolPacket.write ("    else" +:+ LF);
            ProtocolPacket.write ("        return 1;" +:+ LF);
            ProtocolPacket.write ("}" +:+ LF) ] in
     ProtocolPacket.source (ProtocolPacket.createStructurePacketFunctions p) =
       ProtocolPacket.zeroLengthEncodeFunction
         ("void encode" +:+ ProtocolPacket.prefix p +:+ ProtocolPacket.name p
          +:+ "PacketStructure(void* pkt)") p
       ++ ProtocolPacket.identifierOnlyDecodeComment p
       ++ [ ProtocolPacket.write
              (("int decode" +:+ ProtocolPacket.prefix p +:+ ProtocolPacket.name p
                +:+ "PacketStructure(const void* pkt)") +:+ LF) ]
       ++ identifierOnly /\
     ProtocolPacket.source (ProtocolPacket.createPacketFunctions p) =
       ProtocolPacket.zeroLengthEncodeFunction
         (ProtocolPacket.getPacketEncodeSignature p) p
       ++ ProtocolPacket.identifierOnlyDecodeComment p
       ++ [ ProtocolPacket.write
              (ProtocolPacket.getPacketDecodeSignature p +:+ LF) ]
       ++ identifierOnly).
Proof.
  cbn zeta. split.
  - intros Henc. apply Z.ltb_lt in Henc.
    unfold ProtocolPacket.createStructurePacketFunctions,
      ProtocolPacket.createPacketFunctions. rewrite Henc.
    cbn [ProtocolPacket.source ProtocolPacket.andThen ProtocolPacket.toHeader
         ProtocolPacket.toSource app].
    rewrite app_nil_r.
    unfold ProtocolPacket.structureDecodeFunction,
      ProtocolPacket.parameterDecodeFunction.
    split; reflexivity.
  - intros Henc. apply Z.ltb_ge in Henc.
    unfold ProtocolPacket.createStructurePacketFunctions,
      ProtocolPacket.createPacketFunctions. rewrite Henc.
    cbn [ProtocolPacket.source ProtocolPacket.andThen ProtocolPacket.toHeader
         ProtocolPacket.toSource app].
    unfold ProtocolPacket.identifierOnlyDecodeFunction.
    split; reflexivity.
Qed.

Lemma decode_verifies_before_payload_witness :
  let p := Samples.packetOf Samples.ping in
  ProtocolPacket.getNumberOfEncodes p <= 0 /\
  exists before,
    ProtocolPacket.source (@ProtocolPacket.createPacketFunctions Samples.texts p) =
      before
      ++ [ ProtocolPacket.write ("int decodePingPacket(const void* pkt)" +:+ LF) ]
      ++ [ ProtocolPacket.write ("{" +:+ LF);
           ProtocolPacket.write
             ("    if(getDemoPacketID(pkt) != getPingPacketID())" +:+ LF);
           ProtocolPacket.write ("        return 0;" +:+ LF);
           ProtocolPacket.write ("    else" +:+ LF);
           ProtocolPacket.write ("        return 1;" +:+ LF);
           ProtocolPacket.write ("}" +:+ LF) ].
Proof.
  cbn zeta. split; [discriminate|].
  destruct (@decode_verifies_before_payload Samples.texts
              (Samples.packetOf Samples.ping)) as [_ Hzero].
  assert (ProtocolPacket.getNumberOfEncodes (Samples.packetOf Samples.ping)
          <= 0) as Hnone by discriminate.
  specialize (Hzero Hnone). cbn zeta in Hzero. destruct Hzero as [_ HP].
  exists (@ProtocolPacket.zeroLengthEncodeFunction Samples.texts
            (@ProtocolPacket.getPacketEncodeSignature Samples.texts
               (Samples.packetOf Samples.ping))
            (Samples.packetOf Samples.ping)
          ++ @ProtocolPacket.identifierOnlyDecodeComment Samples.texts
               (Samples.packetOf Samples.ping)).
  rewrite HP, <- app_assoc. reflexivity.
Defined.

(* ------------------------------------------------------------------ *)
(** ** Packets: the choice of the interfaces *)
(* ------------------------------------------------------------------ *)

Section Interfaces.

Import ProtocolPacket.

Context `{Collaborators}.

Lemma nothing_andThen (f : Files) : andThen nothing f = f.
Proof. by destruct f. Qed.

Lemma andThen_nothing (f : Files) : andThen f nothing = f.
Proof. destruct f. unfold andThen. cbn. by rewrite !app_nil_r. Qed.

Lemma andThen_assoc (a b c : Files) :
  andThen a (andThen b c) = andThen (andThen a b) c.
Proof. unfold andThen. cbn. by rewrite !app_assoc. Qed.

(** [parse] writes, in this order, the top of the two files, the functions
    of the nested structures, the functions of the chosen interfaces, and
    the utility functions. *)
Lemma parse_files protocolName protocolPrefix supported bigendian
    headerAppending sourceAppending e :
  let p := structureOf protocolName protocolPrefix supported bigendian e in
  exists top bottom,
    snd (fst (parse protocolName protocolPrefix supported bigendian
                headerAppending sourceAppending e)) =
      andThen (andThen (andThen top (createSubStructureFunctions p))
                 (interfaceFunctions e p)) bottom.
Proof.
  cbn zeta. unfold parse, structureOf.
  destruct (ProtocolStructure_parse protocolName protocolPrefix supported
              bigendian e) as [p0 out1].
  cbn [fst].
  destruct (rejectArrayAndDependsOn p0) as [p out2]. cbn [fst].
  destruct (chooseInterfaces e p) as [sf pf] eqn:Hc.
  destruct (createUtilityFunctions e p) as [p' utility]. cbn [fst snd].
  match goal with
  | |- exists _ _,
         andThen (andThen (andThen (andThen (andThen
           (andThen (andThen ?t ?sub) ?fns) ?u) ?a) ?b) ?c) ?d = _ =>
      exists t, (andThen (andThen (andThen (andThen u a) b) c) d)
  end.
  by rewrite !andThen_assoc.
Qed.

(** Each child that is an encodable ends up in [encodables], whatever
    else happens to it. *)
Lemma child_length n st made :
  length (ProtocolStructure.encodables (ProtocolStructure.child n st made)) =
    (length (ProtocolStructure.encodables st)
     + match made with Some _ => 1 | None => 0 end)%nat.
Proof.
  destruct made as [c|]; [|cbn; lia].
  destruct (Encodable.isNotEncoded c) eqn:Hc.
  - cbn [ProtocolStructure.child]. rewrite Hc. cbn.
    rewrite length_app. cbn. lia.
  - destruct (child_encoded n st c Hc) as (sib & e4 & more & -> & _ & _ & Hv).
    destruct (Hv unit (fun _ => tt)) as [Hsib _]; [done|done|].
    apply (f_equal (@length unit)) in Hsib. rewrite !length_map in Hsib.
    rewrite length_app, Hsib. cbn. f_equal.
    unfold ProtocolStructure.trackMetadata.
    destruct (Encodable.isPrimitive c); [|done].
    destruct (Encodable.usesDefaults c); [done|].
    destruct (ProtocolStructure.defaults st); [|done].
    cbn. by rewrite length_map.
Qed.

Lemma parseChildrenFrom_length n l st :
  length (ProtocolStructure.encodables
            (ProtocolStructure.parseChildrenFrom n st l)) =
    (length (ProtocolStructure.encodables st)
     + length (flat_map
                 (fun made => match made with Some c => [c] | None => [] end)
                 l))%nat.
Proof.
  revert st. induction l as [|made l IH]; intros st; [cbn; lia|].
  change (ProtocolStructure.parseChildrenFrom n st (made :: l))
    with (ProtocolStructure.parseChildrenFrom n
            (ProtocolStructure.child n st made) l).
  rewrite IH, child_length. cbn [flat_map]. rewrite length_app.
  destruct made; cbn; lia.
Qed.

Lemma structureOf_length protocolName protocolPrefix supported bigendian e :
  length (encodables
            (structureOf protocolName protocolPrefix supported bigendian e)) =
    length (encodableChildren e).
Proof.
  unfold structureOf, ProtocolStructure_parse, encodableChildren.
  destruct (QString.isEmpty (attribute e "array")
            && negb (QString.isEmpty (attribute e "variableArray")));
    destruct (negb (QString.isEmpty (attribute e "dependsOn")) && _);
    cbn; apply parseChildrenFrom_length.
Qed.

(** The source of [createStructurePacketFunctions] defines the structure
    encode and decode functions. *)
Lemma structure_functions_defined p :
  let src := source (createStructurePacketFunctions p) in
  (In (write ("void encode" +:+ prefix p +:+ name p
              +:+ "PacketStructure(void* pkt, const " +:+ typeName p
              +:+ "* user)" +:+ LF)) src \/
   In (write (("void encode" +:+ prefix p +:+ name p
               +:+ "PacketStructure(void* pkt)") +:+ LF)) src) /\
  (In (write ("int decode" +:+ prefix p +:+ name p
              +:+ "PacketStructure(const void* pkt, " +:+ typeName p
              +:+ "* user)" +:+ LF)) src \/
   In (write (("int decode" +:+ prefix p +:+ name p
               +:+ "PacketStructure(const void* pkt)") +:+ LF)) src).
Proof.
  cbn zeta. unfold createStructurePacketFunctions.
  destruct (0 <? getNumberOfEncodes p).
  - cbn [source andThen toHeader toSource app]. rewrite app_nil_r.
    unfold structureEncodeFunction, structureDecodeFunction,
      structureDecodeHead.
    split.
    + destruct (0 <? getNumberOfNonConstEncodes p); [left|right];
        rewrite !in_app_iff; cbn [In]; tauto.
    + left. rewrite !in_app_iff. cbn [In]. tauto.
  - cbn [source toSource].
    unfold zeroLengthEncodeFunction, identifierOnlyDecodeFunction.
    split; right; rewrite !in_app_iff; cbn [In]; tauto.
Qed.

(** The source of [createPacketFunctions] defines the parameter encode and
    decode functions. *)
Lemma parameter_functions_defined p :
  let src := source (createPacketFunctions p) in
  In (write (getPacketEncodeSignature p +:+ LF)) src /\
  In (write (getPacketDecodeSignature p +:+ LF)) src.
Proof.
  cbn zeta. unfold createPacketFunctions.
  destruct (0 <? getNumberOfEncodes p);
    cbn [source andThen toHeader toSource app].
  - unfold parameterEncodeFunction, parameterDecodeFunction,
      parameterDecodeHead.
    split; rewrite !in_app_iff; cbn [In]; tauto.
  - unfold zeroLengthEncodeFunction, identifierOnlyDecodeFunction.
    split; rewrite !in_app_iff; cbn [In]; tauto.
Qed.

End Interfaces.

(** C8.  When neither [structureInterface] nor [parameterInterface] contains
    "true", exactly one interface is chosen by the number of children that are
    encodables: the parameter interface for none or one, the structure
    interface for two or more, and only the functions of that interface are
    written.  With no child the source holds an encode function whose body
    is the single call [finish<Proto>Packet(pkt, 0, get<Name>PacketID())]
    and a decode function whose body only compares the packet identifier. *)
Theorem default_interface_by_number_of_children
    `{ProtocolPacket.Collaborators}
    (protocolName protocolPrefix : string)
    (supported : ProtocolPacket.ProtocolSupport) (bigendian : bool)
    (e : ProtocolPacket.element) :
  QString.containsCI (ProtocolPacket.attribute e "structureInterface") "true"
    = false ->
  QString.containsCI (ProtocolPacket.attribute e "parameterInterface") "true"
    = false ->
  let p := ProtocolPacket.structureOf protocolName protocolPrefix supported
             bigendian e in
  let n := length (ProtocolPacket.encodableChildren e) in
  ProtocolPacket.chooseInterfaces e p =
    (if (n <=? 1)%nat then (false, true) else (true, false)) /\
  ProtocolPacket.interfaceFunctions e p =
    (if (n <=? 1)%nat then ProtocolPacket.createPacketFunctions p
     else ProtocolPacket.createStructurePacketFunctions p) /\
  (n = 0%nat ->
   ProtocolPacket.source (ProtocolPacket.interfaceFunctions e p) =
     [ ProtocolPacket.makeLineSeparator;
       ProtocolPacket.write ("/*!" +:+ LF);
       ProtocolPacket.write
         (" * \brief " +:+ ProtocolPacket.getPacketEncodeBriefComment p +:+ LF);
       ProtocolPacket.write (" *" +:+ LF);
       ProtocolPacket.write
         (ProtocolPacket.outputLongComment " *" (ProtocolPacket.comment p) +:+ LF);
       ProtocolPacket.write
         (" * \param pkt points to the packet which will be created by this function" +:+ LF);
       ProtocolPacket.write (" */" +:+ LF);
       ProtocolPacket.write
         (("void encode" +:+ ProtocolPacket.prefix p +:+ ProtocolPacket.name p
           +:+ "Packet(void* pkt)") +:+ LF);
       ProtocolPacket.write ("{" +:+ LF);
       ProtocolPacket.write ("    // create a zero length packet" +:+ LF);
       ProtocolPacket.write
         ("    finish" +:+ ProtocolPacket.protoName p +:+ "Packet(pkt, 0, get"
          +:+ ProtocolPacket.prefix p +:+ ProtocolPacket.name p
          +:+ "PacketID());" +:+ LF);
       ProtocolPacket.write ("}" +:+ LF);
       ProtocolPacket.write LF;
       ProtocolPacket.write ("/*!" +:+ LF);
       ProtocolPacket.write
         (" * \brief " +:+ ProtocolPacket.getPacketDecodeBriefComment p +:+ LF);
       ProtocolPacket.write (" *" +:+ LF);
       ProtocolPacket.write
         (ProtocolPacket.outputLongComment " *" (ProtocolPacket.comment p) +:+ LF);
       ProtocolPacket.write
         (" * \param pkt points to the packet being decoded by this function" +:+ LF);
       ProtocolPacket.write
         (" * \return 0 is returned if the packet ID is wrong, else 1" +:+ LF);
       ProtocolPacket.write (" */" +:+ LF);
       ProtocolPacket.write
         (("int decode" +:+ ProtocolPacket.prefix p +:+ ProtocolPacket.name p
           +:+ "Packet(const void* pkt)") +:+ LF);
       ProtocolPacket.write ("{" +:+ LF);
       ProtocolPacket.write
         ("    if(get" +:+ ProtocolPacket.protoName p +:+ "PacketID(pkt) != get"
          +:+ ProtocolPacket.prefix p +:+ ProtocolPacket.name p
          +:+ "PacketID())" +:+ LF);
       ProtocolPacket.write ("        return 0;" +:+ LF);
       ProtocolPacket.write ("    else" +:+ LF);
       ProtocolPacket.write ("        return 1;" +:+ LF);
       ProtocolPacket.write ("}" +:+ LF) ]).
Proof.
  intros Hs Hp p n.
  assert (length (ProtocolPacket.encodables p) = n) as Hlen
    by apply structureOf_length.
  assert (ProtocolPacket.chooseInterfaces e p =
            (if (n <=? 1)%nat then (false, true) else (true, false))) as Hc.
  { unfold ProtocolPacket.chooseInterfaces. rewrite Hs, Hp, Hlen. cbn [negb andb].
    destruct n as [|[|n]]; [reflexivity | reflexivity |].
    replace (Z.of_nat (S (S n)) <=? 0) with false
      by (symmetry; apply Z.leb_gt; lia).
    replace (Z.of_nat (S (S n)) <=? 1) with false
      by (symmetry; apply Z.leb_gt; lia).
    reflexivity. }
  split; [exact Hc|].
  assert (ProtocolPacket.interfaceFunctions e p =
            (if (n <=? 1)%nat then ProtocolPacket.createPacketFunctions p
             else ProtocolPacket.createStructurePacketFunctions p)) as Hf.
  { unfold ProtocolPacket.interfaceFunctions. rewrite Hc, Hlen.
    destruct (n <=? 1)%nat eqn:Hn.
    - apply nothing_andThen.
    - apply Nat.leb_gt in Hn.
      replace (0 <? Z.of_nat n) with true by (symmetry; apply Z.ltb_lt; lia).
      apply andThen_nothing. }
  split; [exact Hf|].
  intros Hn. rewrite Hf, Hn. cbn [Nat.leb].
  rewrite Hn in Hlen. apply length_zero_iff_nil in Hlen.
  unfold ProtocolPacket.createPacketFunctions,
    ProtocolPacket.getNumberOfEncodes, ProtocolPacket.getPacketEncodeSignature,
    ProtocolPacket.getPacketDecodeSignature.
  rewrite Hlen. reflexivity.
Qed.

Lemma default_interface_by_number_of_children_witness :
  let p := Samples.packetOf Samples.ping in
  ProtocolPacket.chooseInterfaces Samples.ping p = (false, true) /\
  @ProtocolPacket.interfaceFunctions Samples.texts Samples.ping p =
    @ProtocolPacket.createPacketFunctions Samples.texts p.
Proof.
  destruct (@default_interface_by_number_of_children Samples.texts
              "Demo" "" Samples.noSupport true Samples.ping eq_refl eq_refl)
    as (Hc & Hf & _).
  split; [exact Hc | exact Hf].
Defined.

(** C10.  When both [structureInterface] and [parameterInterface] contain
    "true" and at least one child is an encodable, both interfaces are
    chosen and [parse] writes the functions of both into the same header
    and source file: first the structure encode and decode functions, then
    the parameter encode and decode functions. *)
Theorem both_interfaces_in_one_module
    `{ProtocolPacket.Collaborators}
    (protocolName protocolPrefix : string)
    (supported : ProtocolPacket.ProtocolSupport) (bigendian : bool)
    (headerAppending sourceAppending : bool)
    (e : ProtocolPacket.element) :
  QString.containsCI (ProtocolPacket.attribute e "structureInterface") "true"
    = true ->
  QString.containsCI (ProtocolPacket.attribute e "parameterInterface") "true"
    = true ->
  ProtocolPacket.encodableChildren e <> [] ->
  let p := ProtocolPacket.structureOf protocolName protocolPrefix supported
             bigendian e in
  let files := snd (fst (ProtocolPacket.parse protocolName protocolPrefix
                           supported bigendian headerAppending sourceAppending
                           e)) in
  let src := ProtocolPacket.source files in
  ProtocolPacket.chooseInterfaces e p = (true, true) /\
  (exists top bottom,
     files =
       ProtocolPacket.andThen
         (ProtocolPacket.andThen
            (ProtocolPacket.andThen
               (ProtocolPacket.andThen top
                  (ProtocolPacket.createSubStructureFunctions p))
               (ProtocolPacket.createStructurePacketFunctions p))
            (ProtocolPacket.createPacketFunctions p))
         bottom) /\
  (In (ProtocolPacket.write
         ("void encode" +:+ ProtocolPacket.prefix p +:+ ProtocolPacket.name p
          +:+ "PacketStructure(void* pkt, const " +:+ ProtocolPacket.typeName p
          +:+ "* user)" +:+ LF)) src \/
   In (ProtocolPacket.write
         (("void encode" +:+ ProtocolPacket.prefix p +:+ ProtocolPacket.name p
           +:+ "PacketStructure(void* pkt)") +:+ LF)) src) /\
  (In (ProtocolPacket.write
         ("int decode" +:+ ProtocolPacket.prefix p +:+ ProtocolPacket.name p
          +:+ "PacketStructure(const void* pkt, " +:+ ProtocolPacket.typeName p
          +:+ "* user)" +:+ LF)) src \/
   In (ProtocolPacket.write
         (("int decode" +:+ ProtocolPacket.prefix p +:+ ProtocolPacket.name p
           +:+ "PacketStructure(const void* pkt)") +:+ LF)) src) /\
  In (ProtocolPacket.write (ProtocolPacket.getPacketEncodeSignature p +:+ LF))
    src /\
  In (ProtocolPacket.write (ProtocolPacket.getPacketDecodeSignature p +:+ LF))
    src.
Proof.
  intros Hs Hp Hne p files src.
  assert (length (ProtocolPacket.encodables p) <> 0%nat) as Hlen.
  { unfold p. rewrite structureOf_length. by destruct (ProtocolPacket.encodableChildren e). }
  assert (ProtocolPacket.chooseInterfaces e p = (true, true)) as Hc.
  { unfold ProtocolPacket.chooseInterfaces. rewrite Hs, Hp.
    replace (Z.of_nat (length (ProtocolPacket.encodables p)) <=? 0) with false
      by (symmetry; apply Z.leb_gt; lia).
    reflexivity. }
  assert (ProtocolPacket.interfaceFunctions e p =
            ProtocolPacket.andThen
              (ProtocolPacket.createStructurePacketFunctions p)
              (ProtocolPacket.createPacketFunctions p)) as Hf.
  { unfold ProtocolPacket.interfaceFunctions. rewrite Hc.
    replace (0 <? Z.of_nat (length (ProtocolPacket.encodables p))) with true
      by (symmetry; apply Z.ltb_lt; lia).
    reflexivity. }
  destruct (parse_files protocolName protocolPrefix supported bigendian
              headerAppending sourceAppending e) as (top & bottom & Hfiles).
  cbn zeta in Hfiles. fold p in Hfiles. fold files in Hfiles.
  rewrite Hf, andThen_assoc in Hfiles.
  split; [exact Hc|]. split; [by exists top, bottom|].
  assert (forall x,
            In x (ProtocolPacket.source
                    (ProtocolPacket.createStructurePacketFunctions p)) \/
            In x (ProtocolPacket.source
                    (ProtocolPacket.createPacketFunctions p)) ->
            In x src) as Hin.
  { intros x Hx. unfold src. rewrite Hfiles.
    cbn [ProtocolPacket.source ProtocolPacket.andThen].
    rewrite !in_app_iff. tauto. }
  destruct (structure_functions_defined p) as [[He|He] [Hd|Hd]];
    destruct (parameter_functions_defined p) as [Hpe Hpd];
    repeat split; auto.
Qed.

Lemma both_interfaces_in_one_module_witness :
  let p := Samples.packetOf Samples.echoBoth in
  let files := snd (fst (@ProtocolPacket.parse Samples.texts "Demo" ""
                           Samples.noSupport true false false
                           Samples.echoBoth)) in
  ProtocolPacket.encodableChildren Samples.echoBoth <> [] /\
  In (ProtocolPacket.write ("void encodeEchoPacket(void* pkt, uint32_t n)" +:+ LF))
    (ProtocolPacket.source files) /\
  In (ProtocolPacket.write ("int decodeEchoPacket(const void* pkt, uint32_t* n)" +:+ LF))
    (ProtocolPacket.source files).
Proof.
  cbn zeta. split; [discriminate|].
  destruct (@both_interfaces_in_one_module Samples.texts "Demo" ""
              Samples.noSupport true false false Samples.echoBoth
              eq_refl eq_refl ltac:(discriminate))
    as (_ & _ & _ & _ & He & Hd).
  split; [exact He | exact Hd].
Defined.

(* ------------------------------------------------------------------ *)
(** ** The driver: exit codes *)
(* ------------------------------------------------------------------ *)

(** When the input file cannot be opened, or is not well-formed XML, [main]
    returns 0, the parser is not run and no directory is made: nothing but
    the message is written. *)
Lemma unreadable_input_exits_with_0 (w : Main.world) (arguments : list string) :
  let o := Main.readArguments arguments in
  (1 < length arguments)%nat ->
  QString.isEmpty (Main.filename o) = false ->
  Main.open w (Main.filename o) = false \/
  Main.setContent w (Main.filename o) = false ->
  fst (Main.main w arguments) = 0 /\
  Main.onlyPrints (snd (Main.main w arguments)) = true.
Proof.
  intros o Hlen Hname Hbad. unfold Main.main.
  replace (Z.of_nat (length arguments) <=? 1) with false
    by (symmetry; apply Z.leb_gt; lia).
  fold o. rewrite Hname. cbn [negb].
  destruct (Main.open w (Main.filename o)); [|done].
  destruct Hbad as [Hbad|Hbad]; [done|]. by rewrite Hbad.
Qed.

(** Whatever [ProtocolParser::parse] returns, [main] returns 1 once the file
    was opened and read. *)
Lemma parser_result_is_ignored (w : Main.world) (arguments : list string) :
  let o := Main.readArguments arguments in
  (1 < length arguments)%nat ->
  QString.isEmpty (Main.filename o) = false ->
  Main.open w (Main.filename o) = true ->
  Main.setContent w (Main.filename o) = true ->
  fst (Main.main w arguments) = 1.
Proof.
  intros o Hlen Hname Hopen Hxml. unfold Main.main.
  replace (Z.of_nat (length arguments) <=? 1) with false
    by (symmetry; apply Z.leb_gt; lia).
  fold o. rewrite Hname, Hopen, Hxml. cbn [negb fst].
  by destruct (Main.parserParse _ _ _ _ _).
Qed.

(** C9 at the failing input.  [ProtoGen protocol.xml] on a readable,
    well-formed file for which the parser returns [false]: the parser is
    run, and [main] returns 1, the value it returns on success. *)
Theorem exit_code_1_when_parser_fails :
  Main.main Samples.parserFails ["ProtoGen"; "protocol.xml"] =
    (1, [ Main.runParser "protocol.xml" false false false;
          Main.close "protocol.xml" ]).
Proof. reflexivity. Qed.

(* ------------------------------------------------------------------ *)
(** ** Strings as the generators build them *)
(* ------------------------------------------------------------------ *)

Section StringFacts.

Import EnumCreatorOutput.

Lemma append_cons (c : ascii) (s t : string) :
  String c s +:+ t = String c (s +:+ t).
Proof. reflexivity. Qed.

Lemma append_nil_r (s : string) : s +:+ EmptyString = s.
Proof. induction s as [|c s IH]; [done|]. by rewrite append_cons, IH. Qed.

Lemma append_assoc (s t u : string) : (s +:+ t) +:+ u = s +:+ (t +:+ u).
Proof. induction s as [|c s IH]; [done|]. by rewrite !append_cons, IH. Qed.

Lemma length_append (s t : string) : length (s +:+ t) = length s + length t.
Proof.
  unfold length. induction s as [|c s IH]; [done|].
  rewrite append_cons. cbn [String.length]. lia.
Qed.

Lemma length_nonneg (s : string) : 0 <= length s.
Proof. unfold length. lia. Qed.

Lemma length_times (n : nat) (s : string) :
  length (times n s) = Z.of_nat n * length s.
Proof.
  induction n as [|n IH]; [done|].
  cbn [times]. rewrite length_append, IH. lia.
Qed.

(** A string concatenation without separator, one string after the other. *)
Lemma concat_cons (r : string) (l : list string) :
  String.concat EmptyString (r :: l) = r +:+ String.concat EmptyString l.
Proof. destruct l; cbn; [by rewrite append_nil_r | done]. Qed.

Lemma spacedLoop_spec (fuel : nat) (output : string) (spacing : Z) :
  spacing - length output <= Z.of_nat fuel ->
  spacedLoop fuel output spacing =
    output +:+ times (Z.to_nat (spacing - length output)) " ".
Proof.
  revert output. induction fuel as [|fuel IH]; intros output Hfuel.
  - cbn. replace (Z.to_nat (spacing - length output)) with 0%nat by lia.
    by rewrite append_nil_r.
  - cbn [spacedLoop]. destruct (Z.ltb_spec (length output) spacing) as [Hlt|Hge].
    + rewrite IH by (rewrite length_append; unfold length at 2; cbn; lia).
      rewrite length_append. unfold length at 2. cbn [String.length].
      replace (Z.to_nat (spacing - length output))
        with (S (Z.to_nat (spacing - (length output + Z.of_nat 1)))) by lia.
      cbn [times]. by rewrite append_assoc.
    + replace (Z.to_nat (spacing - length output)) with 0%nat by lia.
      by rewrite append_nil_r.
Qed.

Lemma spacedString_spec (text : string) (spacing : Z) :
  spacedString text spacing =
    text +:+ times (Z.to_nat (spacing - length text)) " ".
Proof.
  unfold spacedString. apply spacedLoop_spec.
  pose proof (length_nonneg text). lia.
Qed.

Lemma length_spacedString (text : string) (spacing : Z) :
  length (spacedString text spacing) = Z.max (length text) spacing.
Proof.
  rewrite spacedString_spec, length_append, length_times.
  pose proof (length_nonneg text). unfold length at 3. cbn. lia.
Qed.

End StringFacts.

(** X1.  [spacedString] returns [text] followed by as many spaces as it
    takes to reach [spacing] characters, none when [text] is that long
    already: the result is [max (length text) spacing] characters long and
    [text] is never cut. *)
Theorem spacedString_pads_and_never_cuts (text : string) (spacing : Z) :
  let output := EnumCreatorOutput.spacedString text spacing in
  output =
    text +:+ EnumCreatorOutput.times
               (Z.to_nat (spacing - EnumCreatorOutput.length text)) " " /\
  EnumCreatorOutput.length output =
    Z.max (EnumCreatorOutput.length text) spacing.
Proof.
  cbn zeta. split; [apply spacedString_spec | apply length_spacedString].
Qed.

(* ------------------------------------------------------------------ *)
(** ** Enumerations: the declaration *)
(* ------------------------------------------------------------------ *)

Section EnumDeclaration.

Import EnumCreatorOutput EnumLayout.

Variable toUInt : string -> Z -> option Z.
Variable outputLongComment : string -> string -> string.

Lemma entry_fold (tags : list (option valueTag)) (st : entries) :
  let kept := List.filter named tags in
  let st' := fold_left entry tags st in
  nameList st' = nameList st ++ map tagName kept /\
  valueList st' = valueList st ++ map tagValue kept /\
  commentList st' = commentList st ++ map tagComment kept /\
  declarationList st' =
    declarationList st
    ++ map (fun tag => declarationOf (tagName tag) (tagValue tag)) kept /\
  maxLength st' =
    ResolverSpec.maximum (maxLength st)
      (map (fun tag => length (declarationOf (tagName tag) (tagValue tag)))
         kept).
Proof.
  revert st. induction tags as [|tag tags IH]; intros st; cbn zeta.
  - cbn. by rewrite !app_nil_r.
  - cbn [fold_left List.filter].
    destruct (IH (entry st tag)) as (H1 & H2 & H3 & H4 & H5).
    cbn zeta in H1, H2, H3, H4, H5. rewrite H1, H2, H3, H4, H5.
    clear IH H1 H2 H3 H4 H5.
    destruct tag as [field|]; cbn [entry named]; [|done].
    destruct (QString.isEmpty (valueName field)); cbn [negb]; [done|].
    cbn [nameList valueList commentList declarationList maxLength map
         tagName tagValue].
    rewrite <- !app_assoc, ltb_max, maximum_max. done.
Qed.

Lemma walk_length (l : list ResolverSpec.raw) (c : Z) (b : string) :
  List.length (ResolverSpec.walk c b l) = List.length l.
Proof.
  revert c b. induction l as [|r l IH]; intros c b; [done|].
  destruct r; cbn; by rewrite IH.
Qed.

Lemma computeNumberList_length (en : EnumCreator.t) :
  EnumCreator.numberList en = [] ->
  List.length (EnumCreator.numberList (EnumCreator.computeNumberList toUInt en))
  = List.length (EnumCreator.valueList en).
Proof.
  intros Hnil. rewrite computeNumberList_numberList, Hnil.
  unfold ResolverSpec.texts. cbn [app].
  by rewrite !length_map, walk_length, length_map.
Qed.

Lemma enumerator_fold (D C : list string) (w : Z) (len start : nat)
    (output : string) :
  (start + len <= List.length D)%nat ->
  (List.length D <= List.length C)%nat ->
  exists lines,
    fold_left (enumerator D C w) (seq start len) (Some output) =
      Some (output +:+ String.concat EmptyString lines) /\
    List.length lines = len /\
    forall j line, lines !! j = Some line ->
      exists d c, D !! (start + j)%nat = Some d /\
                  C !! (start + j)%nat = Some c /\
                  line = enumeratorLine (List.length D) w (start + j) d c.
Proof.
  revert start output. induction len as [|len IH]; intros start output HD HC.
  - exists []. cbn. by rewrite append_nil_r.
  - destruct (lookup_lt_is_Some_2 D start) as [d Hd]; [lia|].
    destruct (lookup_lt_is_Some_2 C start) as [c Hc]; [lia|].
    cbn [seq fold_left]. unfold enumerator at 2. cbn [mbind option_bind].
    rewrite Hd, Hc. cbn [mbind option_bind].
    fold (enumeratorLine (List.length D) w start d c).
    destruct (IH (S start) (output +:+ enumeratorLine (List.length D) w start d c))
      as (lines & Hfold & Hlen & Hlines); [lia | lia |].
    exists (enumeratorLine (List.length D) w start d c :: lines).
    split; [|split].
    + unfold enumeratorLine in Hfold |- *. rewrite Hfold.
      by rewrite concat_cons, !append_assoc.
    + cbn. by rewrite Hlen.
    + intros [|j] line Hj.
      * cbn in Hj. injection Hj as <-. exists d, c.
        by rewrite Nat.add_0_r.
      * cbn in Hj. destruct (Hlines j line Hj) as (d' & c' & H1 & H2 & H3).
        exists d', c'. by rewrite <- Nat.add_succ_comm.
Qed.

End EnumDeclaration.

Section EnumParse.

Import EnumCreatorOutput EnumLayout.

Variable toUInt : string -> Z -> option Z.
Variable outputLongComment : string -> string -> string.

(** [parse] on an element with at least one [Value] node, all loops run. *)
Lemma parse_some (e : element) :
  valueTags e <> [] ->
  let kept := List.filter named (valueTags e) in
  let declarations :=
    map (fun tag => declarationOf (tagName tag) (tagValue tag)) kept in
  let m := ResolverSpec.maximum 0 (map length declarations) in
  let w := int32 (int32 (m + 1) + (4 - Z.rem (int32 (m + 1)) 4)) in
  exists en lines,
    parse toUInt outputLongComment e = Some en /\
    EnumCreator.name en = enumName e /\
    EnumCreator.comment en = enumComment e /\
    EnumCreator.nameList en = map tagName kept /\
    EnumCreator.valueList en = map tagValue kept /\
    EnumCreator.commentList en = map tagComment kept /\
    List.length (EnumCreator.numberList en) = List.length kept /\
    EnumCreator.output en =
      (topComment outputLongComment (enumComment e)
       +:+ ("typedef enum" +:+ LF) +:+ ("{" +:+ LF)
       +:+ String.concat EmptyString lines)
      +:+ "}" +:+ enumName e +:+ (";" +:+ LF) /\
    lines =
      imap (fun i tag =>
              enumeratorLine (List.length kept) w i
                (declarationOf (tagName tag) (tagValue tag)) (tagComment tag))
        kept.
Proof.
  intros Hne kept declarations m w. unfold parse.
  assert ((Z.of_nat (List.length (valueTags e)) <=? 0) = false) as ->.
  { destruct (valueTags e); [done|]. cbn [List.length]. apply Z.leb_gt. lia. }
  destruct (entry_fold (valueTags e)
    {| nameList := []; valueList := []; commentList := [];
       declarationList := []; maxLength := 0 |}) as (H1 & H2 & H3 & H4 & H5).
  cbn zeta in H1, H2, H3, H4, H5. cbn [nameList valueList commentList
    declarationList maxLength app] in H1, H2, H3, H4, H5.
  fold kept in H1, H2, H3, H4, H5. fold declarations in H4.
  set (st := fold_left entry (valueTags e) _) in *.
  cbn [EnumCreator.computeNumberList EnumCreator.commentList
       EnumCreator.name EnumCreator.comment EnumCreator.nameList
       EnumCreator.valueList EnumCreator.minbitwidth EnumCreator.numberList].
  assert (maxLength st = m) as Hm.
  { rewrite H5. unfold m, declarations. by rewrite map_map. }
  rewrite Hm. fold w.
  destruct (enumerator_fold (declarationList st) (commentList st) w
              (List.length (declarationList st)) 0
              (topComment outputLongComment (enumComment e)
               +:+ ("typedef enum" +:+ LF) +:+ "{" +:+ LF))
    as (lines & Hfold & Hlen & Hlines).
  { lia. }
  { rewrite H3, H4. unfold declarations. by rewrite !length_map. }
  rewrite Hfold. cbn [mbind option_bind].
  eexists _, lines. split; [reflexivity|].
  cbn [EnumCreator.name EnumCreator.comment EnumCreator.nameList
       EnumCreator.valueList EnumCreator.commentList EnumCreator.numberList
       EnumCreator.output].
  repeat split; try done.
  - unfold EnumCreator.runLoop. cbn [EnumCreator.valueList EnumCreator.numberList].
    pose proof (computeNumberList_length toUInt
      {| EnumCreator.minbitwidth := 0; EnumCreator.name := enumName e;
         EnumCreator.comment := enumComment e;
         EnumCreator.output := topComment outputLongComment (enumComment e);
         EnumCreator.nameList := nameList st;
         EnumCreator.commentList := commentList st;
         EnumCreator.valueList := valueList st;
         EnumCreator.numberList := [] |} eq_refl) as Hn.
    cbn [EnumCreator.computeNumberList EnumCreator.numberList
         EnumCreator.valueList] in Hn.
    unfold EnumCreator.runLoop in Hn.
    cbn [EnumCreator.valueList EnumCreator.numberList] in Hn.
    rewrite Hn, H2. by rewrite length_map.
  - by rewrite !append_assoc.
  - apply list_eq. intros i.
    rewrite list_lookup_imap.
    destruct (lines !! i) as [line|] eqn:Hi.
    + destruct (Hlines i line Hi) as (d & c & Hd & Hc & ->).
      cbn [Nat.add] in Hd, Hc |- *.
      rewrite H4 in Hd |- *. rewrite H3 in Hc.
      unfold declarations in Hd |- *.
      rewrite length_map.
      rewrite list_lookup_fmap in Hd. rewrite list_lookup_fmap in Hc.
      destruct (kept !! i) as [tag|]; [|done].
      cbn in Hd, Hc |- *. by injection Hd as <-; injection Hc as <-.
    + apply lookup_ge_None in Hi. rewrite Hlen, H4 in Hi.
      unfold declarations in Hi. rewrite length_map in Hi.
      apply lookup_ge_None_2 in Hi. by rewrite Hi.
Qed.

End EnumParse.

Section EnumParseFacts.

Import EnumCreatorOutput EnumLayout.

Variable toUInt : string -> Z -> option Z.
Variable outputLongComment : string -> string -> string.

Lemma parse_none_tags (e : element) :
  valueTags e = [] ->
  parse toUInt outputLongComment e =
    Some {| EnumCreator.minbitwidth := 0;
            EnumCreator.name := enumName e;
            EnumCreator.comment := enumComment e;
            EnumCreator.output := EmptyString;
            EnumCreator.nameList := [];
            EnumCreator.commentList := [];
            EnumCreator.valueList := [];
            EnumCreator.numberList := [] |}.
Proof. intros Hnil. unfold parse. by rewrite Hnil. Qed.

Lemma int32_small (z : Z) : - 2 ^ 31 <= z < 2 ^ 31 -> int32 z = z.
Proof. intros Hz. unfold int32. rewrite Z.mod_small; lia. Qed.

Lemma maximum_upper (d b : Z) (l : list Z) :
  d <= b -> Forall (fun x => x <= b) l -> ResolverSpec.maximum d l <= b.
Proof.
  intros Hd Hl. unfold ResolverSpec.maximum.
  induction Hl as [|x l Hx Hl IH]; cbn; lia.
Qed.

Lemma maximum_member (d : Z) (l : list Z) (x : Z) :
  In x l -> x <= ResolverSpec.maximum d l.
Proof.
  unfold ResolverSpec.maximum.
  induction l as [|y l IH]; cbn; [done|]. intros [->|Hin]; [lia|].
  specialize (IH Hin). lia.
Qed.

Lemma length_declarationOf (name value : string) :
  4 + length name <= length (declarationOf name value)
    <= length name + length value + 7.
Proof.
  unfold declarationOf. rewrite !length_append.
  pose proof (length_nonneg value). change (length "    ") with 4.
  destruct (QString.isEmpty value); cbn [negb].
  - change (length EmptyString) with 0. lia.
  - rewrite length_append. change (length " = ") with 3. lia.
Qed.

(** The width [parse] pads to: the longest declaration, one more, then up
    to the next multiple of four. *)
Lemma padded_width (m : Z) :
  0 <= m < 2 ^ 31 - 8 ->
  let w := int32 (int32 (m + 1) + (4 - Z.rem (int32 (m + 1)) 4)) in
  w mod 4 = 0 /\ m + 2 <= w <= m + 5.
Proof.
  intros Hm. cbn zeta. rewrite (int32_small (m + 1)) by lia.
  rewrite Z.rem_mod_nonneg by lia.
  pose proof (Z.mod_pos_bound (m + 1) 4 ltac:(lia)) as Hr.
  rewrite int32_small by lia.
  split; [|lia].
  rewrite (Z.div_mod (m + 1) 4) at 1 by lia.
  replace (4 * ((m + 1) / 4) + (m + 1) mod 4 + (4 - (m + 1) mod 4))
    with ((1 + (m + 1) / 4) * 4) by lia.
  apply Z.mod_mul. lia.
Qed.

End EnumParseFacts.

(** X2.  [EnumCreator::parse] always runs to its end, no [at(i)] leaves
    its list, and it leaves the four lists of the enumeration with one
    entry per named [Value] tag each: [valueList], [commentList] and
    [numberList] are as long as [nameList], and no recorded name is
    empty. *)
Theorem parse_keeps_the_lists_parallel
    (toUInt : string -> Z -> option Z)
    (outputLongComment : string -> string -> string)
    (e : EnumCreatorOutput.element) :
  exists en,
    EnumCreatorOutput.parse toUInt outputLongComment e = Some en /\
    List.length (EnumCreator.valueList en) =
      List.length (EnumCreator.nameList en) /\
    List.length (EnumCreator.commentList en) =
      List.length (EnumCreator.nameList en) /\
    List.length (EnumCreator.numberList en) =
      List.length (EnumCreator.nameList en) /\
    Forall (fun name => name <> EmptyString) (EnumCreator.nameList en).
Proof.
  destruct (EnumCreatorOutput.valueTags e) as [|t ts] eqn:Htags.
  - eexists. split; [by apply parse_none_tags|]. cbn. by repeat split.
  - destruct (parse_some toUInt outputLongComment e) as
      (en & lines & Hp & _ & _ & Hn & Hv & Hc & Hnum & _); [by rewrite Htags|].
    exists en. split; [done|]. rewrite Hn, Hv, Hc, Hnum, !length_map.
    repeat split; try done.
    apply List.Forall_forall. intros name Hin.
    apply in_map_iff in Hin as (tag & <- & Hin).
    apply filter_In in Hin as [_ Hnamed].
    destruct tag as [field|]; [|done]. cbn in Hnamed |- *.
    by destruct (EnumCreatorOutput.valueName field).
Qed.

(** X3.  The declaration [parse] writes for an enumeration with at least
    one [Value] tag is the comment block, [typedef enum], one line for
    each named tag and the closing line with the name.  Each of these
    lines is the declaration, a comma (a space on the last line), spaces,
    and the comment marker, and the marker stands at the same column
    [w + 1] on every line, [w] a multiple of four. *)
Theorem enumerators_share_the_comment_column
    (toUInt : string -> Z -> option Z)
    (outputLongComment : string -> string -> string)
    (e : EnumCreatorOutput.element) :
  EnumCreatorOutput.valueTags e <> [] ->
  (forall field, In (Some field) (EnumCreatorOutput.valueTags e) ->
     EnumCreatorOutput.length (EnumCreatorOutput.valueName field)
     + EnumCreatorOutput.length (EnumCreatorOutput.valueValue field)
     < 2 ^ 31 - 16) ->
  exists en lines w,
    EnumCreatorOutput.parse toUInt outputLongComment e = Some en /\
    EnumCreator.output en =
      EnumCreatorOutput.topComment outputLongComment
        (EnumCreatorOutput.enumComment e)
      +:+ ("typedef enum" +:+ LF) +:+ ("{" +:+ LF)
      +:+ String.concat EmptyString lines
      +:+ "}" +:+ EnumCreatorOutput.enumName e +:+ (";" +:+ LF) /\
    List.length lines = List.length (EnumCreator.nameList en) /\
    w mod 4 = 0 /\
    forall i line, lines !! i = Some line ->
      exists name value comment cell spaces,
        EnumCreator.nameList en !! i = Some name /\
        EnumCreator.valueList en !! i = Some value /\
        EnumCreator.commentList en !! i = Some comment /\
        line = cell +:+ ("//!< " +:+ comment +:+ LF) /\
        cell =
          EnumLayout.declarationOf name value
          +:+ (if (S i =? List.length lines)%nat then " " else ",")
          +:+ EnumCreatorOutput.times spaces " " /\
        EnumCreatorOutput.length cell = w + 1.
Proof.
  intros Hne Hshort.
  destruct (parse_some toUInt outputLongComment e Hne) as
    (en & lines & Hp & _ & _ & Hn & Hv & Hc & _ & Hout & Hlines).
  cbn zeta in Hlines.
  set (kept := List.filter EnumLayout.named (EnumCreatorOutput.valueTags e)) in *.
  set (declarations :=
         map (fun tag => EnumLayout.declarationOf (EnumLayout.tagName tag)
                           (EnumLayout.tagValue tag)) kept) in *.
  set (m := ResolverSpec.maximum 0 (map EnumCreatorOutput.length declarations)) in *.
  set (w := int32 _) in *.
  assert (Forall (fun x => x <= 2 ^ 31 - 9)
            (map EnumCreatorOutput.length declarations)) as Hbound.
  { apply List.Forall_forall. intros x Hx.
    apply in_map_iff in Hx as (d & <- & Hd).
    apply in_map_iff in Hd as (tag & <- & Htag).
    apply filter_In in Htag as [Hin Hnamed].
    destruct tag as [field|]; [|done].
    pose proof (Hshort field Hin).
    pose proof (length_declarationOf (EnumCreatorOutput.valueName field)
                  (EnumCreatorOutput.valueValue field)).
    cbn [EnumLayout.tagName EnumLayout.tagValue]. lia. }
  assert (0 <= m < 2 ^ 31 - 8) as Hm.
  { split; [apply maximum_lower|].
    pose proof (maximum_upper 0 (2 ^ 31 - 9) _ ltac:(lia) Hbound). fold m in H. lia. }
  destruct (padded_width m Hm) as [Hmod Hw]. fold w in Hmod, Hw.
  exists en, lines, w. split; [done|]. split.
  { rewrite Hout. by rewrite !append_assoc. }
  assert (List.length lines = List.length kept) as Hlen
    by (by rewrite Hlines, length_imap).
  split; [by rewrite Hn, length_map, Hlen|]. split; [done|].
  intros i line Hi. rewrite Hlines, list_lookup_imap in Hi.
  destruct (kept !! i) as [tag|] eqn:Htag; [|done].
  cbn in Hi. injection Hi as <-.
  assert (EnumCreatorOutput.length
            (EnumLayout.declarationOf (EnumLayout.tagName tag)
               (EnumLayout.tagValue tag)) <= m) as Hd.
  { apply maximum_member. apply in_map. unfold declarations.
    apply in_map_iff. exists tag. split; [done|].
    apply list_elem_of_In, list_elem_of_lookup. eauto. }
  pose proof (length_nonneg
    (EnumLayout.declarationOf (EnumLayout.tagName tag)
       (EnumLayout.tagValue tag))) as Hd0.
  exists (EnumLayout.tagName tag), (EnumLayout.tagValue tag),
    (EnumLayout.tagComment tag).
  eexists _, _.
  rewrite Hn, Hv, Hc.
  change (map ?f kept) with (fmap (M:=list) f kept).
  rewrite !list_lookup_fmap, Htag. cbn [fmap option_fmap option_map].
  split; [done|]. split; [done|]. split; [done|].
  unfold EnumLayout.enumeratorLine.
  assert ((Z.of_nat i <? Z.of_nat (List.length kept) - 1)
          = negb (S i =? List.length lines)%nat) as ->.
  { rewrite Hlen. apply lookup_lt_Some in Htag.
    destruct (Nat.eqb_spec (S i) (List.length kept)); cbn [negb];
      [apply Z.ltb_ge | apply Z.ltb_lt]; lia. }
  split; [|split; [reflexivity|]].
  - rewrite !append_assoc. by destruct (S i =? List.length lines)%nat.
  - rewrite !length_append, length_times.
    change (EnumCreatorOutput.length " ") with 1.
    assert (EnumCreatorOutput.length
              (if (S i =? List.length lines)%nat then " " else ",") = 1) as ->
      by (by destruct (S i =? List.length lines)%nat).
    lia.
Qed.

Lemma enumerators_share_the_comment_column_witness :
  EnumCreatorOutput.valueTags MoreSamples.colours <> [] /\
  exists en (lines : list string) w,
    EnumCreatorOutput.parse Numeral.toUInt MoreSamples.longComment
      MoreSamples.colours = Some en /\
    List.length lines = List.length (EnumCreator.nameList en) /\
    w mod 4 = 0.
Proof.
  split; [discriminate|].
  destruct (enumerators_share_the_comment_column Numeral.toUInt
              MoreSamples.longComment MoreSamples.colours)
    as (en & lines & w & Hp & _ & Hlen & Hw & _).
  - discriminate.
  - intros field Hin. cbn in Hin.
    destruct Hin as [H|[H|[H|[H|[H|[]]]]]]; try discriminate H;
      injection H as <-; vm_compute; reflexivity.
  - exists en, lines, w. split; [exact Hp|]. split; [exact Hlen | exact Hw].
Defined.

(** X4.  [Value] tags without a name, and nodes that are no elements, are
    passed over by [parse]: two [Enum] elements with the same name and
    comment whose named tags agree give the same enumeration and the same
    declaration, as long as each has a [Value] node at all. *)
Theorem nameless_values_are_passed_over
    (toUInt : string -> Z -> option Z)
    (outputLongComment : string -> string -> string)
    (e e' : EnumCreatorOutput.element) :
  EnumCreatorOutput.enumName e = EnumCreatorOutput.enumName e' ->
  EnumCreatorOutput.enumComment e = EnumCreatorOutput.enumComment e' ->
  List.filter EnumLayout.named (EnumCreatorOutput.valueTags e) =
    List.filter EnumLayout.named (EnumCreatorOutput.valueTags e') ->
  EnumCreatorOutput.valueTags e <> [] ->
  EnumCreatorOutput.valueTags e' <> [] ->
  EnumCreatorOutput.parse toUInt outputLongComment e =
    EnumCreatorOutput.parse toUInt outputLongComment e'.
Proof.
  intros Hname Hcomment Hkept Hne Hne'. unfold EnumCreatorOutput.parse.
  assert ((Z.of_nat (List.length (EnumCreatorOutput.valueTags e)) <=? 0)
          = false) as ->.
  { destruct (EnumCreatorOutput.valueTags e); [done|].
    cbn [List.length]. apply Z.leb_gt. lia. }
  assert ((Z.of_nat (List.length (EnumCreatorOutput.valueTags e')) <=? 0)
          = false) as ->.
  { destruct (EnumCreatorOutput.valueTags e'); [done|].
    cbn [List.length]. apply Z.leb_gt. lia. }
  assert (fold_left EnumCreatorOutput.entry (EnumCreatorOutput.valueTags e)
            {| EnumCreatorOutput.nameList := [];
               EnumCreatorOutput.valueList := [];
               EnumCreatorOutput.commentList := [];
               EnumCreatorOutput.declarationList := [];
               EnumCreatorOutput.maxLength := 0 |}
          = fold_left EnumCreatorOutput.entry (EnumCreatorOutput.valueTags e')
              {| EnumCreatorOutput.nameList := [];
                 EnumCreatorOutput.valueList := [];
                 EnumCreatorOutput.commentList := [];
                 EnumCreatorOutput.declarationList := [];
                 EnumCreatorOutput.maxLength := 0 |}) as ->.
  { destruct (entry_fold (EnumCreatorOutput.valueTags e)
      {| EnumCreatorOutput.nameList := [];
         EnumCreatorOutput.valueList := [];
         EnumCreatorOutput.commentList := [];
         EnumCreatorOutput.declarationList := [];
         EnumCreatorOutput.maxLength := 0 |}) as (H1 & H2 & H3 & H4 & H5).
    destruct (entry_fold (EnumCreatorOutput.valueTags e')
      {| EnumCreatorOutput.nameList := [];
         EnumCreatorOutput.valueList := [];
         EnumCreatorOutput.commentList := [];
         EnumCreatorOutput.declarationList := [];
         EnumCreatorOutput.maxLength := 0 |}) as (H1' & H2' & H3' & H4' & H5').
    cbn zeta in *. rewrite <- Hkept in H1', H2', H3', H4', H5'.
    destruct (fold_left _ (EnumCreatorOutput.valueTags e) _),
             (fold_left _ (EnumCreatorOutput.valueTags e') _).
    cbn in *. congruence. }
  by rewrite Hname, Hcomment.
Qed.

Lemma nameless_values_are_passed_over_witness :
  EnumCreatorOutput.parse Numeral.toUInt MoreSamples.longComment
    MoreSamples.colours =
  EnumCreatorOutput.parse Numeral.toUInt MoreSamples.longComment
    MoreSamples.coloursNamed.
Proof.
  apply (nameless_values_are_passed_over Numeral.toUInt
           MoreSamples.longComment MoreSamples.colours
           MoreSamples.coloursNamed);
    [reflexivity | reflexivity | reflexivity | discriminate | discriminate].
Defined.

(** X5.  The declaration is empty exactly when the [Enum] element has no
    [Value] node: with a node, even a nameless one, [parse] writes the
    [typedef]. *)
Theorem declaration_is_empty_iff_no_value_node
    (toUInt : string -> Z -> option Z)
    (outputLongComment : string -> string -> string)
    (e : EnumCreatorOutput.element) :
  exists en,
    EnumCreatorOutput.parse toUInt outputLongComment e = Some en /\
    (EnumCreator.output en = EmptyString <->
     EnumCreatorOutput.valueTags e = []).
Proof.
  destruct (EnumCreatorOutput.valueTags e) as [|t ts] eqn:Htags.
  - eexists. split; [by apply parse_none_tags|]. done.
  - destruct (parse_some toUInt outputLongComment e) as
      (en & lines & Hp & _ & _ & _ & _ & _ & _ & Hout & _);
      [by rewrite Htags|].
    exists en. split; [done|]. split; [|done].
    intros Hempty. apply (f_equal EnumCreatorOutput.length) in Hempty.
    rewrite Hout, !length_append in Hempty.
    pose proof (length_nonneg
      (EnumCreatorOutput.topComment outputLongComment
         (EnumCreatorOutput.enumComment e))).
    pose proof (length_nonneg (String.concat EmptyString lines)).
    pose proof (length_nonneg (EnumCreatorOutput.enumName e)).
    change (EnumCreatorOutput.length "typedef enum") with 12 in Hempty.
    change (EnumCreatorOutput.length EmptyString) with 0 in Hempty.
    pose proof (length_nonneg LF). pose proof (length_nonneg "{").
    pose proof (length_nonneg "}"). pose proof (length_nonneg ";").
    lia.
Qed.

(* ------------------------------------------------------------------ *)
(** ** Enumerations: the documentation table *)
(* ------------------------------------------------------------------ *)

Section EnumMarkdown.

Import EnumCreatorOutput.

Variable en : EnumCreator.t.
Variable packetids : list string.




End EnumMarkdown.



Section EnumReplace.

Import EnumCreatorOutput.

Variable en : EnumCreator.t.

(** The entries [start .. start + len - 1] leave a text alone that none of
    them applies to. *)
Lemma replaceName_idle (text : string) (len start : nat) :
  (start + len <= List.length (EnumCreator.nameList en))%nat ->
  (start + len <= List.length (EnumCreator.valueList en))%nat ->
  (start + len <= List.length (EnumCreator.numberList en))%nat ->
  (forall j name value number, (start <= j < start + len)%nat ->
     EnumCreator.nameList en !! j = Some name ->
     EnumCreator.valueList en !! j = Some value ->
     EnumCreator.numberList en !! j = Some number ->
     name = EmptyString \/ value = number \/
     QString.contains text name = false) ->
  fold_left (replaceName en) (seq start len) (Some text) = Some text.
Proof.
  revert start. induction len as [|len IH]; intros start Hn Hv Hm Hidle;
    [done|].
  destruct (lookup_lt_is_Some_2 (EnumCreator.nameList en) start)
    as [name Hname]; [lia|].
  destruct (lookup_lt_is_Some_2 (EnumCreator.valueList en) start)
    as [value Hvalue]; [lia|].
  destruct (lookup_lt_is_Some_2 (EnumCreator.numberList en) start)
    as [number Hnumber]; [lia|].
  assert (forall j name value number, (S start <= j < S start + len)%nat ->
            EnumCreator.nameList en !! j = Some name ->
            EnumCreator.valueList en !! j = Some value ->
            EnumCreator.numberList en !! j = Some number ->
            name = EmptyString \/ value = number \/
            QString.contains text name = false) as Hrest.
  { intros j ? ? ? Hj. apply Hidle. lia. }
  cbn [seq fold_left]. unfold replaceName at 2. cbn [mbind option_bind].
  rewrite Hname. cbn [mbind option_bind].
  destruct (QString.isEmpty name) eqn:Hempty; [apply IH; auto; lia|].
  rewrite Hvalue, Hnumber. cbn [mbind option_bind].
  destruct (String.eqb_spec value number) as [Heq|Hne]; [apply IH; auto; lia|].
  destruct (Hidle start name value number ltac:(lia) Hname Hvalue Hnumber)
    as [->|[Heq|Hfree]]; [discriminate Hempty | done |].
  rewrite Hfree. apply IH; auto; lia.
Qed.

Lemma prefix_refl (s : string) : String.prefix s s = true.
Proof.
  induction s as [|c s IH]; [done|].
  cbn. destruct (ascii_dec c c); [exact IH | done].
Qed.

Lemma replaceFrom_skip_all (before after s : string) (skip : nat) :
  (String.length s <= skip)%nat -> replaceFrom before after skip s = EmptyString.
Proof.
  revert skip. induction s as [|c s IH]; intros skip Hskip; [done|].
  destruct skip as [|skip]; cbn [String.length] in Hskip; [lia|].
  cbn [replaceFrom]. apply IH. lia.
Qed.

Lemma replace_whole (name number : string) :
  name <> EmptyString -> replace name name number = number.
Proof.
  intros Hne. destruct name as [|c r]; [done|].
  unfold replace. cbn [replaceFrom]. rewrite prefix_refl.
  rewrite replaceFrom_skip_all by (cbn [String.length]; lia).
  apply append_nil_r.
Qed.

Lemma contains_refl (s : string) : QString.contains s s = true.
Proof.
  destruct s as [|c s]; [reflexivity|].
  cbn [QString.contains]. by rewrite prefix_refl.
Qed.

End EnumReplace.

(** X7.  [replaceEnumerationNameWithValue] returns the text as it is when
    the text contains none of the names of the enumeration (the lists of
    the enumeration being parallel, as [parse] leaves them). *)
Theorem text_without_enumerator_is_left_alone (en : EnumCreator.t)
    (text : string) :
  List.length (EnumCreator.valueList en) =
    List.length (EnumCreator.nameList en) ->
  List.length (EnumCreator.numberList en) =
    List.length (EnumCreator.nameList en) ->
  (forall name, In name (EnumCreator.nameList en) ->
     name <> EmptyString -> QString.contains text name = false) ->
  EnumCreatorOutput.replaceEnumerationNameWithValue en text = Some text.
Proof.
  intros Hv Hn Hfree. unfold EnumCreatorOutput.replaceEnumerationNameWithValue.
  apply replaceName_idle; [lia | lia | lia |].
  intros j name value number _ Hname _ _.
  destruct (String.eqb_spec name EmptyString) as [->|Hne]; [by left|].
  right. right. apply Hfree; [|done].
  apply list_elem_of_In, list_elem_of_lookup. eauto.
Qed.

Lemma text_without_enumerator_is_left_alone_witness :
  EnumCreatorOutput.replaceEnumerationNameWithValue
    MoreSamples.coloursParsed "YELLOW" = Some "YELLOW".
Proof.
  apply (text_without_enumerator_is_left_alone MoreSamples.coloursParsed
           "YELLOW"); [reflexivity | reflexivity |].
  intros name Hin _. cbn in Hin.
  destruct Hin as [<-|[<-|[<-|[]]]]; reflexivity.
Defined.

(** X8.  A text that is the name of an enumerator whose value was not
    given as its own number becomes that number, provided no earlier
    enumerator applies to the name and no later one to the number (the
    lists of the enumeration being parallel, as [parse] leaves them). *)
Theorem an_enumerator_becomes_its_number (en : EnumCreator.t)
    (i : nat) (name value number : string) :
  List.length (EnumCreator.valueList en) =
    List.length (EnumCreator.nameList en) ->
  List.length (EnumCreator.numberList en) =
    List.length (EnumCreator.nameList en) ->
  EnumCreator.nameList en !! i = Some name ->
  EnumCreator.valueList en !! i = Some value ->
  EnumCreator.numberList en !! i = Some number ->
  name <> EmptyString ->
  value <> number ->
  (forall j other v n, (j < i)%nat ->
     EnumCreator.nameList en !! j = Some other ->
     EnumCreator.valueList en !! j = Some v ->
     EnumCreator.numberList en !! j = Some n ->
     other = EmptyString \/ v = n \/ QString.contains name other = false) ->
  (forall j other v n, (i < j)%nat ->
     EnumCreator.nameList en !! j = Some other ->
     EnumCreator.valueList en !! j = Some v ->
     EnumCreator.numberList en !! j = Some n ->
     other = EmptyString \/ v = n \/ QString.contains number other = false) ->
  EnumCreatorOutput.replaceEnumerationNameWithValue en name = Some number.
Proof.
  intros Hv Hn Hname Hvalue Hnumber Hne Hdiff Hbefore Hafter.
  unfold EnumCreatorOutput.replaceEnumerationNameWithValue.
  pose proof (lookup_lt_Some _ _ _ Hname) as Hi.
  replace (List.length (EnumCreator.nameList en))
    with (i + S (List.length (EnumCreator.nameList en) - S i))%nat by lia.
  rewrite seq_app, fold_left_app. cbn [seq fold_left Nat.add].
  rewrite replaceName_idle; [|lia|lia|lia|].
  2:{ intros j other v n Hj. apply Hbefore. lia. }
  unfold EnumCreatorOutput.replaceName at 2. cbn [mbind option_bind].
  rewrite ?Nat.add_0_l, Hname. cbn [mbind option_bind].
  destruct (QString.isEmpty name) eqn:Hempty; [by destruct name|].
  rewrite Hvalue, Hnumber. cbn [mbind option_bind].
  destruct (String.eqb_spec value number) as [Heq|_]; [done|].
  rewrite contains_refl, replace_whole by done.
  apply replaceName_idle; [lia|lia|lia|].
  intros j other v n Hj. apply Hafter. lia.
Qed.

Lemma an_enumerator_becomes_its_number_witness :
  EnumCreatorOutput.replaceEnumerationNameWithValue
    MoreSamples.coloursParsed "GREEN" = Some "16".
Proof.
  apply (an_enumerator_becomes_its_number MoreSamples.coloursParsed 1
           "GREEN" "0x10" "16");
    try reflexivity; try discriminate.
  - intros [|j] other v n Hj Ho Hv Hn; [|lia].
    injection Ho as <-. right. right. reflexivity.
  - intros [|[|[|j]]] other v n Hj Ho Hv Hn; try lia.
    + injection Ho as <-. right. right. reflexivity.
    + discriminate Ho.
Defined.

(* ------------------------------------------------------------------ *)
(** ** Structures: the aligned declaration *)
(* ------------------------------------------------------------------ *)

Section Alignment.

Import EnumCreatorOutput StructureDeclaration.

Lemma occurs_append ch s t : occurs ch (s +:+ t) = occurs ch s || occurs ch t.
Proof.
  induction s as [|c s IH]; [done|].
  rewrite append_cons. cbn [occurs]. by rewrite IH, orb_assoc.
Qed.

Lemma occurs_times ch n c :
  Ascii.eqb c ch = false -> occurs ch (times n (String c EmptyString)) = false.
Proof.
  intros Hc. induction n as [|n IH]; [done|].
  cbn [times]. rewrite occurs_append, IH. cbn. by rewrite Hc.
Qed.

Lemma parts_line l r :
  occurs (ascii_of_nat 10) l = false ->
  parts (l +:+ String (ascii_of_nat 10) r) = l :: parts r.
Proof.
  induction l as [|c l IH]; intros Hl.
  - cbn. done.
  - rewrite append_cons. cbn [parts]. cbn [occurs] in Hl.
    apply orb_false_iff in Hl as [Hc Hl]. rewrite Hc, IH by done. done.
Qed.

Lemma split_lines (ls : list string) :
  Forall (fun l => occurs (ascii_of_nat 10) l = false) ls ->
  split (String.concat EmptyString (map (fun l => l +:+ LF) ls)) =
    List.filter (fun part => negb (QString.isEmpty part)) ls.
Proof.
  unfold split. induction 1 as [|l ls Hl Hls IH]; [done|].
  cbn [map]. rewrite concat_cons, append_assoc.
  change (LF +:+ ?r) with (String (ascii_of_nat 10) r).
  rewrite parts_line by done. cbn [List.filter]. by rewrite IH.
Qed.

Lemma indexOfFrom_skip ch a p s :
  indexOfFrom ch (String.length a) p (a +:+ s) =
    indexOfFrom ch 0 (p + length a) s.
Proof.
  revert p. induction a as [|c a IH]; intros p.
  - cbn. f_equal. unfold length. cbn. lia.
  - rewrite append_cons. cbn [String.length indexOfFrom]. rewrite IH.
    f_equal. unfold length. cbn [String.length]. lia.
Qed.

Lemma indexOfFrom_first ch a p s :
  occurs ch a = false ->
  indexOfFrom ch 0 p (a +:+ String ch s) = p + length a.
Proof.
  revert p. induction a as [|c a IH]; intros p Ha.
  - change (EmptyString +:+ String ch s) with (String ch s).
    cbn [indexOfFrom]. rewrite Ascii.eqb_refl. unfold length. cbn. lia.
  - rewrite append_cons. cbn [indexOfFrom]. cbn [occurs] in Ha.
    apply orb_false_iff in Ha as [Hc Ha]. rewrite Hc, IH by done.
    unfold length. cbn [String.length]. lia.
Qed.

Lemma insertAt_middle a text b :
  insertAt (String.length a) text (a +:+ b) = a +:+ text +:+ b.
Proof.
  induction a as [|c a IH]; [done|].
  rewrite !append_cons. cbn [String.length insertAt]. by rewrite IH.
Qed.

Lemma insertSpaces_middle (k : nat) (max : Z) (a b : string) :
  max - length a = Z.of_nat k ->
  insertSpaces k (length a) max (a +:+ b) = a +:+ times k " " +:+ b.
Proof.
  revert a. induction k as [|k IH]; intros a Hk; [done|].
  cbn [insertSpaces]. destruct (Z.ltb_spec (length a) max); [|lia].
  unfold insert. destruct (Z.ltb_spec (length a) 0) as [Hneg|_].
  { pose proof (length_nonneg a). lia. }
  unfold length at 2. rewrite Nat2Z.id, insertAt_middle.
  replace (length a + 1) with (length (a +:+ " "))
    by (rewrite length_append; done).
  rewrite <- (append_assoc a " " b), IH
    by (rewrite length_append; change (length " ") with 1; lia).
  rewrite append_assoc. reflexivity.
Qed.

Lemma largest_maximum (index : string -> Z) (list : list string) (d : Z) :
  fold_left (fun max line => if max <? index line then index line else max)
    list d
  = ResolverSpec.maximum d (map index list).
Proof.
  revert d. induction list as [|l list IH]; intros d; [done|].
  cbn [fold_left map]. rewrite IH, ltb_max, maximum_max. done.
Qed.

Lemma maximum_shift {A} (f : A -> Z) (c : Z) (l : list A) :
  l <> [] -> 0 <= c -> Forall (fun x => 0 <= f x) l ->
  ResolverSpec.maximum 0 (map (fun x => c + f x) l) =
    c + ResolverSpec.maximum 0 (map f l).
Proof.
  intros Hne Hc Hl. unfold ResolverSpec.maximum.
  induction Hl as [|x l Hx Hl IH]; [done|].
  cbn [map fold_right]. destruct l as [|y l].
  - cbn. lia.
  - rewrite IH by done. lia.
Qed.

Lemma output_lines (list : list string) (output : string) :
  fold_left (fun output line => output +:+ (line +:+ LF)) list output =
    output +:+ String.concat EmptyString (map (fun l => l +:+ LF) list).
Proof.
  revert output. induction list as [|l list IH]; intros output.
  - cbn. by rewrite append_nil_r.
  - cbn [fold_left map]. by rewrite IH, concat_cons, append_assoc.
Qed.

End Alignment.

Section AlignedMembers.

Import EnumCreatorOutput StructureDeclaration.

Lemma wellFormed_parts (m : member) :
  wellFormed m = true ->
  occurs " " (memberType m) = false /\
  occurs ";" (memberType m) = false /\
  occurs (ascii_of_nat 10) (memberType m) = false /\
  occurs ";" (memberName m) = false /\
  occurs (ascii_of_nat 10) (memberName m) = false /\
  occurs (ascii_of_nat 10) (memberRest m) = false.
Proof.
  unfold wellFormed. rewrite !andb_true_iff, !negb_true_iff. tauto.
Qed.

Lemma declared_one_line (m : member) :
  wellFormed m = true -> occurs (ascii_of_nat 10) (declared m) = false.
Proof.
  intros Hm. destruct (wellFormed_parts m Hm) as (_ & _ & H1 & _ & H2 & H3).
  unfold declared. rewrite !occurs_append, H1, H2, H3. reflexivity.
Qed.

Lemma afterType_declared (m : member) :
  wellFormed m = true ->
  indexOf (declared m) " " 4 = 4 + length (memberType m).
Proof.
  intros Hm. destruct (wellFormed_parts m Hm) as (H1 & _).
  unfold indexOf, declared.
  change 4%nat with (String.length "    ").
  rewrite indexOfFrom_skip.
  change (" " +:+ ?r) with (String " " r).
  rewrite indexOfFrom_first by done. reflexivity.
Qed.

Lemma pad_type (m : member) (max : Z) :
  wellFormed m = true ->
  4 + length (memberType m) <= max ->
  pad (fun line => indexOf line " " 4) max (declared m) =
    typeAligned (max - 4) m.
Proof.
  intros Hm Hmax. unfold pad. rewrite afterType_declared by done.
  unfold declared, typeAligned.
  rewrite <- (append_assoc "    " (memberType m)).
  replace (4 + length (memberType m))
    with (length ("    " +:+ memberType m))
    by (rewrite length_append; reflexivity).
  rewrite insertSpaces_middle
    by (rewrite length_append; change (length "    ") with 4;
        pose proof (length_nonneg (memberType m)); lia).
  rewrite length_append. change (length "    ") with 4.
  replace (max - (4 + length (memberType m)))
    with (max - 4 - length (memberType m)) by lia.
  by rewrite !append_assoc.
Qed.

Lemma afterName_typeAligned (m : member) (w : Z) :
  wellFormed m = true ->
  length (memberType m) <= w ->
  indexOf (typeAligned w m) ";" 0 + 1 = 6 + w + length (memberName m).
Proof.
  intros Hm Hw. destruct (wellFormed_parts m Hm) as (_ & H1 & _ & H2 & _).
  unfold indexOf, typeAligned.
  set (k := Z.to_nat (w - length (memberType m))).
  replace (("    " +:+ memberType m +:+ times k " " +:+ " " +:+ memberName m
            +:+ ";") +:+ memberRest m)
    with (("    " +:+ memberType m +:+ times k " " +:+ " " +:+ memberName m)
          +:+ String ";" (memberRest m))
    by (by rewrite !append_assoc).
  rewrite indexOfFrom_first.
  - rewrite !length_append, length_times.
    change (length "    ") with 4. change (length " ") with 1.
    pose proof (length_nonneg (memberType m)). lia.
  - rewrite !occurs_append, H1, H2, occurs_times by done. reflexivity.
Qed.

Lemma pad_name (m : member) (w max : Z) :
  wellFormed m = true ->
  length (memberType m) <= w ->
  6 + w + length (memberName m) <= max ->
  pad (fun line => indexOf line ";" 0 + 1) max (typeAligned w m) =
    aligned w (max - 6 - w) m.
Proof.
  intros Hm Hw Hmax. unfold pad. rewrite afterName_typeAligned by done.
  unfold typeAligned, aligned.
  set (k := Z.to_nat (w - length (memberType m))).
  set (a := "    " +:+ memberType m +:+ times k " " +:+ " " +:+ memberName m
            +:+ ";").
  assert (length a = 6 + w + length (memberName m)) as Ha.
  { unfold a. rewrite !length_append, length_times.
    change (length "    ") with 4. change (length " ") with 1.
    change (length ";") with 1.
    pose proof (length_nonneg (memberType m)). lia. }
  rewrite <- Ha.
  rewrite insertSpaces_middle
    by (pose proof (length_nonneg (memberName m)); lia).
  rewrite Ha. unfold a.
  replace (max - (6 + w + length (memberName m)))
    with (max - 6 - w - length (memberName m)) by lia.
  by rewrite !append_assoc.
Qed.

End AlignedMembers.

(** X9.  [alignStructureData] lays member declarations out as a table.
    Given the lines of members whose type is one word and whose first
    semicolon ends the name, it returns the same lines with the types
    padded to the longest type and the names (with their semicolon) padded
    to the longest name, so that all names start in one column and all
    trailing comments in another. *)
Theorem members_are_aligned_in_two_columns
    (ms : list StructureDeclaration.member) :
  Forall (fun m => StructureDeclaration.wellFormed m = true) ms ->
  let typeWidth :=
    ResolverSpec.maximum 0
      (map (fun m => EnumCreatorOutput.length
                       (StructureDeclaration.memberType m)) ms) in
  let nameWidth :=
    ResolverSpec.maximum 0
      (map (fun m => EnumCreatorOutput.length
                       (StructureDeclaration.memberName m)) ms) in
  StructureDeclaration.alignStructureData
    (String.concat EmptyString
       (map (fun m => StructureDeclaration.declared m +:+ LF) ms)) =
  String.concat EmptyString
    (map (fun m => StructureDeclaration.aligned typeWidth nameWidth m +:+ LF)
       ms).
Proof.
  intros Hms tw nw.
  assert (ms = [] \/ ms <> []) as [Hnil|Hne] by (destruct ms; auto).
  { subst ms. reflexivity. }
  pose proof (proj1 (List.Forall_forall _ _) Hms) as Hwf. clear Hms.
  unfold StructureDeclaration.alignStructureData.
  rewrite <- (map_map StructureDeclaration.declared (fun l => l +:+ LF)).
  rewrite split_lines.
  2:{ apply List.Forall_forall. intros l Hl.
      apply in_map_iff in Hl as (m & <- & Hm).
      apply declared_one_line. auto. }
  assert (List.filter (fun part => negb (QString.isEmpty part))
            (map StructureDeclaration.declared ms)
          = map StructureDeclaration.declared ms) as ->.
  { clear. induction ms as [|m ms IH]; [done|].
    cbn [map List.filter]. by rewrite IH. }
  assert (forall m, In m ms ->
            EnumCreatorOutput.length (StructureDeclaration.memberType m) <= tw)
    as Htw.
  { intros m Hm. apply maximum_member.
    apply (in_map (fun m => EnumCreatorOutput.length
                              (StructureDeclaration.memberType m))). done. }
  assert (forall m, In m ms ->
            EnumCreatorOutput.length (StructureDeclaration.memberName m) <= nw)
    as Hnw.
  { intros m Hm. apply maximum_member.
    apply (in_map (fun m => EnumCreatorOutput.length
                              (StructureDeclaration.memberName m))). done. }
  assert (0 <= tw) as Htw0 by apply maximum_lower.
  assert (StructureDeclaration.largest
            (fun line => StructureDeclaration.indexOf line " " 4)
            (map StructureDeclaration.declared ms) = 4 + tw) as ->.
  { unfold StructureDeclaration.largest. rewrite largest_maximum, map_map.
    unfold tw. rewrite <- maximum_shift; [|done|lia|].
    - f_equal. apply map_ext_in. intros m Hm.
      apply afterType_declared. auto.
    - apply List.Forall_forall. intros. apply length_nonneg. }
  assert (map (StructureDeclaration.pad
                 (fun line => StructureDeclaration.indexOf line " " 4)
                 (4 + tw)) (map StructureDeclaration.declared ms)
          = map (StructureDeclaration.typeAligned tw) ms) as ->.
  { rewrite map_map. apply map_ext_in. intros m Hm.
    rewrite pad_type; [|auto|].
    - f_equal. lia.
    - specialize (Htw m Hm). lia. }
  assert (StructureDeclaration.largest
            (fun line => StructureDeclaration.indexOf line ";" 0 + 1)
            (map (StructureDeclaration.typeAligned tw) ms) = 6 + tw + nw)
    as ->.
  { unfold StructureDeclaration.largest. rewrite largest_maximum, map_map.
    unfold nw. rewrite <- maximum_shift; [|done|lia|].
    - f_equal. apply map_ext_in. intros m Hm.
      apply afterName_typeAligned; auto.
    - apply List.Forall_forall. intros. apply length_nonneg. }
  assert (map (StructureDeclaration.pad
                 (fun line => StructureDeclaration.indexOf line ";" 0 + 1)
                 (6 + tw + nw)) (map (StructureDeclaration.typeAligned tw) ms)
          = map (StructureDeclaration.aligned tw nw) ms) as ->.
  { rewrite map_map. apply map_ext_in. intros m Hm.
    rewrite pad_name; [|auto|auto|].
    - f_equal. lia.
    - specialize (Hnw m Hm). lia. }
  rewrite output_lines, map_map. reflexivity.
Qed.

(** What [ProtocolStructure::getDeclaration] writes is the declaration of
    [memberOf]. *)
Lemma getDeclaration_declared (e : Encodable.t) :
  StructureDeclaration.getDeclaration e =
    StructureDeclaration.declared (StructureDeclaration.memberOf e) +:+ LF.
Proof.
  unfold StructureDeclaration.getDeclaration, StructureDeclaration.declared,
    StructureDeclaration.memberOf.
  cbn [StructureDeclaration.memberType StructureDeclaration.memberName
       StructureDeclaration.memberRest].
  destruct (QString.isEmpty (Encodable.array e)),
           (QString.isEmpty (Encodable.comment e)); cbn [negb];
    rewrite ?append_assoc, ?append_nil_r; reflexivity.
Qed.

Lemma members_are_aligned_in_two_columns_witness :
  let es := [MoreSamples.position; MoreSamples.waypoints] in
  Forall (fun m => StructureDeclaration.wellFormed m = true)
    (map StructureDeclaration.memberOf es) /\
  StructureDeclaration.alignStructureData
    (String.concat EmptyString (map StructureDeclaration.getDeclaration es)) =
  String.concat EmptyString
    [ "    position_t position;       //!< where it is" +:+ LF;
      "    wp_t       waypoints[N3D];" +:+ LF ].
Proof.
  cbn zeta.
  assert (Forall (fun m => StructureDeclaration.wellFormed m = true)
            (map StructureDeclaration.memberOf
               [MoreSamples.position; MoreSamples.waypoints])) as Hwf
    by (repeat constructor).
  split; [exact Hwf|].
  cbn [map]. rewrite !getDeclaration_declared.
  change (StructureDeclaration.alignStructureData
            (String.concat EmptyString
               (map (fun m => StructureDeclaration.declared m +:+ LF)
                  (map StructureDeclaration.memberOf
                     [MoreSamples.position; MoreSamples.waypoints]))) =
          String.concat EmptyString
            [ "    position_t position;       //!< where it is" +:+ LF;
              "    wp_t       waypoints[N3D];" +:+ LF ]).
  rewrite (members_are_aligned_in_two_columns
             (map StructureDeclaration.memberOf
                [MoreSamples.position; MoreSamples.waypoints]) Hwf).
  reflexivity.
Defined.

Section OnlySpaces.

Import EnumCreatorOutput StructureDeclaration.





End OnlySpaces.


(* ------------------------------------------------------------------ *)
(** ** Structures: what the sweep keeps and what the flags say *)
(* ------------------------------------------------------------------ *)

Section Kept.

Import Encodable ProtocolStructure Untouched.

Lemma identity_setTerminates b x : identity (setTerminatesBitfield b x) = identity x.
Proof. by destruct x as [? ? ? ? ? ? ? [[]|]]. Qed.

Lemma identity_setStarting k x : identity (setStartingBitCount k x) = identity x.
Proof. by destruct x as [? ? ? ? ? ? ? [[]|]]. Qed.

Lemma identity_clearDefaults x : identity (clearDefaults x) = identity x.
Proof. by destruct x as [? ? ? ? ? ? ? [[]|]]. Qed.

Lemma flagView_identity x y : identity x = identity y -> flagView x = flagView y.
Proof.
  destruct x as [? ? ? ? ? ? ? [[]|]], y as [? ? ? ? ? ? ? [[]|]];
    unfold identity, flagView, isNotEncoded, isBitfield, isArray; cbn;
    intros Heq; by simplify_eq.
Qed.

Lemma identity_checks n l e :
  identity (fst (checkDependsOn n l (fst (checkVariableArray n l e))))
  = identity e.
Proof.
  unfold checkVariableArray, checkDependsOn.
  destruct (negb (QString.isEmpty (variableArray e)));
    [destruct (found (variableArray e) l)|]; cbn [fst];
    match goal with
    | |- context [dependsOn ?x] =>
        destruct (negb (QString.isEmpty (dependsOn x)));
          [destruct (isBitfield x); [|destruct (found (dependsOn x) l)]|]
    end; reflexivity.
Qed.

Lemma trackMetadata_identity n e st :
  map identity (encodables (trackMetadata n e st))
  = map identity (encodables st).
Proof.
  unfold trackMetadata.
  destruct (isPrimitive e); [|done].
  destruct (usesDefaults e); [done|].
  destruct (defaults st); [|done]. cbn.
  rewrite map_map. apply map_ext. intros x. apply identity_clearDefaults.
Qed.

Lemma child_identity n st child :
  map identity (encodables (ProtocolStructure.child n st child))
  = map identity (encodables st) ++ map identity (made [child]).
Proof.
  destruct child as [e|]; [|cbn; by rewrite app_nil_r].
  destruct (isNotEncoded e) eqn:He.
  - cbn [ProtocolStructure.child]. rewrite He. cbn. by rewrite map_app.
  - destruct (child_encoded n st e He) as (sib & e4 & more & -> & _ & _ & Hv).
    destruct (Hv _ identity identity_setTerminates identity_setStarting)
      as [Hsib He4].
    rewrite map_app, Hsib, trackMetadata_identity. cbn.
    by rewrite He4, identity_checks.
Qed.

Lemma parseChildrenFrom_identity n children st :
  map identity (encodables (parseChildrenFrom n st children))
  = map identity (encodables st) ++ map identity (made children).
Proof.
  revert st. induction children as [|child children IH]; intros st.
  - cbn. by rewrite app_nil_r.
  - change (parseChildrenFrom n st (child :: children))
      with (parseChildrenFrom n (ProtocolStructure.child n st child) children).
    rewrite IH, child_identity, <- app_assoc. f_equal.
    unfold made. cbn [flat_map]. by rewrite app_nil_r, map_app.
Qed.

(** How one child moves the two flags. *)
Lemma child_flags n st e :
  bitfields (ProtocolStructure.child n st (Some e))
  = (bitfields st || negb (isNotEncoded e) && isBitfield e) /\
  needsIterator (ProtocolStructure.child n st (Some e))
  = (needsIterator st || negb (isNotEncoded e) && isArray e).
Proof.
  cbn [ProtocolStructure.child].
  destruct (isNotEncoded e) eqn:He; cbn [negb].
  - cbn. by rewrite !orb_false_r.
  - set (st1 := trackMetadata n e st).
    destruct (checkVariableArray n (encodables st1) e) as [e1 out1].
    destruct (checkDependsOn n (encodables st1) e1) as [e2 out2].
    destruct (linkBitfields (prevEncodable st1) (encodables st1) e2)
      as [sib e4].
    cbn [bitfields needsIterator]. unfold st1, trackMetadata.
    unfold usesBitfields, usesIterator.
    destruct (isPrimitive e) eqn:Hp.
    + destruct (usesDefaults e); [|destruct (defaults st)];
        cbn [bitfields needsIterator];
        destruct (isBitfield e), (isArray e), (bitfields st),
          (needsIterator st); done.
    + cbn [bitfields needsIterator].
      assert (isBitfield e = false) as ->
        by (unfold isBitfield, isPrimitive in *; by destruct (primitive e)).
      destruct (isArray e), (bitfields st), (needsIterator st); done.
Qed.

Lemma map_coarser {A V W} (v : A -> V) (w : A -> W) (l1 l2 : list A) :
  (forall x y, v x = v y -> w x = w y) ->
  map v l1 = map v l2 -> map w l1 = map w l2.
Proof.
  intros Hvw. revert l2. induction l1 as [|x l1 IH]; intros [|y l2] Heq;
    try done.
  cbn in Heq |- *. injection Heq as Hx Hl.
  f_equal; [by apply Hvw | by apply IH].
Qed.

Lemma child_flagView n st e :
  map flagView (encodables (ProtocolStructure.child n st (Some e)))
  = map flagView (encodables st) ++ [flagView e].
Proof.
  change (map flagView (encodables st) ++ [flagView e])
    with (map flagView (encodables st) ++ map flagView [e]).
  rewrite <- map_app.
  apply (map_coarser identity flagView); [apply flagView_identity|].
  rewrite child_identity, map_app. cbn. done.
Qed.

Lemma parseChildrenFrom_flags n children st :
  bitfields st = anyBitfield (map flagView (encodables st)) ->
  needsIterator st = anyArray (map flagView (encodables st)) ->
  let st' := parseChildrenFrom n st children in
  bitfields st' = anyBitfield (map flagView (encodables st')) /\
  needsIterator st' = anyArray (map flagView (encodables st')).
Proof.
  revert st. induction children as [|child children IH]; intros st Hb Hi;
    [done|].
  change (parseChildrenFrom n st (child :: children))
    with (parseChildrenFrom n (ProtocolStructure.child n st child) children).
  apply IH.
  - destruct child as [e|]; [|done].
    destruct (child_flags n st e) as [-> _]. rewrite child_flagView.
    unfold anyBitfield. rewrite existsb_app. cbn. by rewrite Hb, orb_false_r.
  - destruct child as [e|]; [|done].
    destruct (child_flags n st e) as [_ ->]. rewrite child_flagView.
    unfold anyArray. rewrite existsb_app. cbn. by rewrite Hi, orb_false_r.
Qed.

End Kept.

(** X11.  [parseChildren] keeps every child [generateEncodable] made, in
    the order of the DOM nodes, and leaves its name, type name, array,
    comment, encoded length and, for a field, its constant, its encoding
    flags and its bitfield width as they were: all it ever changes of a
    child is [variableArray], [dependsOn], the default value and the two
    bitfield marks. *)
Theorem parseChildren_keeps_every_child (structName : string)
    (children : list (option Encodable.t)) :
  map Untouched.identity
    (ProtocolStructure.encodables
       (ProtocolStructure.parseChildren structName children))
  = map Untouched.identity (Untouched.made children).
Proof.
  unfold ProtocolStructure.parseChildren.
  by rewrite parseChildrenFrom_identity.
Qed.

(** X12.  After [parseChildren] the [bitfields] flag is on exactly when
    some encoded child is a bitfield, and the [needsIterator] flag is on
    exactly when some encoded child, field or nested structure, is an
    array. *)
Theorem aggregate_flags_iff (structName : string)
    (children : list (option Encodable.t)) :
  let st := ProtocolStructure.parseChildren structName children in
  (ProtocolStructure.bitfields st = true <->
   exists e, In e (ProtocolStructure.encodables st) /\
             Encodable.isNotEncoded e = false /\
             Encodable.isBitfield e = true) /\
  (ProtocolStructure.needsIterator st = true <->
   exists e, In e (ProtocolStructure.encodables st) /\
             Encodable.isNotEncoded e = false /\
             Encodable.isArray e = true).
Proof.
  intros st.
  destruct (parseChildrenFrom_flags structName children
              ProtocolStructure.initial eq_refl eq_refl) as [Hb Hi].
  fold (ProtocolStructure.parseChildren structName children) in Hb, Hi.
  fold st in Hb, Hi. rewrite Hb, Hi.
  unfold Untouched.anyBitfield, Untouched.anyArray.
  rewrite !existsb_exists. split; split.
  - intros (v & Hin & Hv). apply in_map_iff in Hin as (e & <- & Hin).
    cbn in Hv. apply andb_true_iff in Hv as [H1 H2].
    apply negb_true_iff in H1. eauto.
  - intros (e & Hin & H1 & H2). exists (Untouched.flagView e).
    split; [by apply in_map|]. cbn. by rewrite H1, H2.
  - intros (v & Hin & Hv). apply in_map_iff in Hin as (e & <- & Hin).
    cbn in Hv. apply andb_true_iff in Hv as [H1 H2].
    apply negb_true_iff in H1. eauto.
  - intros (e & Hin & H1 & H2). exists (Untouched.flagView e).
    split; [by apply in_map|]. cbn. by rewrite H1, H2.
Qed.

Section Independent.

Import Encodable ProtocolStructure Untouched.

Lemma dependsView_setTerminates b x :
  dependsView (setTerminatesBitfield b x) = dependsView x.
Proof. by destruct x as [? ? ? ? ? ? ? [[]|]]. Qed.

Lemma dependsView_setStarting k x :
  dependsView (setStartingBitCount k x) = dependsView x.
Proof. by destruct x as [? ? ? ? ? ? ? [[]|]]. Qed.

Lemma dependsView_clearDefaults x :
  dependsView (clearDefaults x) = dependsView x.
Proof. by destruct x as [? ? ? ? ? ? ? [[]|]]. Qed.

Lemma trackMetadata_dependsView n e st :
  map dependsView (encodables (trackMetadata n e st))
  = map dependsView (encodables st).
Proof.
  unfold trackMetadata.
  destruct (isPrimitive e); [|done].
  destruct (usesDefaults e); [done|].
  destruct (defaults st); [|done]. cbn.
  rewrite map_map. apply map_ext. intros x. apply dependsView_clearDefaults.
Qed.

Lemma checks_independent n l e :
  independent
    (dependsView (fst (checkDependsOn n l (fst (checkVariableArray n l e))))).
Proof.
  set (e1 := fst (checkVariableArray n l e)).
  assert (isBitfield e1 = isBitfield e /\ isNotEncoded e1 = isNotEncoded e)
    as [Hb He].
  { unfold e1, checkVariableArray.
    destruct (negb (QString.isEmpty (variableArray e)));
      [destruct (found (variableArray e) l)|]; done. }
  unfold checkDependsOn, independent.
  destruct (QString.isEmpty (dependsOn e1)) eqn:Hd; cbn [negb fst].
  - intros _ _. cbn. by destruct (dependsOn e1).
  - destruct (isBitfield e1) eqn:Hbit; cbn [fst]; [done|].
    destruct (found (dependsOn e1) l); cbn; congruence.
Qed.

Lemma child_independent n st child :
  Forall independent (map dependsView (encodables st)) ->
  Forall independent
    (map dependsView (encodables (ProtocolStructure.child n st child))).
Proof.
  intros Hst. destruct child as [e|]; [|done].
  destruct (isNotEncoded e) eqn:He.
  - cbn [ProtocolStructure.child]. rewrite He. cbn. rewrite map_app.
    apply Forall_app. split; [done|]. constructor; [|done].
    unfold independent, dependsView. cbn. congruence.
  - destruct (child_encoded n st e He) as (sib & e4 & more & -> & _ & _ & Hv).
    destruct (Hv _ dependsView dependsView_setTerminates
                dependsView_setStarting) as [Hsib He4].
    rewrite map_app, Hsib, trackMetadata_dependsView. cbn.
    apply Forall_app. split; [done|]. constructor; [|done].
    rewrite He4. apply checks_independent.
Qed.

Lemma parseChildrenFrom_independent n children st :
  Forall independent (map dependsView (encodables st)) ->
  Forall independent
    (map dependsView (encodables (parseChildrenFrom n st children))).
Proof.
  revert st. induction children as [|child children IH]; intros st Hst;
    [done|].
  change (parseChildrenFrom n st (child :: children))
    with (parseChildrenFrom n (ProtocolStructure.child n st child) children).
  by apply IH, child_independent.
Qed.

End Independent.

(** X14.  After [parseChildren] no encoded bitfield has a [dependsOn]: the
    attribute is cleared when the child is taken up and nothing sets it
    again. *)
Theorem encoded_bitfields_have_no_dependsOn (structName : string)
    (children : list (option Encodable.t)) (e : Encodable.t) :
  In e (ProtocolStructure.encodables
          (ProtocolStructure.parseChildren structName children)) ->
  Encodable.isNotEncoded e = false ->
  Encodable.isBitfield e = true ->
  Encodable.dependsOn e = EmptyString.
Proof.
  intros Hin He Hb.
  pose proof (parseChildrenFrom_independent structName children
                ProtocolStructure.initial ltac:(constructor)) as Hall.
  fold (ProtocolStructure.parseChildren structName children) in Hall.
  rewrite List.Forall_forall in Hall.
  apply (Hall (Untouched.dependsView e)); [by apply in_map | done | done].
Qed.

Lemma encoded_bitfields_have_no_dependsOn_witness :
  let st := ProtocolStructure.parseChildren "Pkt" MoreSamples.flagThenBits in
  let e := Encodable.setTerminatesBitfield true
             (Encodable.clearDependsOn MoreSamples.dependentBits) in
  In e (ProtocolStructure.encodables st) /\
  Encodable.isNotEncoded e = false /\
  Encodable.isBitfield e = true /\
  Encodable.dependsOn e = EmptyString /\
  ProtocolStructure.cout st = ["Pkt: mode: bitfields cannot use dependsOn"].
Proof.
  cbn zeta.
  assert (In (Encodable.setTerminatesBitfield true
                (Encodable.clearDependsOn MoreSamples.dependentBits))
             (ProtocolStructure.encodables
                (ProtocolStructure.parseChildren "Pkt"
                   MoreSamples.flagThenBits))) as Hin
    by (right; left; reflexivity).
  split; [exact Hin|]. split; [reflexivity|]. split; [reflexivity|].
  split; [|reflexivity].
  exact (encoded_bitfields_have_no_dependsOn "Pkt" MoreSamples.flagThenBits _
           Hin eq_refl eq_refl).
Defined.

Lemma references_name_earlier_sibling_witness :
  let l := ProtocolStructure.encodables
             (ProtocolStructure.parseChildren "Pkt"
                MoreSamples.countThenPayload) in
  let e := Samples.dataArray "payload" "16" "count" Samples.plain in
  l !! 1%nat = Some e /\
  exists i u, (i < 1)%nat /\ l !! i = Some u /\
              ProtocolStructure.accepts "count" u = true.
Proof.
  cbn zeta. split; [reflexivity|].
  destruct (references_name_earlier_sibling "Pkt" MoreSamples.countThenPayload
              1 (Samples.dataArray "payload" "16" "count" Samples.plain)
              eq_refl eq_refl) as [Hva _].
  apply Hva. discriminate.
Defined.

(* ------------------------------------------------------------------ *)
(** ** Structures: the two counts *)
(* ------------------------------------------------------------------ *)

Section Counts.

Import Encodable ProtocolStructure.

Lemma count_fold (keep : Encodable.t -> bool) (l : list Encodable.t) (n : Z) :
  fold_left (fun n e => if keep e then n else n + 1) l n
  = n + Z.of_nat (List.length (List.filter (fun e => negb (keep e)) l)).
Proof.
  revert n. induction l as [|e l IH]; intros n; [cbn; lia|].
  cbn [fold_left List.filter]. rewrite IH.
  destruct (keep e); cbn [negb List.length]; lia.
Qed.

Lemma filter_length_le {A} (f g : A -> bool) (l : list A) :
  (forall x, f x = true -> g x = true) ->
  (List.length (List.filter f l) <= List.length (List.filter g l))%nat.
Proof.
  intros Hfg. induction l as [|x l IH]; [done|].
  cbn [List.filter]. destruct (f x) eqn:Hf.
  - rewrite (Hfg x Hf). cbn. lia.
  - destruct (g x); cbn; lia.
Qed.

End Counts.

(** X16.  [getNumberOfEncodes] is the number of children that are encoded,
    [getNumberOfNonConstEncodes] counts among these the ones that are in
    memory and not constant, and so
    [0 <= getNumberOfNonConstEncodes <= getNumberOfEncodes <= encodables.length()]. *)
Theorem encodes_are_counted (l : list Encodable.t) :
  ProtocolStructure.getNumberOfEncodes l
    = Z.of_nat (List.length (ProtocolStructure.encodedOnly l)) /\
  ProtocolStructure.getNumberOfNonConstEncodes l
    = Z.of_nat
        (List.length
           (List.filter
              (fun e => negb (Encodable.isNotInMemory e)
                        && negb (Encodable.isConstant e))
              (ProtocolStructure.encodedOnly l))) /\
  0 <= ProtocolStructure.getNumberOfNonConstEncodes l
    <= ProtocolStructure.getNumberOfEncodes l /\
  ProtocolStructure.getNumberOfEncodes l <= Z.of_nat (List.length l).
Proof.
  unfold ProtocolStructure.getNumberOfEncodes,
    ProtocolStructure.getNumberOfNonConstEncodes,
    ProtocolStructure.encodedOnly.
  rewrite (count_fold Encodable.isNotEncoded),
    (count_fold (fun e => Encodable.isNotEncoded e || Encodable.isNotInMemory e
                          || Encodable.isConstant e)).
  assert (List.filter
            (fun e => negb (Encodable.isNotInMemory e)
                      && negb (Encodable.isConstant e))
            (List.filter (fun e => negb (Encodable.isNotEncoded e)) l)
          = List.filter
              (fun e => negb (Encodable.isNotEncoded e
                              || Encodable.isNotInMemory e
                              || Encodable.isConstant e)) l) as ->.
  { induction l as [|e l IH]; [done|]. cbn [List.filter].
    destruct (Encodable.isNotEncoded e); cbn [negb orb]; [done|].
    cbn [List.filter].
    destruct (Encodable.isNotInMemory e), (Encodable.isConstant e);
      cbn [negb andb orb]; by rewrite IH. }
  split; [lia|]. split; [lia|].
  pose proof (filter_length_le
    (fun e => negb (Encodable.isNotEncoded e || Encodable.isNotInMemory e
                    || Encodable.isConstant e))
    (fun e => negb (Encodable.isNotEncoded e)) l) as Hle.
  pose proof (List.filter_length_le
                (fun e => negb (Encodable.isNotEncoded e)) l).
  split; [|lia]. split; [lia|].
  assert (forall x : Encodable.t,
            negb (Encodable.isNotEncoded x || Encodable.isNotInMemory x
                  || Encodable.isConstant x) = true ->
            negb (Encodable.isNotEncoded x) = true) as Himp
    by (intros x; by destruct (Encodable.isNotEncoded x)).
  specialize (Hle Himp). lia.
Qed.

(* ------------------------------------------------------------------ *)
(** ** Packets: the attributes after [parse] *)
(* ------------------------------------------------------------------ *)

Section PacketAttributes.

Import ProtocolPacket.

Context `{Collaborators}.

Lemma isEmpty_false (s : string) : QString.isEmpty s = false <-> s <> EmptyString.
Proof. destruct s; cbn; split; congruence. Qed.

Lemma toUpper_nonempty (s : string) :
  s <> EmptyString -> QString.toUpper s <> EmptyString.
Proof. by destruct s. Qed.

Lemma ProtocolStructure_parse_attributes
    protocolName protocolPrefix supported bigendian e :
  let p := fst (ProtocolStructure_parse protocolName protocolPrefix supported
                  bigendian e) in
  name p <> EmptyString /\
  name p = (if QString.isEmpty (attribute e "name")
            then "_unknown" else attribute e "name") /\
  typeName p = protocolPrefix +:+ name p +:+ "_t" /\
  array p = attribute e "array" /\
  (variableArray p = EmptyString \/ array p <> EmptyString) /\
  (variableArray p = EmptyString \/ dependsOn p = EmptyString).
Proof.
  cbn zeta. unfold ProtocolStructure_parse.
  assert ((if QString.isEmpty (attribute e "name")
           then "_unknown" else attribute e "name") <> EmptyString) as Hname.
  { destruct (QString.isEmpty (attribute e "name")) eqn:Hn;
      [done | by apply isEmpty_false]. }
  destruct (QString.isEmpty (attribute e "array")
            && negb (QString.isEmpty (attribute e "variableArray"))) eqn:H1.
  - destruct (negb (QString.isEmpty (attribute e "dependsOn"))
              && negb (QString.isEmpty EmptyString)) eqn:H2;
      cbn [fst name typeName array variableArray dependsOn]; auto 10.
  - destruct (negb (QString.isEmpty (attribute e "dependsOn"))
              && negb (QString.isEmpty (attribute e "variableArray"))) eqn:H2;
      cbn [fst name typeName array variableArray dependsOn].
    + repeat (split; [done|]).
      split; [|by right].
      apply andb_false_iff in H1 as [H1|H1].
      * right. by apply isEmpty_false.
      * left. apply negb_false_iff in H1. by destruct (attribute e "variableArray").
    + repeat (split; [done|]).
      split.
      * apply andb_false_iff in H1 as [H1|H1].
        -- right. by apply isEmpty_false.
        -- left. apply negb_false_iff in H1.
           by destruct (attribute e "variableArray").
      * apply andb_false_iff in H2 as [H2|H2]; apply negb_false_iff in H2.
        -- right. by destruct (attribute e "dependsOn").
        -- left. by destruct (attribute e "variableArray").
Qed.

End PacketAttributes.

(** X17.  After [ProtocolStructure::parse] the structure has a name
    ([_unknown] when the element has none) and its type name is the prefix,
    the name and [_t]; a [variableArray] is kept only with an [array], and
    never together with a [dependsOn]. *)
Theorem structure_attributes_are_consistent
    `{ProtocolPacket.Collaborators}
    (protocolName protocolPrefix : string)
    (supported : ProtocolPacket.ProtocolSupport) (bigendian : bool)
    (e : ProtocolPacket.element) :
  let p := fst (ProtocolPacket.ProtocolStructure_parse protocolName
                  protocolPrefix supported bigendian e) in
  ProtocolPacket.name p <> EmptyString /\
  ProtocolPacket.name p =
    (if QString.isEmpty (ProtocolPacket.attribute e "name")
     then "_unknown" else ProtocolPacket.attribute e "name") /\
  ProtocolPacket.typeName p =
    protocolPrefix +:+ ProtocolPacket.name p +:+ "_t" /\
  (ProtocolPacket.variableArray p = EmptyString \/
   ProtocolPacket.array p <> EmptyString) /\
  (ProtocolPacket.variableArray p = EmptyString \/
   ProtocolPacket.dependsOn p = EmptyString).
Proof.
  cbn zeta.
  destruct (ProtocolStructure_parse_attributes protocolName protocolPrefix
              supported bigendian e) as (H1 & H2 & H3 & _ & H4 & H5).
  auto.
Qed.

(** X18.  The packet object [ProtocolPacket::parse] leaves is never an
    array and depends on nothing: [array], [variableArray] and [dependsOn]
    are empty whatever the element says, the name is not empty, and the
    identifier is the [ID] attribute or, without one, the name in upper
    case, so it is not empty either. *)
Theorem packet_is_no_array_and_has_an_identifier
    `{ProtocolPacket.Collaborators}
    (protocolName protocolPrefix : string)
    (supported : ProtocolPacket.ProtocolSupport) (bigendian : bool)
    (headerAppending sourceAppending : bool)
    (e : ProtocolPacket.element) :
  let p := fst (fst (ProtocolPacket.parse protocolName protocolPrefix
                       supported bigendian headerAppending sourceAppending
                       e)) in
  ProtocolPacket.name p <> EmptyString /\
  ProtocolPacket.array p = EmptyString /\
  ProtocolPacket.variableArray p = EmptyString /\
  ProtocolPacket.dependsOn p = EmptyString /\
  ProtocolPacket.id p =
    (if QString.isEmpty (ProtocolPacket.attribute e "ID")
     then QString.toUpper (ProtocolPacket.name p)
     else ProtocolPacket.attribute e "ID") /\
  ProtocolPacket.id p <> EmptyString.
Proof.
  cbn zeta. unfold ProtocolPacket.parse.
  destruct (ProtocolStructure_parse_attributes protocolName protocolPrefix
              supported bigendian e) as (Hn & _ & _ & _ & Hva & _).
  cbn zeta in Hn, Hva.
  destruct (ProtocolPacket.ProtocolStructure_parse protocolName
              protocolPrefix supported bigendian e) as [p0 out1].
  cbn [fst] in Hn, Hva.
  unfold ProtocolPacket.rejectArrayAndDependsOn.
  destruct (ProtocolPacket.chooseInterfaces e _) as [sf pf].
  unfold ProtocolPacket.createUtilityFunctions, ProtocolPacket.withId.
  cbn [fst ProtocolPacket.name ProtocolPacket.array
       ProtocolPacket.variableArray ProtocolPacket.dependsOn
       ProtocolPacket.id].
  split; [done|].
  split; [by destruct (ProtocolPacket.array p0)|].
  split.
  { destruct Hva as [Hva|Hva]; [|by destruct (ProtocolPacket.array p0)].
    rewrite Hva. by destruct (QString.isEmpty (ProtocolPacket.array p0)). }
  split; [by destruct (ProtocolPacket.dependsOn p0)|].
  split; [done|].
  destruct (QString.isEmpty (ProtocolPacket.attribute e "ID")) eqn:Hid.
  - by apply toUpper_nonempty.
  - by apply isEmpty_false.
Qed.

(* ------------------------------------------------------------------ *)
(** ** Packets: what every module holds *)
(* ------------------------------------------------------------------ *)

Section Modules.

Import ProtocolPacket Includes.

Context `{Collaborators}.

(** The calls of [parse], part by part. *)
Lemma parse_layout protocolName protocolPrefix supported bigendian
    headerAppending sourceAppending e :
  let p := structureOf protocolName protocolPrefix supported bigendian e in
  snd (fst (parse protocolName protocolPrefix supported bigendian
              headerAppending sourceAppending e)) =
    headerTop headerAppending e p
    >> toHeader [ write (getStructureDeclaration p
                           (fst (chooseInterfaces e p)));
                  makeLineSeparator ]
    >> toSource
         (if negb sourceAppending then
            [ makeLineSeparator ]
            ++ (if specialFloat (support p)
                then [ writeIncludeDirective "floatspecial.h" ] else [])
            ++ (if bitfield (support p)
                then [ writeIncludeDirective "bitfieldspecial.h" ] else [])
            ++ [ writeIncludeDirective "fielddecode.h";
                 writeIncludeDirective "fieldencode.h";
                 writeIncludeDirective "scaleddecode.h";
                 writeIncludeDirective "scaledencode.h" ]
          else [])
    >> createSubStructureFunctions p
    >> interfaceFunctions e p
    >> snd (createUtilityFunctions e p)
    >> toHeader [ makeLineSeparator; flush ]
    >> toSource [ flush ]
    >> toHeader [ clear ]
    >> toSource [ clear ].
Proof.
  cbn zeta. unfold parse, structureOf.
  destruct (ProtocolStructure_parse protocolName protocolPrefix supported
              bigendian e) as [p0 out1].
  cbn [fst].
  destruct (rejectArrayAndDependsOn p0) as [p out2]. cbn [fst].
  destruct (chooseInterfaces e p) as [sf pf] eqn:Hc.
  destruct (createUtilityFunctions e p) as [p' utility]. cbn [fst snd].
  reflexivity.
Qed.

Lemma source_andThen a b : source (a >> b) = source a ++ source b.
Proof. reflexivity. Qed.

Lemma header_andThen a b : header (a >> b) = header a ++ header b.
Proof. reflexivity. Qed.

(** Whatever is asked for, one of the two interfaces is chosen. *)
Lemma chooseInterfaces_some e p :
  chooseInterfaces e p <> (false, false).
Proof.
  unfold chooseInterfaces.
  destruct (Z.of_nat (List.length (encodables p)) <=? 0); [done|].
  destruct (QString.containsCI (attribute e "structureInterface") "true"),
           (QString.containsCI (attribute e "parameterInterface") "true");
    cbn [negb andb]; try done.
  by destruct (Z.of_nat (List.length (encodables p)) <=? 1).
Qed.

Lemma chooseInterfaces_structure e p :
  fst (chooseInterfaces e p) = true ->
  (0 <? Z.of_nat (List.length (encodables p))) = true.
Proof.
  unfold chooseInterfaces.
  destruct (Z.leb_spec (Z.of_nat (List.length (encodables p))) 0);
    [done|]. intros _. apply Z.ltb_lt. lia.
Qed.

End Modules.

(** X19.  Whatever the [Packet] element says, the source file [parse]
    writes defines a function that encodes the packet and one that decodes
    it: those of the structure interface or those of the parameter
    interface. *)
Theorem every_module_encodes_and_decodes
    `{ProtocolPacket.Collaborators}
    (protocolName protocolPrefix : string)
    (supported : ProtocolPacket.ProtocolSupport) (bigendian : bool)
    (headerAppending sourceAppending : bool)
    (e : ProtocolPacket.element) :
  let p := ProtocolPacket.structureOf protocolName protocolPrefix supported
             bigendian e in
  let src := ProtocolPacket.source
               (snd (fst (ProtocolPacket.parse protocolName protocolPrefix
                            supported bigendian headerAppending
                            sourceAppending e))) in
  (In (ProtocolPacket.write
         ("void encode" +:+ ProtocolPacket.prefix p +:+ ProtocolPacket.name p
          +:+ "PacketStructure(void* pkt, const " +:+ ProtocolPacket.typeName p
          +:+ "* user)" +:+ LF)) src \/
   In (ProtocolPacket.write
         (("void encode" +:+ ProtocolPacket.prefix p +:+ ProtocolPacket.name p
           +:+ "PacketStructure(void* pkt)") +:+ LF)) src \/
   In (ProtocolPacket.write
         (ProtocolPacket.getPacketEncodeSignature p +:+ LF)) src) /\
  (In (ProtocolPacket.write
         ("int decode" +:+ ProtocolPacket.prefix p +:+ ProtocolPacket.name p
          +:+ "PacketStructure(const void* pkt, " +:+ ProtocolPacket.typeName p
          +:+ "* user)" +:+ LF)) src \/
   In (ProtocolPacket.write
         (("int decode" +:+ ProtocolPacket.prefix p +:+ ProtocolPacket.name p
           +:+ "PacketStructure(const void* pkt)") +:+ LF)) src \/
   In (ProtocolPacket.write
         (ProtocolPacket.getPacketDecodeSignature p +:+ LF)) src).
Proof.
  intros p src. unfold src. rewrite parse_layout. fold p.
  rewrite !source_andThen.
  pose proof (chooseInterfaces_some e p) as Hsome.
  pose proof (chooseInterfaces_structure e p) as Hstruct.
  unfold ProtocolPacket.interfaceFunctions.
  destruct (ProtocolPacket.chooseInterfaces e p) as [[|] [|]];
    cbn [fst] in Hstruct; try done.
  - rewrite (Hstruct eq_refl), source_andThen.
    destruct (parameter_functions_defined p) as [He Hd].
    split; right; right; rewrite !in_app_iff; tauto.
  - rewrite (Hstruct eq_refl), source_andThen.
    destruct (structure_functions_defined p) as [He Hd].
    split; rewrite !in_app_iff; tauto.
  - rewrite source_andThen.
    destruct (parameter_functions_defined p) as [He Hd].
    split; right; right; rewrite !in_app_iff; tauto.
Qed.

(** X20.  A packet with at least one child for which exactly one of
    [structureInterface] and [parameterInterface] contains "true" gets the
    functions of that interface and no others. *)
Theorem the_one_interface_asked_for_is_written
    `{ProtocolPacket.Collaborators}
    (protocolName protocolPrefix : string)
    (supported : ProtocolPacket.ProtocolSupport) (bigendian : bool)
    (e : ProtocolPacket.element) :
  ProtocolPacket.encodableChildren e <> [] ->
  QString.containsCI (ProtocolPacket.attribute e "structureInterface") "true"
  <> QString.containsCI (ProtocolPacket.attribute e "parameterInterface") "true" ->
  let p := ProtocolPacket.structureOf protocolName protocolPrefix supported
             bigendian e in
  ProtocolPacket.chooseInterfaces e p =
    (QString.containsCI (ProtocolPacket.attribute e "structureInterface") "true",
     QString.containsCI (ProtocolPacket.attribute e "parameterInterface") "true")
  /\
  ProtocolPacket.interfaceFunctions e p =
    (if QString.containsCI (ProtocolPacket.attribute e "structureInterface")
          "true"
     then ProtocolPacket.createStructurePacketFunctions p
     else ProtocolPacket.createPacketFunctions p).
Proof.
  intros Hchildren Hone p.
  assert (0 < Z.of_nat (List.length (ProtocolPacket.encodables p))) as Hlen.
  { unfold p. rewrite structureOf_length.
    destruct (ProtocolPacket.encodableChildren e); [done|].
    cbn [List.length]. lia. }
  unfold ProtocolPacket.interfaceFunctions, ProtocolPacket.chooseInterfaces.
  destruct (Z.leb_spec (Z.of_nat (List.length (ProtocolPacket.encodables p))) 0);
    [lia|].
  destruct (Z.ltb_spec 0 (Z.of_nat (List.length (ProtocolPacket.encodables p))));
    [|lia].
  destruct (QString.containsCI
              (ProtocolPacket.attribute e "structureInterface") "true"),
           (QString.containsCI
              (ProtocolPacket.attribute e "parameterInterface") "true");
    try done; cbn [negb andb].
  split; [done|]. apply andThen_nothing.
Qed.

Lemma the_one_interface_asked_for_is_written_witness :
  let p := @ProtocolPacket.structureOf Samples.texts "Demo" ""
             Samples.noSupport true MoreSamples.structureOnly in
  ProtocolPacket.encodableChildren MoreSamples.structureOnly <> [] /\
  @ProtocolPacket.chooseInterfaces MoreSamples.structureOnly p = (true, false) /\
  @ProtocolPacket.interfaceFunctions Samples.texts MoreSamples.structureOnly p =
    @ProtocolPacket.createStructurePacketFunctions Samples.texts p.
Proof.
  cbn zeta. split; [discriminate|].
  apply (@the_one_interface_asked_for_is_written Samples.texts "Demo" ""
           Samples.noSupport true MoreSamples.structureOnly); discriminate.
Defined.

Section Accessors.

Import ProtocolPacket Includes.

Lemma consecutive_app_l {A} (sub l r : list A) :
  consecutive sub l -> consecutive sub (l ++ r).
Proof.
  intros (before & after & ->). exists before, (after ++ r).
  by rewrite <- !app_assoc.
Qed.

Lemma consecutive_app_r {A} (sub l r : list A) :
  consecutive sub r -> consecutive sub (l ++ r).
Proof.
  intros (before & after & ->). exists (l ++ before), after.
  by rewrite <- !app_assoc.
Qed.

End Accessors.

(** Looks for a call in a list given as literal pieces. *)
Ltac find_call :=
  solve [ left; reflexivity
        | right; find_call
        | apply in_or_app; right; find_call
        | apply in_or_app; left; find_call ].

(** X21.  Whatever the [Packet] element says, the header [parse] writes
    declares [get<Name>PacketID] and [get<Name>MinDataLength] and the source
    defines them: the first returns the [ID] attribute, or the name of the
    packet in upper case when there is none, the second the minimum encoded
    length, or 0 when that is empty. *)
Theorem every_module_has_its_two_accessors
    `{ProtocolPacket.Collaborators}
    (protocolName protocolPrefix : string)
    (supported : ProtocolPacket.ProtocolSupport) (bigendian : bool)
    (headerAppending sourceAppending : bool)
    (e : ProtocolPacket.element) :
  let p := ProtocolPacket.structureOf protocolName protocolPrefix supported
             bigendian e in
  let files := snd (fst (ProtocolPacket.parse protocolName protocolPrefix
                           supported bigendian headerAppending
                           sourceAppending e)) in
  In (ProtocolPacket.write ("uint32_t get" +:+ ProtocolPacket.prefix p
        +:+ ProtocolPacket.name p +:+ "PacketID(void);" +:+ LF))
    (ProtocolPacket.header files) /\
  In (ProtocolPacket.write ("int get" +:+ ProtocolPacket.prefix p
        +:+ ProtocolPacket.name p +:+ "MinDataLength(void);" +:+ LF))
    (ProtocolPacket.header files) /\
  Includes.consecutive
    [ ProtocolPacket.write ("uint32_t get" +:+ ProtocolPacket.prefix p
         +:+ ProtocolPacket.name p +:+ "PacketID(void)" +:+ LF);
      ProtocolPacket.write ("{" +:+ LF);
      ProtocolPacket.write
        ("    return "
         +:+ (if QString.isEmpty (ProtocolPacket.attribute e "ID")
              then QString.toUpper (ProtocolPacket.name p)
              else ProtocolPacket.attribute e "ID")
         +:+ ";" +:+ LF);
      ProtocolPacket.write ("}" +:+ LF) ]
    (ProtocolPacket.source files) /\
  Includes.consecutive
    [ ProtocolPacket.write ("int get" +:+ ProtocolPacket.prefix p
         +:+ ProtocolPacket.name p +:+ "MinDataLength(void)" +:+ LF);
      ProtocolPacket.write ("{" +:+ LF);
      (if QString.isEmpty
            (Encodable.minEncodedLength (ProtocolPacket.encodedLength p))
       then ProtocolPacket.write ("    return 0;" +:+ LF)
       else ProtocolPacket.write
              ("    return "
               +:+ Encodable.minEncodedLength (ProtocolPacket.encodedLength p)
               +:+ ";" +:+ LF));
      ProtocolPacket.write ("}" +:+ LF) ]
    (ProtocolPacket.source files).
Proof.
  intros p files. unfold files. rewrite parse_layout. fold p.
  rewrite !header_andThen, !source_andThen.
  unfold ProtocolPacket.createUtilityFunctions.
  cbn [snd ProtocolPacket.header ProtocolPacket.source ProtocolPacket.andThen
       ProtocolPacket.toHeader ProtocolPacket.toSource app].
  rewrite !app_nil_r.
  split; [|split; [|split]].
  - find_call.
  - find_call.
  - do 2 apply consecutive_app_l. apply consecutive_app_r.
    eexists [_; _; _; _], _. reflexivity.
  - do 2 apply consecutive_app_l. apply consecutive_app_r.
    eexists [_; _; _; _; _; _; _; _; _; _; _; _], _. reflexivity.
Qed.

(* ------------------------------------------------------------------ *)
(** ** Packets: the include directives of the source file *)
(* ------------------------------------------------------------------ *)

Section SourceIncludes.

Import ProtocolPacket Includes.

Context `{Collaborators}.

Lemma includes_app (a b : list call) :
  includes (a ++ b) = includes a ++ includes b.
Proof. unfold includes. by rewrite flat_map_app. Qed.

Lemma includes_writes {A} (f : A -> string) (l : list A) :
  includes (map (fun x => write (f x)) l) = [].
Proof. induction l as [|x l IH]; [done|]. exact IH. Qed.

Lemma includes_encodeFields p m l bitcount :
  includes (encodeFields p m l bitcount) = [].
Proof.
  revert bitcount. induction l as [|e l IH]; intros bitcount; [done|].
  cbn [encodeFields]. destruct (getEncodeString e _ _ _). apply IH.
Qed.

Lemma includes_decodeEach p m l bitcount :
  includes (decodeEach p m l bitcount) = [].
Proof.
  revert bitcount. induction l as [|e l IH]; intros bitcount; [done|].
  cbn [decodeEach]. destruct (getDecodeString e _ _ _ _). apply IH.
Qed.

Lemma includes_decodeNonDefaults p m l i bitcount :
  includes (fst (fst (decodeNonDefaults p m l i bitcount))) = [].
Proof.
  revert i bitcount. induction l as [|e l IH]; intros i bitcount; [done|].
  cbn [decodeNonDefaults]. destruct (Encodable.isDefault e); [done|].
  destruct (getDecodeString e _ _ _ _) as [text bitcount'].
  specialize (IH (S i) bitcount').
  destruct (decodeNonDefaults p m l (S i) bitcount') as [[calls i'] b'].
  exact IH.
Qed.

Lemma includes_decodeFields p m : includes (decodeFields p m) = [].
Proof.
  unfold decodeFields.
  pose proof (includes_decodeNonDefaults p m (encodables p) 0 0) as Hn.
  destruct (decodeNonDefaults p m (encodables p) 0 0) as [[calls i] bitcount].
  cbn [fst] in Hn. rewrite !includes_app, Hn, includes_decodeEach.
  by destruct (_ && _).
Qed.

Lemma includes_locals p : includes (locals p) = [].
Proof. unfold locals. by destruct (bitfields p), (needsIterator p). Qed.

Lemma includes_setToDefaults p m : includes (setToDefaults p m) = [].
Proof. apply includes_writes. Qed.

Lemma includes_structure p :
  includes (source (createStructurePacketFunctions p)) = [].
Proof.
  unfold createStructurePacketFunctions.
  destruct (0 <? getNumberOfEncodes p); [|reflexivity].
  cbn [source andThen toHeader toSource app]. rewrite app_nil_r.
  unfold structureEncodeFunction, structureDecodeFunction,
    structureDecodeHead, structurePayload.
  rewrite !includes_app, !includes_locals, includes_encodeFields,
    includes_decodeFields.
  destruct (0 <? getNumberOfNonConstEncodes p), (defaults p);
    cbn [includes flat_map app]; rewrite ?includes_setToDefaults;
    reflexivity.
Qed.

Lemma includes_parameter p :
  includes (source (createPacketFunctions p)) = [].
Proof.
  unfold createPacketFunctions.
  destruct (0 <? getNumberOfEncodes p); [|reflexivity].
  cbn [source andThen toHeader toSource app].
  unfold parameterEncodeFunction, parameterDecodeFunction,
    parameterDecodeHead, parameterPayload.
  rewrite !includes_app, !includes_locals, includes_encodeFields,
    includes_decodeFields, !includes_writes.
  destruct (defaults p); cbn [includes flat_map app];
    rewrite ?includes_setToDefaults; reflexivity.
Qed.

Lemma includes_substructures p :
  includes (source (createSubStructureFunctions p)) = [].
Proof.
  unfold createSubStructureFunctions. cbn [source toSource].
  induction (encodables p) as [|e l IH]; [done|].
  cbn [flat_map]. rewrite includes_app, IH.
  by destruct (Encodable.isPrimitive e).
Qed.

Lemma includes_interfaces e p :
  includes (source (interfaceFunctions e p)) = [].
Proof.
  unfold interfaceFunctions.
  destruct (chooseInterfaces e p) as [sf pf].
  rewrite source_andThen, includes_app.
  destruct sf, pf, (0 <? Z.of_nat (List.length (encodables p)));
    rewrite ?includes_structure, ?includes_parameter; reflexivity.
Qed.

Lemma includes_headerTop headerAppending e p :
  includes (source (headerTop headerAppending e p)) = [].
Proof. reflexivity. Qed.

Lemma includes_utility e p :
  includes (source (snd (createUtilityFunctions e p))) = [].
Proof.
  unfold createUtilityFunctions.
  cbn [snd source andThen toHeader toSource app].
  destruct (QString.isEmpty
              (Encodable.minEncodedLength (encodedLength p))); reflexivity.
Qed.

End SourceIncludes.

(** X22.  The helper files are included once per source file: [parse]
    tells a source file that is being appended to include nothing, and a
    new one to include [floatspecial.h] and [bitfieldspecial.h] when the
    protocol supports them, and then the four field and scaling helpers;
    no other call of [parse] writes an include directive to the source. *)
Theorem helpers_are_included_once_per_source_file
    `{ProtocolPacket.Collaborators}
    (protocolName protocolPrefix : string)
    (supported : ProtocolPacket.ProtocolSupport) (bigendian : bool)
    (headerAppending sourceAppending : bool)
    (e : ProtocolPacket.element) :
  Includes.includes
    (ProtocolPacket.source
       (snd (fst (ProtocolPacket.parse protocolName protocolPrefix supported
                    bigendian headerAppending sourceAppending e)))) =
  if sourceAppending then []
  else (if ProtocolPacket.specialFloat supported
        then ["floatspecial.h"] else [])
       ++ (if ProtocolPacket.bitfield supported
           then ["bitfieldspecial.h"] else [])
       ++ ["fielddecode.h"; "fieldencode.h"; "scaleddecode.h";
           "scaledencode.h"].
Proof.
  rewrite parse_layout.
  set (p := ProtocolPacket.structureOf protocolName protocolPrefix supported
              bigendian e).
  assert (ProtocolPacket.support p = supported) as Hsupport.
  { unfold p, ProtocolPacket.structureOf,
      ProtocolPacket.rejectArrayAndDependsOn,
      ProtocolPacket.ProtocolStructure_parse.
    destruct (QString.isEmpty (ProtocolPacket.attribute e "array")
              && negb (QString.isEmpty
                         (ProtocolPacket.attribute e "variableArray")));
      destruct (negb (QString.isEmpty
                        (ProtocolPacket.attribute e "dependsOn")) && _);
      reflexivity. }
  rewrite !source_andThen, !includes_app, includes_substructures,
    includes_interfaces, includes_headerTop, includes_utility, Hsupport.
  destruct sourceAppending, (ProtocolPacket.specialFloat supported),
    (ProtocolPacket.bitfield supported); reflexivity.
Qed.

Section HeaderIncludes.

Import ProtocolPacket Includes.

Context `{Collaborators}.

Lemma includes_directives {A} (f : A -> string) (l : list A) :
  includes (map (fun x => writeIncludeDirective (f x)) l) = map f l.
Proof. induction l as [|x l IH]; [done|]. cbn. f_equal. exact IH. Qed.

Lemma includes_enumerations (l : list EnumCreator.t) :
  includes
    (flat_map (fun en => [ makeLineSeparator; write (EnumCreator.output en) ])
       l) = [].
Proof. induction l as [|en l IH]; [done|]. exact IH. Qed.

Lemma includes_header_headerTop headerAppending e p :
  includes (header (headerTop headerAppending e p)) =
    (if headerAppending then [] else [protoName p +:+ "Protocol.h"])
    ++ includes (outputIncludes e)
    ++ map getIncludeDirective (encodables p).
Proof.
  unfold headerTop.
  cbn [header andThen toHeader toSource app]. rewrite ?app_nil_r.
  match goal with
  | |- includes (?a :: ?b :: ?top ++ ?inc ++ ?dirs ++ ?rest) = _ =>
      change (includes ([a; b] ++ top ++ inc ++ dirs ++ rest) = 
              (if headerAppending then [] else [protoName p +:+ "Protocol.h"])
              ++ includes (outputIncludes e)
              ++ map getIncludeDirective (encodables p));
      assert (includes rest = []) as Hrest;
      [ change rest with ([makeLineSeparator] ++
                          flat_map
                            (fun en => [ makeLineSeparator;
                                         write (EnumCreator.output en) ])
                            (enumList p) ++ [makeLineSeparator]);
        by rewrite !includes_app, includes_enumerations
      | rewrite !includes_app, Hrest, includes_directives ]
  end.
  rewrite app_nil_r. cbn [includes flat_map app].
  f_equal. destruct headerAppending; cbn [negb]; [done|].
  change (write ("/*!" +:+ LF) :: write (" * \file" +:+ LF) :: ?c :: ?l)
    with ([write ("/*!" +:+ LF); write (" * \file" +:+ LF); c] ++ l).
  rewrite !includes_app.
  by destruct (negb (QString.isEmpty (comment p))).
Qed.

Lemma includes_header_interfaces e p :
  includes (header (interfaceFunctions e p)) = [].
Proof.
  unfold interfaceFunctions.
  destruct (chooseInterfaces e p) as [sf pf].
  rewrite header_andThen, includes_app.
  unfold createStructurePacketFunctions, createPacketFunctions.
  destruct sf, pf, (0 <? Z.of_nat (List.length (encodables p)));
    try reflexivity;
    destruct (0 <? getNumberOfEncodes p); try reflexivity;
    destruct (0 <? getNumberOfNonConstEncodes p); reflexivity.
Qed.

End HeaderIncludes.

(** X23.  The include directives [parse] writes to the header are, in this
    order: the header of the protocol when the file is new, the includes
    the [Packet] element asks for, and one directive for each child; no
    other call of [parse] writes an include directive to the header. *)
Theorem header_includes_protocol_then_children
    `{ProtocolPacket.Collaborators}
    (protocolName protocolPrefix : string)
    (supported : ProtocolPacket.ProtocolSupport) (bigendian : bool)
    (headerAppending sourceAppending : bool)
    (e : ProtocolPacket.element) :
  let p := ProtocolPacket.structureOf protocolName protocolPrefix supported
             bigendian e in
  Includes.includes
    (ProtocolPacket.header
       (snd (fst (ProtocolPacket.parse protocolName protocolPrefix supported
                    bigendian headerAppending sourceAppending e)))) =
  (if headerAppending then [] else [protocolName +:+ "Protocol.h"])
  ++ Includes.includes (ProtocolPacket.outputIncludes e)
  ++ map ProtocolPacket.getIncludeDirective (ProtocolPacket.encodables p).
Proof.
  intros p. rewrite parse_layout. fold p.
  assert (ProtocolPacket.protoName p = protocolName) as Hname.
  { unfold p, ProtocolPacket.structureOf,
      ProtocolPacket.rejectArrayAndDependsOn,
      ProtocolPacket.ProtocolStructure_parse.
    destruct (QString.isEmpty (ProtocolPacket.attribute e "array")
              && negb (QString.isEmpty
                         (ProtocolPacket.attribute e "variableArray")));
      destruct (negb (QString.isEmpty
                        (ProtocolPacket.attribute e "dependsOn")) && _);
      reflexivity. }
  rewrite !header_andThen, !includes_app, includes_header_headerTop,
    includes_header_interfaces, Hname.
  unfold ProtocolPacket.createSubStructureFunctions,
    ProtocolPacket.createUtilityFunctions.
  cbn [snd ProtocolPacket.header ProtocolPacket.andThen
       ProtocolPacket.toHeader ProtocolPacket.toSource app
       Includes.includes flat_map].
  by rewrite ?app_nil_r.
Qed.

(* ------------------------------------------------------------------ *)
(** ** Packets: the encoding table of the documentation *)
(* ------------------------------------------------------------------ *)

Section EncodingTable.

Import EnumCreatorOutput PacketMarkdown.

Lemma longest_snoc (l : list string) (s : string) :
  longest (l ++ [s]) = Z.max (longest l) (length s).
Proof.
  unfold longest. induction l as [|x l IH]; cbn; [lia|].
  cbn in IH. rewrite IH. lia.
Qed.

Lemma longest_nonneg (l : list string) : 0 <= longest l.
Proof. unfold longest. induction l as [|x l IH]; cbn; lia. Qed.

Lemma longest_fits (l : list string) (i : nat) (s : string) :
  l !! i = Some s -> length s <= longest l.
Proof.
  unfold longest. revert i. induction l as [|x l IH]; intros [|i] H;
    try discriminate; cbn in *.
  - injection H as ->. lia.
  - specialize (IH i H). lia.
Qed.

Lemma longest_below (l : list string) (bound : Z) :
  0 <= bound -> Forall (fun s => length s <= bound) l -> longest l <= bound.
Proof.
  intros Hb H. unfold longest. induction H as [|x l Hx _ IH]; cbn; lia.
Qed.

Variable d : details.

(** The first loop over the table, run on the first [k] lines: the byte
    cells of these lines are rewritten, and every width is the length of
    the longest cell met. *)
Lemma measure_closed (k : nat) :
  (k <= List.length (bytes d))%nat ->
  (k <= List.length (names d))%nat ->
  (k <= List.length (encodings d))%nat ->
  (k <= List.length (repeats d))%nat ->
  (k <= List.length (comments d))%nat ->
  fold_left (measure d) (seq 0 k)
    (Some {| bytesList := bytes d; byteColumn := 0; nameColumn := 0;
             encodingColumn := 0; repeatColumn := 0; commentColumn := 0 |})
  = Some {| bytesList := map asWritten (take k (bytes d)) ++ drop k (bytes d);
            byteColumn := longest (map asWritten (take k (bytes d)));
            nameColumn := longest (take k (names d));
            encodingColumn := longest (take k (encodings d));
            repeatColumn := longest (take k (repeats d));
            commentColumn := longest (take k (comments d)) |}.
Proof.
  induction k as [|k IH]; intros Hb Hn He Hr Hc.
  - cbn. by rewrite drop_0.
  - rewrite seq_S, fold_left_app, IH by lia. clear IH. cbn [fold_left Nat.add].
    destruct (lookup_lt_is_Some_2 (bytes d) k) as [b Hbs]; [lia|].
    destruct (lookup_lt_is_Some_2 (names d) k) as [n Hns]; [lia|].
    destruct (lookup_lt_is_Some_2 (encodings d) k) as [e Hes]; [lia|].
    destruct (lookup_lt_is_Some_2 (repeats d) k) as [r Hrs]; [lia|].
    destruct (lookup_lt_is_Some_2 (comments d) k) as [c Hcs]; [lia|].
    assert (List.length (map asWritten (take k (bytes d))) = k) as Hlen.
    { rewrite length_map, length_take. lia. }
    unfold measure. cbn [mbind option_bind bytesList byteColumn nameColumn
      encodingColumn repeatColumn commentColumn].
    rewrite lookup_app_r by lia. rewrite Hlen, Nat.sub_diag.
    rewrite (drop_S _ _ _ Hbs). cbn [lookup list_lookup].
    cbn [mbind option_bind]. rewrite Hns, Hes, Hrs, Hcs.
    cbn [mbind option_bind].
    rewrite !ltb_max.
    rewrite (take_S_r _ _ _ Hbs), (take_S_r _ _ _ Hns), (take_S_r _ _ _ Hes),
      (take_S_r _ _ _ Hrs), (take_S_r _ _ _ Hcs).
    rewrite map_app. cbn [map]. rewrite !longest_snoc.
    fold (asWritten b).
    f_equal. f_equal.
    rewrite insert_app_r_alt by lia. rewrite Hlen, Nat.sub_diag.
    cbn. by rewrite <- app_assoc.
Qed.

Lemma length_tableRow (st : widths) (b n e r c : string) :
  length b <= byteColumn st -> length n <= nameColumn st ->
  length e <= encodingColumn st -> length r <= repeatColumn st ->
  length c <= commentColumn st ->
  encodingColumn st + repeatColumn st < 2 ^ 31 ->
  length
    ("| " +:+ spacedString b (byteColumn st)
     +:+ " | " +:+ spacedString n (nameColumn st)
     +:+ (if QString.isEmpty e && QString.isEmpty r then
            spacedString EmptyString
              (int32 (encodingColumn st + repeatColumn st))
            +:+ "     ||| "
          else if QString.isEmpty e then
            spacedString e (encodingColumn st)
            +:+ "   || " +:+ spacedString r (repeatColumn st) +:+ " | "
          else if QString.isEmpty r then
            " | " +:+ spacedString e (encodingColumn st)
            +:+ spacedString r (repeatColumn st) +:+ "   || "
          else
            " | " +:+ spacedString e (encodingColumn st)
            +:+ " | " +:+ spacedString r (repeatColumn st) +:+ " | ")
     +:+ spacedString c (commentColumn st)
     +:+ (" |" +:+ LF))
  = byteColumn st + nameColumn st + encodingColumn st + repeatColumn st
    + commentColumn st + 17.
Proof.
  intros Hb Hn He Hr Hc Hsum.
  pose proof (length_nonneg e). pose proof (length_nonneg r).
  rewrite int32_small by lia.
  destruct (QString.isEmpty e), (QString.isEmpty r); cbn [andb];
    rewrite !length_append, !length_spacedString;
    change (length "| ") with 2; change (length " | ") with 3;
    change (length " |") with 2; change (length LF) with 1;
    change (length "     ||| ") with 9; change (length "   || ") with 6;
    change (length EmptyString) with 0; lia.
Qed.

End EncodingTable.

(** X24.  When the five lists of the encoding table are parallel and still
    start with the headings (and no encoding or repeat cell has 2^30
    characters or more), [encodingTable] returns the caption, the header,
    the line under it and one row for every line after the headings.  The
    width of a column is the length of its longest cell, the byte cells
    being taken as the first loop rewrites them.  The header holds the five
    headings, each padded to the width of its column; the line under it is
    made of dashes of these widths; the row of a line holds the five cells
    of that line, padded alike, with an empty encoding or repeat cell
    merged into its neighbour.  Header, line and rows all have the same
    number of characters. *)
Theorem encoding_table_rows_have_one_width (packetName : string)
    (d : PacketMarkdown.details) :
  List.length (PacketMarkdown.bytes d) = List.length (PacketMarkdown.names d) ->
  List.length (PacketMarkdown.encodings d)
    = List.length (PacketMarkdown.names d) ->
  List.length (PacketMarkdown.repeats d)
    = List.length (PacketMarkdown.names d) ->
  List.length (PacketMarkdown.comments d)
    = List.length (PacketMarkdown.names d) ->
  PacketMarkdown.encodings d !! 0%nat = Some "[Enc](#Enc)" ->
  PacketMarkdown.repeats d !! 0%nat = Some "Repeat" ->
  Forall (fun s => EnumCreatorOutput.length s < 2 ^ 30)
    (PacketMarkdown.encodings d ++ PacketMarkdown.repeats d) ->
  let shown := map PacketMarkdown.asWritten (PacketMarkdown.bytes d) in
  let bw := PacketMarkdown.longest shown in
  let nw := PacketMarkdown.longest (PacketMarkdown.names d) in
  let ew := PacketMarkdown.longest (PacketMarkdown.encodings d) in
  let rw := PacketMarkdown.longest (PacketMarkdown.repeats d) in
  let cw := PacketMarkdown.longest (PacketMarkdown.comments d) in
  let w := bw + nw + ew + rw + cw + 17 in
  let cell := EnumCreatorOutput.spacedString in
  let dashes := fun n => EnumCreatorOutput.times (Z.to_nat n) "-" in
  exists b0 n0 c0 rows,
    shown !! 0%nat = Some b0 /\
    PacketMarkdown.names d !! 0%nat = Some n0 /\
    PacketMarkdown.comments d !! 0%nat = Some c0 /\
    let header :=
      "| " +:+ cell b0 bw +:+ " | " +:+ cell n0 nw
      +:+ " | " +:+ cell "[Enc](#Enc)" ew +:+ " | " +:+ cell "Repeat" rw
      +:+ " | " +:+ cell c0 cw +:+ (" |" +:+ LF) in
    let underline :=
      "| " +:+ dashes bw +:+ " | " +:+ dashes nw
      +:+ " | :" +:+ dashes (ew - 2) +:+ ": | :" +:+ dashes (rw - 2)
      +:+ ": | " +:+ dashes cw +:+ (" |" +:+ LF) in
    PacketMarkdown.encodingTable packetName d =
      Some (LF +:+ ("[Encoding for packet " +:+ packetName +:+ "]" +:+ LF)
            +:+ header +:+ underline
            +:+ String.concat EmptyString rows +:+ LF) /\
    EnumCreatorOutput.length header = w /\
    EnumCreatorOutput.length underline = w /\
    List.length rows = (List.length (PacketMarkdown.names d) - 1)%nat /\
    forall i row, rows !! i = Some row ->
      exists b n e r c,
        shown !! S i = Some b /\
        PacketMarkdown.names d !! S i = Some n /\
        PacketMarkdown.encodings d !! S i = Some e /\
        PacketMarkdown.repeats d !! S i = Some r /\
        PacketMarkdown.comments d !! S i = Some c /\
        row =
          "| " +:+ cell b bw +:+ " | " +:+ cell n nw
          +:+ (if QString.isEmpty e && QString.isEmpty r then
                 cell EmptyString (ew + rw) +:+ "     ||| "
               else if QString.isEmpty e then
                 cell e ew +:+ "   || " +:+ cell r rw +:+ " | "
               else if QString.isEmpty r then
                 " | " +:+ cell e ew +:+ cell r rw +:+ "   || "
               else
                 " | " +:+ cell e ew +:+ " | " +:+ cell r rw +:+ " | ")
          +:+ cell c cw +:+ (" |" +:+ LF) /\
        EnumCreatorOutput.length row = w.
Proof.
  intros Hb He Hr Hc He0 Hr0 Hshort shown bw nw ew rw cw w cell dashes.
  apply Forall_app in Hshort as [Hshort3 Hshort4].
  set (n := List.length (PacketMarkdown.names d)) in *.
  assert (0 < n)%nat as Hn.
  { apply lookup_lt_Some in He0. lia. }
  pose proof (measure_closed d n ltac:(lia) ltac:(lia) ltac:(lia) ltac:(lia)
                ltac:(lia)) as Hfold.
  rewrite (take_ge (PacketMarkdown.bytes d)),
          (take_ge (PacketMarkdown.names d)),
          (take_ge (PacketMarkdown.encodings d)),
          (take_ge (PacketMarkdown.repeats d)),
          (take_ge (PacketMarkdown.comments d)),
          (drop_ge (PacketMarkdown.bytes d)), app_nil_r in Hfold by lia.
  fold shown bw nw ew rw cw in Hfold.
  assert (ew + rw < 2 ^ 31) as Hsum.
  { assert (ew <= 2 ^ 30 - 1).
    { apply longest_below; [lia|].
      eapply Forall_impl; [exact Hshort3|]. cbn. intros; lia. }
    assert (rw <= 2 ^ 30 - 1).
    { apply longest_below; [lia|].
      eapply Forall_impl; [exact Hshort4|]. cbn. intros; lia. }
    lia. }
  assert (List.length shown = n) as Hshown
    by (unfold shown; rewrite length_map; lia).
  assert (forall i, (i < n)%nat ->
            exists b nm e r c,
              shown !! i = Some b /\
              PacketMarkdown.names d !! i = Some nm /\
              PacketMarkdown.encodings d !! i = Some e /\
              PacketMarkdown.repeats d !! i = Some r /\
              PacketMarkdown.comments d !! i = Some c /\
              EnumCreatorOutput.length b <= bw /\
              EnumCreatorOutput.length nm <= nw /\
              EnumCreatorOutput.length e <= ew /\
              EnumCreatorOutput.length r <= rw /\
              EnumCreatorOutput.length c <= cw)
    as Hcells.
  { intros i Hi.
    destruct (lookup_lt_is_Some_2 shown i) as [b Hbs]; [lia|].
    destruct (lookup_lt_is_Some_2 (PacketMarkdown.names d) i)
      as [nm Hns]; [done|].
    destruct (lookup_lt_is_Some_2 (PacketMarkdown.encodings d) i)
      as [e Hes]; [lia|].
    destruct (lookup_lt_is_Some_2 (PacketMarkdown.repeats d) i)
      as [r Hrs]; [lia|].
    destruct (lookup_lt_is_Some_2 (PacketMarkdown.comments d) i)
      as [c Hcs]; [lia|].
    exists b, nm, e, r, c. repeat split; try done;
      eapply longest_fits; eassumption. }
  assert (2 <= ew /\ 2 <= rw) as [He2 Hr2].
  { pose proof (longest_fits _ _ _ He0) as H3.
    pose proof (longest_fits _ _ _ Hr0) as H4.
    change (EnumCreatorOutput.length "[Enc](#Enc)") with 11 in H3.
    change (EnumCreatorOutput.length "Repeat") with 6 in H4.
    fold ew in H3. fold rw in H4. lia. }
  pose proof (longest_nonneg shown) as Hbw0. fold bw in Hbw0.
  pose proof (longest_nonneg (PacketMarkdown.names d)) as Hnw0. fold nw in Hnw0.
  pose proof (longest_nonneg (PacketMarkdown.comments d)) as Hcw0.
  fold cw in Hcw0.
  set (st := {| PacketMarkdown.bytesList := shown;
                PacketMarkdown.byteColumn := bw;
                PacketMarkdown.nameColumn := nw;
                PacketMarkdown.encodingColumn := ew;
                PacketMarkdown.repeatColumn := rw;
                PacketMarkdown.commentColumn := cw |}) in *.
  destruct (Hcells 0%nat Hn) as
    (b0 & n0 & e0 & r0 & c0 & Hb0 & Hn0 & He0' & Hr0' & Hc0
        & B1 & B2 & B3 & B4 & B5).
  rewrite He0 in He0'. injection He0' as <-.
  rewrite Hr0 in Hr0'. injection Hr0' as <-.
  assert (forall i, (i < n)%nat ->
            exists b nm e r c,
              shown !! i = Some b /\
              PacketMarkdown.names d !! i = Some nm /\
              PacketMarkdown.encodings d !! i = Some e /\
              PacketMarkdown.repeats d !! i = Some r /\
              PacketMarkdown.comments d !! i = Some c /\
              PacketMarkdown.tableRow d st i = Some
                ("| " +:+ cell b bw +:+ " | " +:+ cell nm nw
                 +:+ (if QString.isEmpty e && QString.isEmpty r then
                        cell EmptyString (ew + rw) +:+ "     ||| "
                      else if QString.isEmpty e then
                        cell e ew +:+ "   || " +:+ cell r rw +:+ " | "
                      else if QString.isEmpty r then
                        " | " +:+ cell e ew +:+ cell r rw +:+ "   || "
                      else
                        " | " +:+ cell e ew +:+ " | " +:+ cell r rw +:+ " | ")
                 +:+ cell c cw +:+ (" |" +:+ LF)) /\
              EnumCreatorOutput.length
                ("| " +:+ cell b bw +:+ " | " +:+ cell nm nw
                 +:+ (if QString.isEmpty e && QString.isEmpty r then
                        cell EmptyString (ew + rw) +:+ "     ||| "
                      else if QString.isEmpty e then
                        cell e ew +:+ "   || " +:+ cell r rw +:+ " | "
                      else if QString.isEmpty r then
                        " | " +:+ cell e ew +:+ cell r rw +:+ "   || "
                      else
                        " | " +:+ cell e ew +:+ " | " +:+ cell r rw +:+ " | ")
                 +:+ cell c cw +:+ (" |" +:+ LF)) = w) as Hrow.
  { intros i Hi.
    destruct (Hcells i Hi) as
      (b & nm & e & r & c & Hbs & Hns & Hes & Hrs & Hcs & C1 & C2 & C3 & C4 & C5).
    exists b, nm, e, r, c. do 5 (split; [done|]).
    pose proof (length_tableRow st b nm e r c C1 C2 C3 C4 C5 Hsum) as Hlen.
    cbn [PacketMarkdown.byteColumn PacketMarkdown.nameColumn
         PacketMarkdown.encodingColumn PacketMarkdown.repeatColumn
         PacketMarkdown.commentColumn st] in Hlen.
    rewrite int32_small in Hlen by lia.
    split; [|exact Hlen].
    unfold PacketMarkdown.tableRow.
    cbn [PacketMarkdown.bytesList PacketMarkdown.byteColumn
         PacketMarkdown.nameColumn PacketMarkdown.encodingColumn
         PacketMarkdown.repeatColumn PacketMarkdown.commentColumn st].
    rewrite Hbs, Hns, Hes, Hrs, Hcs. cbn [mbind option_bind].
    rewrite int32_small by lia. reflexivity. }
  destruct (mapM (PacketMarkdown.tableRow d st) (seq 1 (n - 1)))
    as [rows|] eqn:Hrows.
  2:{ exfalso. apply eq_None_not_Some in Hrows. apply Hrows.
      apply mapM_is_Some. apply Forall_forall. intros i Hi.
      apply elem_of_seq in Hi.
      destruct (Hrow i) as (? & ? & ? & ? & ? & _ & _ & _ & _ & _ & Hr' & _);
        [lia|]. cbn. by rewrite Hr'. }
  exists b0, n0, c0, rows. do 3 (split; [done|]). cbn zeta.
  split.
  { unfold PacketMarkdown.encodingTable. fold n. rewrite Hfold.
    cbn [mbind option_bind]. fold st.
    unfold PacketMarkdown.tableHeader.
    cbn [PacketMarkdown.bytesList PacketMarkdown.byteColumn
         PacketMarkdown.nameColumn PacketMarkdown.encodingColumn
         PacketMarkdown.repeatColumn PacketMarkdown.commentColumn st].
    rewrite Hb0, Hn0, He0, Hr0, Hc0. cbn [mbind option_bind].
    fold st. rewrite Hrows. cbn [mbind option_bind].
    unfold PacketMarkdown.tableUnderscore.
    cbn [PacketMarkdown.byteColumn
         PacketMarkdown.nameColumn PacketMarkdown.encodingColumn
         PacketMarkdown.repeatColumn PacketMarkdown.commentColumn st].
    replace (ew - 1 - 1) with (ew - 2) by lia.
    replace (rw - 1 - 1) with (rw - 2) by lia.
    by rewrite !append_assoc. }
  split.
  { pose proof (longest_fits _ _ _ He0) as H3.
    pose proof (longest_fits _ _ _ Hr0) as H4. fold ew in H3. fold rw in H4.
    unfold cell. rewrite !length_append, !length_spacedString.
    change (EnumCreatorOutput.length "| ") with 2.
    change (EnumCreatorOutput.length " | ") with 3.
    change (EnumCreatorOutput.length " |") with 2.
    change (EnumCreatorOutput.length LF) with 1. lia. }
  split.
  { unfold dashes. rewrite !length_append, !length_times.
    change (EnumCreatorOutput.length "| ") with 2.
    change (EnumCreatorOutput.length " | ") with 3.
    change (EnumCreatorOutput.length " | :") with 4.
    change (EnumCreatorOutput.length ": | :") with 5.
    change (EnumCreatorOutput.length ": | ") with 4.
    change (EnumCreatorOutput.length " |") with 2.
    change (EnumCreatorOutput.length LF) with 1.
    change (EnumCreatorOutput.length "-") with 1. lia. }
  apply mapM_Some_1 in Hrows.
  pose proof (Forall2_length _ _ _ Hrows) as Hrl. rewrite length_seq in Hrl.
  split; [lia|].
  intros i row Hi.
  destruct (Forall2_lookup_r _ _ _ _ _ Hrows Hi) as (j & Hj & Hjr).
  apply lookup_seq in Hj as [-> Hj].
  destruct (Hrow (1 + i)%nat) as
    (b & nm & e & r & c & Hbs & Hns & Hes & Hrs & Hcs & Hr' & Hw'); [lia|].
  rewrite Hr' in Hjr. injection Hjr as <-.
  exists b, nm, e, r, c. done.
Qed.

Lemma encoding_table_rows_have_one_width_witness :
  exists rows,
    PacketMarkdown.encodingTable "Blob" MoreSamples.tableOfTwo =
      Some (LF +:+ ("[Encoding for packet Blob]" +:+ LF)
            +:+ ("| Bytes | Name    | [Enc](#Enc) | Repeat | Description |" +:+ LF)
            +:+ ("| ----- | ------- | :---------: | :----: | ----------- |" +:+ LF)
            +:+ String.concat EmptyString rows +:+ LF) /\
    rows = ["| 0     | 1)flag  | U8                  || a flag      |" +:+ LF;
            "| 1...4 | 2)count                      ||| how many    |" +:+ LF] /\
    Forall (fun r => EnumCreatorOutput.length r = 57) rows.
Proof.
  destruct (encoding_table_rows_have_one_width "Blob" MoreSamples.tableOfTwo)
    as (b0 & n0 & c0 & rows & Hb0 & Hn0 & Hc0 & Htable & Hh & Hu & Hlen & Hrows);
    try reflexivity.
  { repeat constructor. }
  injection Hb0 as <-. injection Hn0 as <-. injection Hc0 as <-.
  exists rows. split; [exact Htable|].
  destruct rows as [|r1 [|r2 [|r3 rows]]]; try discriminate Hlen.
  destruct (Hrows 0%nat r1 eq_refl) as
    (b & n & e & r & c & Hb & Hn & He & Hr & Hc & -> & Hw1).
  injection Hb as <-. injection Hn as <-. injection He as <-.
  injection Hr as <-. injection Hc as <-.
  destruct (Hrows 1%nat r2 eq_refl) as
    (b & n & e & r & c & Hb & Hn & He & Hr & Hc & -> & Hw2).
  injection Hb as <-. injection Hn as <-. injection He as <-.
  injection Hr as <-. injection Hc as <-.
  split; [reflexivity|].
  repeat constructor.
Defined.

(* ------------------------------------------------------------------ *)
(** ** The driver: arguments and exit code *)
(* ------------------------------------------------------------------ *)

Section Driver.

Import Main Arguments.

Lemma argument_flags (o : options) (arg : string) :
  nodoxygen (argument o arg)
    = (nodoxygen o || QString.containsCI arg "-no-doxygen") /\
  nomarkdown (argument o arg)
    = (nomarkdown o
       || negb (QString.containsCI arg "-no-doxygen")
          && QString.containsCI arg "-no-markdown") /\
  nohelperfiles (argument o arg)
    = (nohelperfiles o
       || negb (QString.containsCI arg "-no-doxygen")
          && negb (QString.containsCI arg "-no-markdown")
          && QString.containsCI arg "-no-helper-files") /\
  filename (argument o arg) = (if isInput arg then arg else filename o).
Proof.
  unfold argument, isInput, isSwitch.
  destruct (QString.containsCI arg "-no-doxygen"); cbn;
    [by rewrite !orb_true_r, !orb_false_r|].
  destruct (QString.containsCI arg "-no-markdown"); cbn;
    [by rewrite !orb_true_r, !orb_false_r|].
  destruct (QString.containsCI arg "-no-helper-files"); cbn;
    [by rewrite !orb_true_r, !orb_false_r|].
  rewrite !orb_false_r.
  destruct (QString.endsWith arg ".xml"); cbn; [done|].
  by destruct (negb (String.eqb arg (filename o))).
Qed.

Lemma last_default {A} (l : list A) (a d d' : A) :
  List.last (a :: l) d = List.last (a :: l) d'.
Proof.
  revert a. induction l as [|b l IH]; intros a; [done|].
  change (List.last (b :: l) d = List.last (b :: l) d'). apply IH.
Qed.

Lemma arguments_fold (l : list string) (o : options) :
  let o' := fold_left argument l o in
  nodoxygen o'
    = (nodoxygen o
       || existsb (fun arg => QString.containsCI arg "-no-doxygen") l) /\
  nomarkdown o'
    = (nomarkdown o
       || existsb (fun arg => negb (QString.containsCI arg "-no-doxygen")
                              && QString.containsCI arg "-no-markdown") l) /\
  nohelperfiles o'
    = (nohelperfiles o
       || existsb (fun arg => negb (QString.containsCI arg "-no-doxygen")
                              && negb (QString.containsCI arg "-no-markdown")
                              && QString.containsCI arg "-no-helper-files") l)
  /\
  filename o' = List.last (List.filter isInput l) (filename o).
Proof.
  revert o. induction l as [|arg l IH]; intros o; cbn zeta.
  - cbn. by rewrite !orb_false_r.
  - cbn [fold_left existsb List.filter].
    destruct (IH (argument o arg)) as (H1 & H2 & H3 & H4).
    cbn zeta in H1, H2, H3, H4. rewrite H1, H2, H3, H4.
    destruct (argument_flags o arg) as (-> & -> & -> & ->).
    rewrite !orb_assoc. repeat split.
    destruct (isInput arg); [|done].
    destruct (List.filter isInput l) eqn:Hl; [done|].
    change (List.last (s :: l0) arg = List.last (s :: l0) (filename o)).
    apply last_default.
Qed.

Lemma path_fold (l : list string) (o : options) :
  let o' := fold_left argument l o in
  path o' = path o \/
  (In (path o') l /\ isSwitch (path o') = false /\
   QString.endsWith (path o') ".xml" = false).
Proof.
  revert o. induction l as [|arg l IH]; intros o; cbn zeta; [by left|].
  cbn [fold_left]. destruct (IH (argument o arg)) as [Hsame|(Hin & Hs & Hx)].
  - cbn zeta in Hsame. rewrite Hsame. unfold argument, isSwitch.
    destruct (QString.containsCI arg "-no-doxygen") eqn:H1; [by left|].
    destruct (QString.containsCI arg "-no-markdown") eqn:H2; [by left|].
    destruct (QString.containsCI arg "-no-helper-files") eqn:H3; [by left|].
    destruct (QString.endsWith arg ".xml") eqn:H4; [by left|].
    destruct (negb (String.eqb arg (filename o))); [|by left].
    right. cbn [path]. rewrite H1, H2, H3, H4. split; [by left | done].
  - right. split; [by right | done].
Qed.

End Driver.

(** X25.  [main] returns 1 exactly when it ran the parser, that is when
    there are at least two arguments, the input file name is not empty, the
    file could be opened and its content was accepted as XML; in every
    other case it returns 0 and the parser is not run. *)
Theorem main_returns_1_iff_the_parser_ran (w : Main.world)
    (arguments : list string) :
  let o := Main.readArguments arguments in
  let ran := Main.runParser (Main.filename o) (Main.nodoxygen o)
               (Main.nomarkdown o) (Main.nohelperfiles o) in
  (fst (Main.main w arguments) = 1 <->
   (1 < List.length arguments)%nat /\
   QString.isEmpty (Main.filename o) = false /\
   Main.open w (Main.filename o) = true /\
   Main.setContent w (Main.filename o) = true) /\
  (fst (Main.main w arguments) = 1 <-> In ran (snd (Main.main w arguments))) /\
  (fst (Main.main w arguments) <> 1 ->
   fst (Main.main w arguments) = 0 /\
   Main.onlyPrints (snd (Main.main w arguments)) = true).
Proof.
  intros o ran. unfold Main.main. fold o.
  destruct (Z.leb_spec (Z.of_nat (List.length arguments)) 1) as [Hshort|Hlong].
  { cbn. split; [split; [done | lia]|]. split; [|done].
    split; [done|]. intros [H|[H|[]]]; discriminate H. }
  destruct (QString.isEmpty (Main.filename o)) eqn:Hname; cbn [negb].
  { cbn. split; [split; [done | by intros (_ & ? & _)]|]. split; [|done].
    split; [done|]. intros [H|[]]; discriminate H. }
  destruct (Main.open w (Main.filename o)) eqn:Hopen.
  2:{ cbn. split; [split; [done | by intros (_ & _ & ? & _)]|].
      split; [|done]. split; [done|]. intros [H|[]]; discriminate H. }
  destruct (Main.setContent w (Main.filename o)) eqn:Hxml.
  2:{ cbn. split; [split; [done | by intros (_ & _ & _ & ?)]|].
      split; [|done]. split; [done|]. intros [H|[H|[]]]; discriminate H. }
  cbn [fst snd].
  assert ((if Main.parserParse w (Main.filename o) (Main.nodoxygen o)
                (Main.nomarkdown o) (Main.nohelperfiles o)
           then 1 else 1) = 1) as -> by (by destruct (Main.parserParse _ _ _ _ _)).
  split; [split; [intros _; repeat split; lia | done]|].
  split; [|done]. split; [|done]. intros _.
  apply in_or_app. right. left. reflexivity.
Qed.

(** X26.  A switch is found in any argument after the program name,
    whatever its case and whatever surrounds it.  [-no-doxygen] is looked
    for first, then [-no-markdown], then [-no-helper-files], and an
    argument counts for the first of them it contains only. *)
Theorem switches_are_found_in_any_argument (arguments : list string) :
  let o := Main.readArguments arguments in
  (Main.nodoxygen o = true <->
   exists arg, In arg (drop 1 arguments) /\
               QString.containsCI arg "-no-doxygen" = true) /\
  (Main.nomarkdown o = true <->
   exists arg, In arg (drop 1 arguments) /\
               QString.containsCI arg "-no-doxygen" = false /\
               QString.containsCI arg "-no-markdown" = true) /\
  (Main.nohelperfiles o = true <->
   exists arg, In arg (drop 1 arguments) /\
               QString.containsCI arg "-no-doxygen" = false /\
               QString.containsCI arg "-no-markdown" = false /\
               QString.containsCI arg "-no-helper-files" = true).
Proof.
  intros o. unfold o, Main.readArguments.
  destruct (arguments_fold (drop 1 arguments)
    {| Main.nodoxygen := false; Main.nomarkdown := false;
       Main.nohelperfiles := false;
       Main.filename := nth 1 arguments EmptyString;
       Main.path := EmptyString |}) as (H1 & H2 & H3 & _).
  cbn zeta in H1, H2, H3. rewrite H1, H2, H3.
  cbn [Main.nodoxygen Main.nomarkdown Main.nohelperfiles orb].
  rewrite !existsb_exists.
  split; [done|]. split; split.
  - intros (arg & Hin & Harg). apply andb_true_iff in Harg as [Ha Hb].
    apply negb_true_iff in Ha. eauto.
  - intros (arg & Hin & Ha & Hb). exists arg. by rewrite Ha, Hb.
  - intros (arg & Hin & Harg). apply andb_true_iff in Harg as [Hab Hc].
    apply andb_true_iff in Hab as [Ha Hb].
    apply negb_true_iff in Ha. apply negb_true_iff in Hb. eauto 6.
  - intros (arg & Hin & Ha & Hb & Hc). exists arg. by rewrite Ha, Hb, Hc.
Qed.

(** X27.  The input file is the last argument that ends in [.xml] and
    contains no switch, and the first argument after the program name when
    there is no such argument.  The output path, when one is set, is an
    argument that contains no switch and does not end in [.xml]. *)
Theorem input_file_is_the_last_xml_argument (arguments : list string) :
  let o := Main.readArguments arguments in
  Main.filename o =
    List.last (List.filter Arguments.isInput (drop 1 arguments))
      (nth 1 arguments EmptyString) /\
  (Main.path o = EmptyString \/
   (In (Main.path o) (drop 1 arguments) /\
    Arguments.isSwitch (Main.path o) = false /\
    QString.endsWith (Main.path o) ".xml" = false)).
Proof.
  intros o. unfold o, Main.readArguments. split.
  - destruct (arguments_fold (drop 1 arguments)
      {| Main.nodoxygen := false; Main.nomarkdown := false;
         Main.nohelperfiles := false;
         Main.filename := nth 1 arguments EmptyString;
         Main.path := EmptyString |}) as (_ & _ & _ & H4).
    exact H4.
  - apply (path_fold (drop 1 arguments)
      {| Main.nodoxygen := false; Main.nomarkdown := false;
         Main.nohelperfiles := false;
         Main.filename := nth 1 arguments EmptyString;
         Main.path := EmptyString |}).
Qed.
